(** * alr: pool bookkeeping, acquisition and annealing

    A shallow embedding of the active-learning core of [alr]:
    - [alr/data/__init__.py]: [UnlabelledDataset] and [DataManager];
    - [alr/training/pseudo_label_trainer.py]: [Annealer];
    - [experiments/.../max_ent10/train.py]: the [MaxEnt] acquisition function.

    Python integers are [Z]; tensors and arrays of rank one are lists;
    Python floats of the annealing schedule are exact rationals ([Q]);
    objects with mutable attributes are records threaded through a small
    state-and-exception monad. *)

From Stdlib Require Import List ZArith QArith Qround Lia Bool Permutation Sorted FinFun.
Import ListNotations.
Open Scope Z_scope.

(** ** Python runtime: exceptions, results, indexing *)

Module Py.

(** The [assert] statements of the sources, one tag per statement. *)
Inductive assertion : Type :=
| Debug_without_label_fn  (* assert self._label_fn is None *)
| Cant_label              (* "Can't label points that have been labelled." *)
| No_remaining            (* "There are no remaining unlabelled points." *)
| Pool_size               (* assert b <= self.n_unlabelled *)
| Shape                   (* assert idxs.shape == (b,) *)
| Preds_rows              (* assert preds_N_C.shape[0] == pool_size *)
| Finite_entropy          (* assert torch.isfinite(entropy).all() *)
| Entropy_shape           (* assert entropy.shape == (pool_size,) *)
| No_shuffle.             (* assert not self._dl_params.get("shuffle", False) *)

Inductive exn : Type :=
| IndexError
| ValueError
| ZeroDivisionError
| RuntimeError
| AssertionError (a : assertion)
| External (code : Z).    (* raised by a collaborator outside the model *)

Inductive result (A : Type) : Type :=
| Ok (a : A)
| Raise (e : exn).
Arguments Ok {A} a.
Arguments Raise {A} e.

Definition rbind {A B} (r : result A) (k : A -> result B) : result B :=
  match r with
  | Ok a => k a
  | Raise e => Raise e
  end.

(** Computations over a mutable object of type [S] that may raise: the
    object as it is when the exception leaves is part of the outcome. *)
Definition M (S A : Type) : Type := S -> result A * S.

Definition ret {S A} (a : A) : M S A := fun s => (Ok a, s).
Definition bind {S A B} (c : M S A) (k : A -> M S B) : M S B :=
  fun s => match c s with
           | (Ok a, s') => k a s'
           | (Raise e, s') => (Raise e, s')
           end.
Definition get {S} : M S S := fun s => (Ok s, s).
Definition put {S} (s : S) : M S unit := fun _ => (Ok tt, s).
Definition lift {S A} (r : result A) : M S A := fun s => (r, s).
Definition assert_ {S} (cond : bool) (a : assertion) : M S unit :=
  fun s => if cond then (Ok tt, s) else (Raise (AssertionError a), s).

(** The builtin [len]: [__len__] must not answer a negative number. *)
Definition len_builtin (n : Z) : result Z :=
  if n <? 0 then Raise ValueError else Ok n.

(** Position denoted by index [i] in a sequence of [n] elements;
    negative indices count from the end. *)
Definition norm_index (n : nat) (i : Z) : option nat :=
  if (0 <=? i) && (i <? Z.of_nat n) then Some (Z.to_nat i)
  else if (- Z.of_nat n <=? i) && (i <? 0) then Some (Z.to_nat (i + Z.of_nat n))
  else None.

(** [t[i]] *)
Definition item_at {A} (t : list A) (i : Z) : result A :=
  match norm_index (length t) i with
  | Some k => match nth_error t k with
              | Some a => Ok a
              | None => Raise IndexError
              end
  | None => Raise IndexError
  end.

(** [t[idxs]] for an index sequence [idxs] (advanced indexing). *)
Fixpoint take {A} (t : list A) (idxs : list Z) : result (list A) :=
  match idxs with
  | [] => Ok []
  | i :: rest =>
      match item_at t i, take t rest with
      | Ok a, Ok l => Ok (a :: l)
      | Raise e, _ => Raise e
      | _, Raise e => Raise e
      end
  end.

Fixpoint set_nth {A} (t : list A) (k : nat) (v : A) : list A :=
  match t, k with
  | [], _ => []
  | _ :: t', O => v :: t'
  | a :: t', S k' => a :: set_nth t' k' v
  end.

(** [t[idxs] = v] *)
Fixpoint index_put {A} (t : list A) (idxs : list Z) (v : A) : result (list A) :=
  match idxs with
  | [] => Ok t
  | i :: rest =>
      match norm_index (length t) i with
      | Some k => index_put (set_nth t k v) rest v
      | None => Raise IndexError
      end
  end.

(** [torch.nonzero(m).flatten()]: the positions holding [True], ascending. *)
Fixpoint nonzero_from (k : Z) (m : list bool) : list Z :=
  match m with
  | [] => []
  | b :: m' => if b then k :: nonzero_from (k + 1) m' else nonzero_from (k + 1) m'
  end.
Definition nonzero (m : list bool) : list Z := nonzero_from 0 m.

(** [torch.arange(n)] and [torch.ones(n, dtype=torch.bool)] *)
Definition arange (n : Z) : list Z := map Z.of_nat (seq 0 (Z.to_nat n)).
Definition ones (n : Z) : list bool := repeat true (Z.to_nat n).

(** [m.all()] and [m.sum()] on a boolean tensor, [~m] *)
Definition all (m : list bool) : bool := forallb (fun b => b) m.
Definition popcount (m : list bool) : Z := Z.of_nat (count_occ bool_dec m true).
Definition invert (m : list bool) : list bool := map negb m.

(** [a[:b]] *)
Definition slice_to {A} (a : list A) (b : Z) : list A :=
  if 0 <=? b then firstn (Z.to_nat b) a
  else firstn (Z.to_nat (Z.of_nat (length a) + b)) a.

End Py.
Import Py.

Declare Scope py_scope.
Delimit Scope py_scope with py.
Notation "x <- c ;; k" := (bind c (fun x => k))
  (at level 61, c at next level, right associativity) : py_scope.
Notation "c ;;; k" := (bind c (fun _ => k))
  (at level 61, right associativity) : py_scope.

(** ** torch.utils.data: the dataset combinators the sources use *)

Module torchdata.
Section Datasets.
Context {item : Type}.

(** A dataset is a finite indexable collection.  [Subset] and
    [ConcatDataset] are views: they keep their arguments and index into
    them on demand. *)
Inductive Dataset : Type :=
| Source (items : list item)
| Subset (dataset : Dataset) (indices : list Z)
| ConcatDataset (first second : Dataset).

(** [__len__] *)
Fixpoint len (d : Dataset) : Z :=
  match d with
  | Source items => Z.of_nat (length items)
  | Subset _ indices => Z.of_nat (length indices)
  | ConcatDataset d1 d2 => len d1 + len d2
  end.

(** [__getitem__] *)
Fixpoint getitem (d : Dataset) (idx : Z) : result item :=
  match d with
  | Source items => item_at items idx
  | Subset dataset indices =>
      rbind (item_at indices idx) (fun k => getitem dataset k)
  | ConcatDataset d1 d2 =>
      let n := len d1 + len d2 in
      if (idx <? 0) && (n <? - idx) then Raise ValueError
      else
        let idx := if idx <? 0 then n + idx else idx in
        if idx <? len d1 then getitem d1 idx
        else if idx <? n then getitem d2 (idx - len d1)
        else Raise IndexError
  end.

End Datasets.
Arguments Dataset : clear implicits.
End torchdata.
Import torchdata.

(** ** alr.data *)

Module UnlabelledDataset.
Section Class.
Context {item feature : Type}.
(** [it[0]]: the first component of a stored item. *)
Variable item0 : item -> feature.

(** [debug] is a [bool], as the docstring of the constructor has it
    ([debug (bool, optional)], [False] when left out). *)
Record t : Type := Build {
  _dataset : Dataset item;
  _label_fn : option (Dataset item -> Dataset item);
  _mask : list bool;
  _len : Z;
  _idx_mask : list Z;
  debug : bool
}.

(** What indexing the pool hands back: the stored item as it is, or
    its component [0]. *)
Inductive indexed : Type :=
| Whole (it : item)
| Component0 (x : feature).

Definition whole (x : indexed) : Prop := exists it, x = Whole it.

Definition is_set {A} (o : option A) : bool :=
  match o with Some _ => true | None => false end.

Definition __init__ (dataset : Dataset item)
    (label_fn : option (Dataset item -> Dataset item)) (debug : bool) : result t :=
  let self := {| _dataset := dataset; _label_fn := label_fn;
                 _mask := ones (len dataset); _len := len dataset;
                 _idx_mask := arange (len dataset); debug := debug |} in
  if debug && is_set label_fn
  then Raise (AssertionError Debug_without_label_fn)
  else Ok self.

Definition with_pool (self : t) (mask : list bool) (idx_mask : list Z) (n : Z) : t :=
  {| _dataset := _dataset self; _label_fn := _label_fn self;
     _mask := mask; _len := n; _idx_mask := idx_mask; debug := debug self |}.

Definition with_debug (self : t) (d : bool) : t :=
  {| _dataset := _dataset self; _label_fn := _label_fn self;
     _mask := _mask self; _len := _len self; _idx_mask := _idx_mask self;
     debug := d |}.

Definition label (idxs : list Z) : M t (Dataset item) :=
  (self <- get ;;
   let local_mask := _idx_mask self in
   pos <- lift (take local_mask idxs) ;;
   bits <- lift (take (_mask self) pos) ;;
   assert_ (all bits) Cant_label ;;;
   assert_ (negb (_len self =? 0)) No_remaining ;;;
   let labelled := Subset (_dataset self) pos in
   let labelled := match _label_fn self with
                   | Some label_fn => label_fn labelled
                   | None => labelled
                   end in
   mask <- lift (index_put (_mask self) pos false) ;;
   put (with_pool self mask (nonzero mask) (_len self - Z.of_nat (length idxs))) ;;;
   ret labelled)%py.

(** The dataset [label] hands back for the absolute positions [pos]. *)
Definition labelled_subset (self : t) (pos : list Z) : Dataset item :=
  match _label_fn self with
  | Some label_fn => label_fn (Subset (_dataset self) pos)
  | None => Subset (_dataset self) pos
  end.

Definition __getitem__ (idx : Z) (self : t) : result indexed :=
  if is_set (_label_fn self) || debug self then
    rbind (item_at (_idx_mask self) idx) (fun k =>
    rbind (getitem (_dataset self) k) (fun it => Ok (Whole it)))
  else
    rbind (item_at (_idx_mask self) idx) (fun k =>
    rbind (getitem (_dataset self) k) (fun it => Ok (Component0 (item0 it)))).

Definition __len__ (self : t) : Z := _len self.

(** The bookkeeping the class maintains: the reported length counts the
    [True] bits of the mask, and the translation lists their positions
    in ascending order. *)
Definition mask_invariant (self : t) : Prop :=
  popcount (_mask self) = __len__ self /\ _idx_mask self = nonzero (_mask self).

(** The mask has one bit per item of the backing dataset. *)
Definition sized (self : t) : Prop :=
  Z.of_nat (length (_mask self)) = len (_dataset self).

Definition convert_idx (idxs : list Z) (self : t) : result (list Z) :=
  take (_idx_mask self) idxs.

Definition labelled_indices (self : t) : list Z := nonzero (invert (_mask self)).

Definition reset : M t unit :=
  (self <- get ;;
   put (with_pool self (ones (len (_dataset self)))
                  (arange (len (_dataset self))) (len (_dataset self))))%py.

(** [true_labels] is a generator-based context manager.  Entering runs
    the generator to its [yield]; the suspended generator remembers
    which of the two [yield]s it stopped at; leaving the [with] block
    normally resumes it from there. *)
Inductive true_labels_frame : Type :=
| Yield_if      (* suspended at the yield of the [if self.debug] branch *)
| Yield_else.   (* suspended at the yield of the [else] branch *)

Definition true_labels_enter (self : t) : true_labels_frame * t :=
  if debug self then (Yield_if, self)
  else (Yield_else, with_debug self true).

Definition true_labels_exit (fr : true_labels_frame) (self : t) : t :=
  match fr with
  | Yield_if => self
  | Yield_else => with_debug self false
  end.

(** Client code around a pool: the statements the experiment scripts
    run on it, with [with pool.true_labels(): ...] blocks nested at will.
    An exception raised in a block leaves through every enclosing
    [with]; the generator has no [finally], so nothing runs on the way
    out. *)
Inductive stmt : Type :=
| Pass
| Index (idx : Z)                 (* pool[idx]; the value is recorded *)
| Label (idxs : list Z)           (* pool.label(idxs) *)
| Reset                           (* pool.reset() *)
| Seq (s1 s2 : stmt)
| With_true_labels (body : stmt). (* with pool.true_labels(): body *)

Fixpoint exec (s : stmt) : M t (list indexed) :=
  match s with
  | Pass => ret []
  | Index idx => (self <- get ;; x <- lift (__getitem__ idx self) ;; ret [x])%py
  | Label idxs => (label idxs ;;; ret [])%py
  | Reset => (reset ;;; ret [])%py
  | Seq s1 s2 => (l1 <- exec s1 ;; l2 <- exec s2 ;; ret (l1 ++ l2))%py
  | With_true_labels body =>
      fun self =>
        let (fr, inside) := true_labels_enter self in
        match exec body inside with
        | (Ok l, after) => (Ok l, true_labels_exit fr after)
        | (Raise e, after) => (Raise e, after)
        end
  end.

End Class.
Arguments t : clear implicits.
Arguments indexed : clear implicits.
Arguments stmt : clear implicits.
End UnlabelledDataset.

(** An acquisition function is a callable object: it reads the pool it is
    given and the batch size, may update attributes of its own (of type
    [A]: recent scores, a random generator), and answers an index array or
    raises. *)
Definition AcquisitionFunction (item A : Type) : Type :=
  A -> UnlabelledDataset.t item -> Z -> result (list Z) * A.

Module DataManager.
Section Class.
Context {item A : Type}.
Local Abbreviation pool := (UnlabelledDataset.t item) (only parsing).

Record t : Type := Build {
  _old_labelled : Dataset item;
  _labelled : Dataset item;
  _unlabelled : pool;
  _a_fn : AcquisitionFunction item A;
  a_fn_attrs : A    (* the attributes of the [_a_fn] object *)
}.

Definition __init__ (labelled : Dataset item) (unlabelled : pool)
    (acquisition_fn : AcquisitionFunction item A) (attrs : A) : t :=
  {| _old_labelled := labelled; _labelled := labelled;
     _unlabelled := unlabelled; _a_fn := acquisition_fn; a_fn_attrs := attrs |}.

Definition n_labelled (self : t) : result Z := len_builtin (len (_labelled self)).
Definition n_unlabelled (self : t) : result Z :=
  len_builtin (UnlabelledDataset.__len__ (_unlabelled self)).
Definition labelled (self : t) : Dataset item := _labelled self.
Definition unlabelled (self : t) : pool := _unlabelled self.

Definition with_unlabelled (self : t) (u : pool) : t :=
  {| _old_labelled := _old_labelled self; _labelled := _labelled self;
     _unlabelled := u; _a_fn := _a_fn self; a_fn_attrs := a_fn_attrs self |}.
Definition with_labelled (self : t) (l : Dataset item) : t :=
  {| _old_labelled := _old_labelled self; _labelled := l;
     _unlabelled := _unlabelled self; _a_fn := _a_fn self;
     a_fn_attrs := a_fn_attrs self |}.
Definition with_attrs (self : t) (a : A) : t :=
  {| _old_labelled := _old_labelled self; _labelled := _labelled self;
     _unlabelled := _unlabelled self; _a_fn := _a_fn self; a_fn_attrs := a |}.

(** Run a method of the pool object held in [_unlabelled]. *)
Definition on_unlabelled {B} (c : M pool B) : M t B :=
  fun self => let (r, u) := c (_unlabelled self) in (r, with_unlabelled self u).

(** Call [self._a_fn(view, b)]. *)
Definition call_a_fn (view : pool) (b : Z) : M t (list Z) :=
  fun self => let (r, a) := _a_fn self (a_fn_attrs self) view b in
              (r, with_attrs self a).

Definition append_to_labelled (dataset : Dataset item) : M t unit :=
  (self <- get ;;
   put (with_labelled self (ConcatDataset (_labelled self) dataset)))%py.

(** The pool view handed to the acquisition function. *)
Definition view_of (transform : option (pool -> pool)) (self : t) : pool :=
  match transform with
  | None => _unlabelled self
  | Some transform => transform (_unlabelled self)
  end.

Definition acquire (b : Z) (transform : option (pool -> pool))
  : M t (list Z * Dataset item) :=
  (self <- get ;;
   n <- lift (n_unlabelled self) ;;
   assert_ (b <=? n) Pool_size ;;;
   idxs <- match transform with
           | None => call_a_fn (_unlabelled self) b
           | Some transform => call_a_fn (transform (_unlabelled self)) b
           end ;;
   assert_ (Z.of_nat (length idxs) =? b) Shape ;;;
   true_idxs <- lift (UnlabelledDataset.convert_idx idxs (_unlabelled self)) ;;
   labelled <- on_unlabelled (UnlabelledDataset.label idxs) ;;
   append_to_labelled labelled ;;;
   ret (true_idxs, labelled))%py.

Definition reset : M t unit :=
  (on_unlabelled UnlabelledDataset.reset ;;;
   self <- get ;;
   put (with_labelled self (_old_labelled self)))%py.

(** The bookkeeping of a manager built over a pool of [dataset] with the
    labelled set [baseline]: what left the pool is in the labelled
    collection. *)
Definition conserved (dataset baseline : Dataset item)
    (label_fn : option (Dataset item -> Dataset item)) (self : t) : Prop :=
  UnlabelledDataset._dataset (_unlabelled self) = dataset /\
  UnlabelledDataset._label_fn (_unlabelled self) = label_fn /\
  0 <= UnlabelledDataset._len (_unlabelled self) /\
  len (_labelled self) - len baseline + UnlabelledDataset._len (_unlabelled self)
  = len dataset.

(** [acquired dm0 dm]: the manager [dm] is what [dm0] has become after
    some sequence of calls of [acquire] that all returned. *)
Inductive acquired (dm0 : t) : t -> Prop :=
| acquired_nil : acquired dm0 dm0
| acquired_step dm b transform r dm' :
    acquired dm0 dm ->
    acquire b transform dm = (Ok r, dm') ->
    acquired dm0 dm'.

End Class.
Arguments t : clear implicits.
End DataManager.

(** ** alr.training.pseudo_label_trainer: Annealer *)

Module Annealer.

Record t : Type := Build {
  _step : Z;
  _T1 : Z;
  _T2 : Z;
  _alpha : Q
}.

(** [None] stands for an argument left out of the call; the defaults are
    [step=0, T1=100, T2=700, alpha=3.0]. *)
Definition __init__ (step T1 T2 : option Z) (alpha : option Q) : t :=
  {| _step := match step with Some s => s | None => 0 end;
     _T1 := match T1 with Some v => v | None => 100 end;
     _T2 := match T2 with Some v => v | None => 700 end;
     _alpha := match alpha with Some a => a | None => 3 # 1 end |}.

Definition step (self : t) : t :=
  {| _step := _step self + 1; _T1 := _T1 self; _T2 := _T2 self;
     _alpha := _alpha self |}.

(** [/] on Python integers: true division, raising on a zero divisor. *)
Definition truediv (a b : Z) : result Q :=
  if b =? 0 then Raise ZeroDivisionError
  else Ok (inject_Z a / inject_Z b)%Q.

Definition weight (self : t) : result Q :=
  if _step self <? _T1 self then Ok 0%Q
  else if _step self >? _T2 self then Ok (_alpha self)
  else rbind (truediv (_step self - _T1 self) (_T2 self - _T1 self))
             (fun r => Ok (r * _alpha self)%Q).

(** The annealer after [n] calls of [step()]. *)
Fixpoint steps (n : nat) (self : t) : t :=
  match n with
  | O => self
  | S n' => steps n' (step self)
  end.

End Annealer.

(** ** The max-entropy acquisition function *)

Module MaxEnt.
Section Class.
Context {item feature F : Type}.
Variable item0 : item -> feature.

(** Elementwise float arithmetic of the tensor library, its finiteness
    test, and its [argsort(..., descending=True)]. *)
Variables (fexp fneg : F -> F) (fmul fadd : F -> F -> F) (fzero : F).
Variable isfinite : F -> bool.
Variable argsort_descending : list F -> list Z.

Local Abbreviation pool := (UnlabelledDataset.t item) (only parsing).
Local Abbreviation batch := (list (UnlabelledDataset.indexed item feature)) (only parsing).

(** A float tensor of two dimensions, [N x C], as [_pred_fn] answers it:
    its rows, and its number of columns [C], which a tensor has even
    when it has no row. *)
Record tensor2 : Type := Tensor2 {
  ncols : nat;
  rows : list (list F)
}.

(** [x.shape[0]] *)
Definition shape0 (x : tensor2) : Z := Z.of_nat (length (rows x)).

(** Every row of a tensor has its number of columns; a value for which
    this fails stands for no tensor. *)
Definition rectangular (x : tensor2) : bool :=
  forallb (fun r => (length r =? ncols x)%nat) (rows x).

(** The keyword arguments of [DataLoader] kept in [_dl_params] that
    decide which batches the loader yields ([num_workers], [pin_memory]
    and the like change how a batch is fetched, not what it holds).
    [shuffle] is not among them: the constructor asserts that it is off.
    A sampler and a batch sampler are given by the indices, or batches
    of indices, they yield. *)
Record dl_params : Type := Dl_params {
  batch_size : Z;                              (* default 1 *)
  drop_last : bool;                            (* default False *)
  sampler : option (list Z);                   (* default None *)
  batch_sampler : option (list (list Z));      (* default None *)
  collate_fn : option (batch -> result batch)  (* default None: the samples are stacked *)
}.

Record t : Type := Build {
  _pred_fn : batch -> result tensor2;          (* log-probabilities, a row per item *)
  _device : option (batch -> result batch);    (* a device, by what [x.to(device)] answers *)
  _dl_params : dl_params;
  recent_score : option (list F)
}.

(** [MaxEnt(pred_fn, device, **data_loader_params)]; [shuffle] is
    [data_loader_params.get("shuffle", False)]. *)
Definition __init__ (pred_fn : batch -> result tensor2)
    (device : option (batch -> result batch)) (shuffle : bool)
    (data_loader_params : dl_params) : result t :=
  if shuffle then Raise (AssertionError No_shuffle)
  else Ok {| _pred_fn := pred_fn; _device := device;
             _dl_params := data_loader_params; recent_score := None |}.

Definition with_recent_score (self : t) (s : list F) : t :=
  {| _pred_fn := _pred_fn self; _device := _device self;
     _dl_params := _dl_params self; recent_score := Some s |}.

Fixpoint chunks_fuel {B} (fuel k : nat) (l : list B) : list (list B) :=
  match fuel with
  | O => []
  | S fuel' =>
      match l with
      | [] => []
      | _ :: _ => firstn k l :: chunks_fuel fuel' k (skipn k l)
      end
  end.
(** Consecutive batches of [k] elements, the last one possibly shorter. *)
Definition chunks {B} (k : nat) (l : list B) : list (list B) :=
  chunks_fuel (length l) k l.

Fixpoint mapM {B C} (f : B -> result C) (l : list B) : result (list C) :=
  match l with
  | [] => Ok []
  | x :: l' => rbind (f x) (fun y => rbind (mapM f l') (fun ys => Ok (y :: ys)))
  end.

(** [torch.cat] along dimension 0: an empty list of tensors is an error,
    and so are tensors that differ in their number of columns. *)
Definition cat (l : list tensor2) : result tensor2 :=
  match l with
  | [] => Raise RuntimeError
  | x :: _ =>
      if forallb (fun y => rectangular y && (ncols y =? ncols x)%nat) l
      then Ok {| ncols := ncols x; rows := concat (map rows l) |}
      else Raise RuntimeError
  end.

(** The batches of indices [DataLoader(X_pool, **params)] goes through,
    for a dataset of [n] items.  A batch sampler excludes the other
    batching arguments; without one, the indices of the sampler -- by
    default [range(n)] -- are cut into batches of [batch_size], and a
    short last batch is dropped when [drop_last] is set. *)
Definition index_batches (params : dl_params) (n : Z) : result (list (list Z)) :=
  match batch_sampler params with
  | Some batches =>
      if negb (batch_size params =? 1)
         || UnlabelledDataset.is_set (sampler params) || drop_last params
      then Raise ValueError
      else Ok batches
  | None =>
      if batch_size params <=? 0 then Raise ValueError
      else
        let indices := match sampler params with
                       | Some s => s
                       | None => arange n
                       end in
        let k := Z.to_nat (batch_size params) in
        Ok (if drop_last params
            then filter (fun c => (length c =? k)%nat) (chunks k indices)
            else chunks k indices)
  end.

(** The default [collate_fn] stacks the samples of a batch, which are of
    one shape; it reads the first to tell how, and raises on an empty
    batch. *)
Definition default_collate (samples : batch) : result batch :=
  match samples with
  | [] => Raise IndexError
  | _ :: _ => Ok samples
  end.

(** [[self._pred_fn(x.to(self._device) if self._device else x) for x in dl]]:
    the batches are fetched, collated, moved and predicted one after
    the other. *)
Definition predict (self : t) (X_pool : pool) (pool_size : Z)
  : result (list tensor2) :=
  rbind (index_batches (_dl_params self) pool_size) (fun batches =>
    mapM (fun ids =>
            rbind (mapM (fun i => UnlabelledDataset.__getitem__ item0 i X_pool) ids)
                  (fun samples =>
            rbind (match collate_fn (_dl_params self) with
                   | Some collate => collate samples
                   | None => default_collate samples
                   end) (fun x =>
            rbind (match _device self with
                   | Some to_device => to_device x
                   | None => Ok x
                   end) (_pred_fn self))))
         batches).

(** [-(row.exp() * row).sum()] *)
Definition row_entropy (row : list F) : F :=
  fneg (fold_left fadd (map (fun p => fmul (fexp p) p) row) fzero).

Definition __call__ (X_pool : pool) (b : Z) : M t (list Z) :=
  (self <- get ;;
   pool_size <- lift (len_builtin (UnlabelledDataset.__len__ X_pool)) ;;
   batches <- lift (predict self X_pool pool_size) ;;
   preds_N_C <- lift (cat batches) ;;
   assert_ (shape0 preds_N_C =? pool_size) Preds_rows ;;;
   let entropy := map row_entropy (rows preds_N_C) in
   assert_ (forallb isfinite entropy) Finite_entropy ;;;
   assert_ (Z.of_nat (length entropy) =? pool_size) Entropy_shape ;;;
   let result := argsort_descending entropy in
   put (with_recent_score self entropy) ;;;
   ret (slice_to result b))%py.

(** What [torch.argsort(scores, descending=True)] answers, for an order
    [fle] on the scores: a permutation of the positions of [scores] along
    which the scores never increase. *)
Definition argsort_contract (fle : F -> F -> bool) (scores : list F)
    (perm : list Z) : Prop :=
  Permutation perm (arange (Z.of_nat (length scores))) /\
  exists sorted,
    take scores perm = Ok sorted /\
    StronglySorted (fun x y => fle y x = true) sorted.

(** A reference [argsort(..., descending=True)]: the positions are
    inserted one by one, each in front of the first score that is not
    above its own; equal scores keep their pool order. *)
Fixpoint insert_desc (fle : F -> F -> bool) (p : Z * F) (l : list (Z * F))
  : list (Z * F) :=
  match l with
  | [] => [p]
  | q :: l' =>
      if fle (snd q) (snd p) then p :: q :: l'
      else q :: insert_desc fle p l'
  end.

Definition enumerate (scores : list F) : list (Z * F) :=
  combine (arange (Z.of_nat (length scores))) scores.

Definition argsort_reference (fle : F -> F -> bool) (scores : list F) : list Z :=
  map fst (fold_right (insert_desc fle) [] (enumerate scores)).

(** The object as the [acquisition_fn] of a [DataManager]. *)
Definition as_acquisition_fn : AcquisitionFunction item t :=
  fun self X_pool b => __call__ X_pool b self.

End Class.
Arguments t : clear implicits.
Arguments tensor2 : clear implicits.
Arguments dl_params : clear implicits.
End MaxEnt.

Module UD := UnlabelledDataset.
Module DM := DataManager.

(** ** Concrete pools, managers and schedules used to run the model *)

Module Examples.

(** Items are pairs (feature, class). *)
Definition sample : Type := (Z * Z)%type.

Definition pool3_data : Dataset sample := Source [(10, 0); (20, 1); (30, 0)].

(** [UnlabelledDataset(pool3_data)]: a self-labelled pool, debug off. *)
Definition pool3 : UD.t sample :=
  {| UD._dataset := pool3_data; UD._label_fn := None;
     UD._mask := [true; true; true]; UD._len := 3;
     UD._idx_mask := [0; 1; 2]; UD.debug := false |}.

(** The same pool with a labelling function that keeps every item. *)
Definition oracle (d : Dataset sample) : Dataset sample := d.
Definition pool3_oracle : UD.t sample :=
  {| UD._dataset := pool3_data; UD._label_fn := Some oracle;
     UD._mask := [true; true; true]; UD._len := 3;
     UD._idx_mask := [0; 1; 2]; UD.debug := false |}.

(** An acquisition function that picks the first [b] logical indices. *)
Definition first_b : AcquisitionFunction sample unit :=
  fun attrs _ b => (Ok (arange b), attrs).

(** An acquisition function that answers logical index [0], [b] times. *)
Definition always_zero : AcquisitionFunction sample unit :=
  fun attrs _ b => (Ok (repeat 0 (Z.to_nat b)), attrs).

(** A shallow copy of [pool3] taken before [pool3.label([0])] ran: the
    mask tensor is shared with the original and has lost bit 0; the
    translation and the length are the ones copied. *)
Definition stale_copy : UD.t sample :=
  {| UD._dataset := pool3_data; UD._label_fn := None;
     UD._mask := [false; true; true]; UD._len := 3;
     UD._idx_mask := [0; 1; 2]; UD.debug := false |}.

(** [UnlabelledDataset(Source [])]: a pool with nothing in it. *)
Definition pool0 : UD.t sample :=
  {| UD._dataset := Source []; UD._label_fn := None;
     UD._mask := []; UD._len := 0; UD._idx_mask := []; UD.debug := false |}.

Definition baseline1 : Dataset sample := Source [(5, 1)].

(** An exact arithmetic to run [MaxEnt] with: rationals, and [None] for a
    value that is not finite.  Log-probabilities are to base 2 and
    integral, so that [exp] is exact. *)
Definition num : Type := option Q.
Definition num_lift (f : Q -> Q) (x : num) : num :=
  match x with Some a => Some (f a) | None => None end.
Definition num_lift2 (f : Q -> Q -> Q) (x y : num) : num :=
  match x, y with Some a, Some b => Some (f a b) | _, _ => None end.
Definition num_exp : num -> num := num_lift (fun a => Qpower (2 # 1) (Qfloor a)).
Definition num_neg : num -> num := num_lift Qopp.
Definition num_mul : num -> num -> num := num_lift2 Qmult.
Definition num_add : num -> num -> num := num_lift2 Qplus.
Definition num_zero : num := Some 0%Q.
Definition num_isfinite (x : num) : bool :=
  match x with Some _ => true | None => false end.
Definition num_le (x y : num) : bool :=
  match x, y with Some a, Some b => Qle_bool a b | _, _ => false end.

Definition logp (z : Z) : num := Some (inject_Z z).

(** A classifier over four classes: log-probabilities by feature. *)
Definition classify (x : UD.indexed sample Z) : list num :=
  match x with
  | UD.Component0 20 | UD.Whole (20, _) => map logp [-2; -2; -2; -2]
  | UD.Component0 10 | UD.Whole (10, _) => map logp [-1; -2; -3; -3]
  | _ => map logp [-3; -1; -3; -2]
  end.

(** The same classifier, giving the item with feature 30 a
    log-probability that is not finite. *)
Definition classify_overflow (x : UD.indexed sample Z) : list num :=
  match x with
  | UD.Component0 30 | UD.Whole (30, _) => [None; logp (-1); logp (-2); logp (-2)]
  | _ => classify x
  end.

(** [batch_size=2], every other argument of the loader left out. *)
Definition batches_of_two : MaxEnt.dl_params sample Z :=
  {| MaxEnt.batch_size := 2; MaxEnt.drop_last := false;
     MaxEnt.sampler := None; MaxEnt.batch_sampler := None;
     MaxEnt.collate_fn := None |}.

(** [MaxEnt(pred_fn, batch_size=2)] for the classifier [row_of], which
    answers four columns. *)
Definition maxent (row_of : UD.indexed sample Z -> list num) : MaxEnt.t sample Z num :=
  {| MaxEnt._pred_fn := fun batch => Ok (MaxEnt.Tensor2 4 (map row_of batch));
     MaxEnt._device := None;
     MaxEnt._dl_params := batches_of_two;
     MaxEnt.recent_score := None |}.

Definition maxent_call :=
  MaxEnt.__call__ (item := sample) fst num_exp num_neg num_mul num_add num_zero
    num_isfinite (MaxEnt.argsort_reference num_le).

(** [Annealer(step=t, T1=0, T2=700, alpha=3.0)] *)
Definition schedule (t : Z) : Annealer.t :=
  Annealer.__init__ (Some t) (Some 0) (Some 700) (Some (3 # 1)).

(** [Annealer(step=0, T1=0, T2=10, alpha=-1.0)] *)
Definition falling : Annealer.t :=
  Annealer.__init__ (Some 0) (Some 0) (Some 10) (Some (-1 # 1)).

Definition manager (a_fn : AcquisitionFunction sample unit) (u : UD.t sample)
  : DM.t sample unit := DM.__init__ baseline1 u a_fn tt.

End Examples.

(** ** Further exceptions of the sources

    The exceptions of the code below that [Py.exn] has no constructor
    for are told apart by the code of [External]. *)

Module PyMore.

Definition AttributeError : exn := External 1.
Definition KeyError : exn := External 2.
Definition StopIteration : exn := External 3.
(** [assert len(labels) == len(dataset)] and its like *)
Definition AssertionError_lengths : exn := External 4.

(** A Python [dict] with integer keys and values, in insertion order. *)
Fixpoint dict_get (d : list (Z * Z)) (k : Z) : option Z :=
  match d with
  | [] => None
  | (k', v) :: d' => if k' =? k then Some v else dict_get d' k
  end.

(** [d[k] = v] *)
Fixpoint dict_set (d : list (Z * Z)) (k v : Z) : list (Z * Z) :=
  match d with
  | [] => [(k, v)]
  | (k', v') :: d' =>
      if k' =? k then (k, v) :: d' else (k', v') :: dict_set d' k v
  end.

(** [{c: n for c in classes}] *)
Definition dict_fromkeys (classes : list Z) (n : Z) : list (Z * Z) :=
  fold_left (fun d c => dict_set d c n) classes [].

(** [x in s] for a collection of integers *)
Definition contains (s : list Z) (x : Z) : bool := existsb (Z.eqb x) s.

End PyMore.
Import PyMore.

(** ** alr.data: the read-only queries and the relabelling wrappers *)

Module PoolQueries.
Section Queries.
Context {item class : Type}.
(** [it[1]]: the label of a stored item. *)
Variable item1 : item -> class.

(** [labelled_classes]: whether the warning was issued, and the answer. *)
Definition labelled_classes (self : UD.t item) : bool * result (list class) :=
  (UD.is_set (UD._label_fn self),
   MaxEnt.mapM
     (fun i => rbind (getitem (UD._dataset self) i) (fun it => Ok (item1 it)))
     (UD.labelled_indices self)).

End Queries.
End PoolQueries.

Module PseudoLabelDataset.
Section Class.
Context {item label : Type}.

Record t : Type := Build {
  _dataset : Dataset item;
  _labels : list label
}.

Definition __init__ (dataset : Dataset item) (pseudo_labels : list label) : result t :=
  if Z.of_nat (length pseudo_labels) =? len dataset
  then Ok {| _dataset := dataset; _labels := pseudo_labels |}
  else Raise AssertionError_lengths.

Definition __len__ (self : t) : Z := len (_dataset self).

Definition __getitem__ (idx : Z) (self : t) : result (item * label) :=
  rbind (getitem (_dataset self) idx) (fun x =>
  rbind (item_at (_labels self) idx) (fun y => Ok (x, y))).

End Class.
Arguments t : clear implicits.
End PseudoLabelDataset.

Module RelabelDataset.
Section Class.
Context {item feature label : Type}.
Variable item0 : item -> feature.

Record t : Type := Build {
  _dataset : Dataset item;
  _labels : list label
}.

Definition __init__ (dataset : Dataset item) (labels : list label) : result t :=
  if Z.of_nat (length labels) =? len dataset
  then Ok {| _dataset := dataset; _labels := labels |}
  else Raise AssertionError_lengths.

Definition __len__ (self : t) : Z := len (_dataset self).

Definition __getitem__ (idx : Z) (self : t) : result (feature * label) :=
  rbind (getitem (_dataset self) idx) (fun x =>
  rbind (item_at (_labels self) idx) (fun y => Ok (item0 x, y))).

End Class.
Arguments t : clear implicits.
End RelabelDataset.

(** [[ds[i] for i in range(len(ds))]]: a dataset read from front to back. *)
Definition read_all {B} (n : Z) (get : Z -> result B) : result (list B) :=
  MaxEnt.mapM get (arange n).

(** ** experiments: [remove_pseudo_labels] *)

Module PseudoLabels.
Section Remove.
Context {item label : Type}.

(** The loop over [enumerate(ds._dataset.indices)]: the indices kept and
    their positions. *)
Fixpoint keep (idxs_to_remove : list Z) (i : Z) (indices : list Z)
  : list Z * list Z :=
  match indices with
  | [] => ([], [])
  | idx :: rest =>
      let (new_indices, mask) := keep idxs_to_remove (i + 1) rest in
      if negb (contains idxs_to_remove idx)
      then (idx :: new_indices, i :: mask)
      else (new_indices, mask)
  end.

(** The function mutates the object it is given: first the indices of
    the wrapped [Subset], then the labels; the assertion comes last.
    Both wrappers of [alr.data] have the two attributes it touches; the
    model takes a [PseudoLabelDataset]. *)
Definition remove_pseudo_labels (idxs_to_remove : list Z)
  : M (option (PseudoLabelDataset.t item label)) unit :=
  fun ds =>
    match ds with
    | None => (Ok tt, None)
    | Some obj =>
        match PseudoLabelDataset._dataset obj with
        | Subset base indices =>
            let (new_indices, mask) := keep idxs_to_remove 0 indices in
            let obj1 := {| PseudoLabelDataset._dataset := Subset base new_indices;
                           PseudoLabelDataset._labels := PseudoLabelDataset._labels obj |} in
            match take (PseudoLabelDataset._labels obj) mask with
            | Raise e => (Raise e, Some obj1)
            | Ok new_labels =>
                let obj2 := {| PseudoLabelDataset._dataset := Subset base new_indices;
                               PseudoLabelDataset._labels := new_labels |} in
                if Z.of_nat (length new_labels) =? PseudoLabelDataset.__len__ obj2
                then (Ok tt, Some obj2)
                else (Raise AssertionError_lengths, Some obj2)
            end
        | _ => (Raise AttributeError, ds)
        end
    end.

End Remove.
End PseudoLabels.

(** ** alr.training.pseudo_label_trainer: WraparoundLoader *)

Module WraparoundLoader.
Section Class.
Context {B : Type}.

(** The wrapped loader is known by what iterating it yields: [_ds k] is
    the sequence of batches of the [k]-th iterator made of it (a loader
    that shuffles yields another order each time). *)
Record t : Type := Build {
  _ds : nat -> list B;
  iters_made : nat;
  _iter : list B      (* what the current iterator has left *)
}.

Definition __init__ (ds : nat -> list B) : t :=
  {| _ds := ds; iters_made := 1; _iter := ds O |}.

Definition __next__ : M t B :=
  fun self =>
    match _iter self with
    | x :: rest =>
        (Ok x, {| _ds := _ds self; iters_made := iters_made self; _iter := rest |})
    | [] =>
        match _ds self (iters_made self) with
        | x :: rest =>
            (Ok x, {| _ds := _ds self; iters_made := S (iters_made self);
                      _iter := rest |})
        | [] =>
            (Raise StopIteration,
             {| _ds := _ds self; iters_made := S (iters_made self); _iter := [] |})
        end
    end.

(** [m] calls of [next], collecting what they return. *)
Fixpoint draw (m : nat) : M t (list B) :=
  match m with
  | O => ret []
  | S m' => (x <- __next__ ;; xs <- draw m' ;; ret (x :: xs))%py
  end.

End Class.
Arguments t : clear implicits.
End WraparoundLoader.

(** ** experiments: building an imbalanced pool *)

Module Imbalanced.
Section Pools.
Context {item : Type}.
(** [it[1]]: the class of a stored item. *)
Variable item1 : item -> Z.

(** The permutation only goes through indices the dataset can be read
    at; [cls] names the class stored at each. *)
Definition readable (dataset : Dataset item) (cls : Z -> Z) (perm : list Z) : Prop :=
  forall i, In i perm -> exists it, getitem dataset i = Ok it /\ item1 it = cls i.

(** How many indices of [l] hold class [c]. *)
Definition count_cls (cls : Z -> Z) (c : Z) (l : list Z) : Z :=
  Z.of_nat (length (filter (fun i => cls i =? c) l)).

(** [make_imbalanced_pool], for the permutation [perm] drawn by
    [np.random.permutation(len(dataset))]. *)
Fixpoint imbalanced_loop (dataset : Dataset item) (perm : list Z)
    (idxs : list Z) (count : list (Z * Z)) : result (list Z) :=
  match perm with
  | [] => Ok idxs
  | idx :: rest =>
      rbind (getitem dataset idx) (fun it =>
        let y := item1 it in
        match dict_get count y with
        | Some c =>
            if c >? 0
            then imbalanced_loop dataset rest (idxs ++ [idx]) (dict_set count y (c - 1))
            else imbalanced_loop dataset rest idxs count
        | None => imbalanced_loop dataset rest (idxs ++ [idx]) count
        end)
  end.

Definition make_imbalanced_pool (dataset : Dataset item) (classes : list Z) (n : Z)
    (perm : list Z) : result (Dataset item) :=
  rbind (imbalanced_loop dataset perm [] (dict_fromkeys classes n))
        (fun idxs => Ok (Subset dataset idxs)).

(** [uneven_split]: the loop, with its [break]. *)
Fixpoint uneven_loop (dataset : Dataset item) (perm : list Z)
    (idxs : list Z) (count : list (Z * Z)) : result (list Z) :=
  match perm with
  | [] => Ok idxs
  | idx :: rest =>
      if forallb (fun kv => snd kv =? 0) count then Ok idxs
      else
        rbind (getitem dataset idx) (fun it =>
          let y := item1 it in
          match dict_get count y with
          | None => Raise KeyError
          | Some c =>
              if c =? 0 then uneven_loop dataset rest idxs count
              else uneven_loop dataset rest (idxs ++ [idx]) (dict_set count y (c - 1))
          end)
  end.

(** [list(s)] for a Python set [s] of integers: the members in the
    order the implementation iterates them.  [set_order] is given the
    members in ascending order. *)
Variable set_order : list Z -> list Z.

Definition uneven_split (dataset : Dataset item) (mapping : list (Z * Z))
    (perm : list Z) : result (Dataset item * Dataset item) :=
  rbind (uneven_loop dataset perm [] mapping) (fun idxs =>
    Ok (Subset dataset idxs,
        Subset dataset
          (set_order (filter (fun i => negb (contains idxs i)) (arange (len dataset)))))).

End Pools.
End Imbalanced.

(** [subseq kept l]: [kept] is [l] with some elements left out, the
    others in their order. *)
Inductive subseq {B : Type} : list B -> list B -> Prop :=
| subseq_nil : subseq [] []
| subseq_keep x kept l : subseq kept l -> subseq (x :: kept) (x :: l)
| subseq_drop x kept l : subseq kept l -> subseq kept (x :: l).

(** [acquired_plain dm0 dm]: as [DataManager.acquired], for calls
    [dm.acquire(b)] that pass no transform, as the experiment loops
    make them. *)
Inductive acquired_plain {item A : Type} (dm0 : DM.t item A) : DM.t item A -> Prop :=
| acquired_plain_nil : acquired_plain dm0 dm0
| acquired_plain_step dm b r dm' :
    acquired_plain dm0 dm ->
    DM.acquire b None dm = (Ok r, dm') ->
    acquired_plain dm0 dm'.

(** An acquisition function that only ever answers pairwise distinct
    indices of the view it is given. *)
Definition answers_distinct_indices {item A : Type}
    (a_fn : AcquisitionFunction item A) : Prop :=
  forall attrs X_pool b idxs attrs',
    a_fn attrs X_pool b = (Ok idxs, attrs') ->
    NoDup idxs /\ Forall (fun i => 0 <= i < UD.__len__ X_pool) idxs.

Module MoreExamples.

(** An acquisition function that picks the first [b] logical indices of
    the view, or all of them if it holds fewer. *)
Definition first_in_pool : AcquisitionFunction Examples.sample unit :=
  fun attrs X_pool b => (Ok (arange (Z.min b (UD.__len__ X_pool))), attrs).

End MoreExamples.

(** * Proofs *)

(** ** The indexing primitives *)

Lemma len_builtin_Ok n m : len_builtin n = Ok m -> m = n /\ 0 <= n.
Proof.
  unfold len_builtin. destruct (n <? 0) eqn:E; intros H; inversion H.
  apply Z.ltb_ge in E. subst. split; [reflexivity | exact E].
Qed.

Lemma len_builtin_nonneg n : 0 <= n -> len_builtin n = Ok n.
Proof.
  intros H. unfold len_builtin. destruct (n <? 0) eqn:E; [|reflexivity].
  apply Z.ltb_lt in E. lia.
Qed.

Section IndexFacts.
Context {A : Type}.
Implicit Types (t : list A) (idxs : list Z).

Lemma norm_index_lt n i k : norm_index n i = Some k -> (k < n)%nat.
Proof.
  unfold norm_index.
  destruct ((0 <=? i) && (i <? Z.of_nat n)) eqn:E1.
  - intros H. inversion H. subst k. apply andb_prop in E1 as [H1 H2].
    apply Z.leb_le in H1. apply Z.ltb_lt in H2. lia.
  - destruct ((- Z.of_nat n <=? i) && (i <? 0)) eqn:E2; [|discriminate].
    intros H. inversion H. subst k. apply andb_prop in E2 as [H1 H2].
    apply Z.leb_le in H1. apply Z.ltb_lt in H2. lia.
Qed.

Lemma norm_index_nonneg n i :
  0 <= i < Z.of_nat n -> norm_index n i = Some (Z.to_nat i).
Proof.
  intros H. unfold norm_index.
  replace ((0 <=? i) && (i <? Z.of_nat n)) with true; [reflexivity|].
  symmetry. apply andb_true_intro. split; [apply Z.leb_le | apply Z.ltb_lt]; lia.
Qed.

Lemma norm_index_None n i :
  norm_index n i = None <-> (i < - Z.of_nat n \/ Z.of_nat n <= i).
Proof.
  unfold norm_index.
  destruct (0 <=? i) eqn:E1, (i <? Z.of_nat n) eqn:E2,
           (- Z.of_nat n <=? i) eqn:E3, (i <? 0) eqn:E4; simpl;
    try apply Z.leb_le in E1; try apply Z.leb_gt in E1;
    try apply Z.ltb_lt in E2; try apply Z.ltb_ge in E2;
    try apply Z.leb_le in E3; try apply Z.leb_gt in E3;
    try apply Z.ltb_lt in E4; try apply Z.ltb_ge in E4;
    split; intros H; first [discriminate | reflexivity | lia | exfalso; lia].
Qed.

Lemma item_at_Ok t i a :
  item_at t i = Ok a <->
  exists k, norm_index (length t) i = Some k /\ nth_error t k = Some a.
Proof.
  unfold item_at. split.
  - destruct (norm_index (length t) i) as [k|]; [|discriminate].
    destruct (nth_error t k) as [x|] eqn:E; [|discriminate].
    intros H. inversion H. subst. exists k. split; [reflexivity | exact E].
  - intros (k & -> & ->). reflexivity.
Qed.

Lemma item_at_Raise t i e :
  item_at t i = Raise e -> e = IndexError /\ norm_index (length t) i = None.
Proof.
  unfold item_at. destruct (norm_index (length t) i) as [k|] eqn:E.
  - destruct (nth_error t k) eqn:E'; [discriminate|].
    apply norm_index_lt in E. apply nth_error_None in E'. lia.
  - intros H. inversion H. split; reflexivity.
Qed.

Lemma item_at_nonneg t i :
  0 <= i < Z.of_nat (length t) -> item_at t i = Raise IndexError -> False.
Proof.
  intros H. unfold item_at. rewrite norm_index_nonneg by exact H.
  destruct (nth_error t (Z.to_nat i)) eqn:E; [discriminate|].
  apply nth_error_None in E. lia.
Qed.

Lemma item_at_In t i a : item_at t i = Ok a -> In a t.
Proof.
  intros H. apply item_at_Ok in H as (k & _ & H). eapply nth_error_In, H.
Qed.

Lemma take_cons_Ok t i idxs l :
  take t (i :: idxs) = Ok l <->
  exists a l', item_at t i = Ok a /\ take t idxs = Ok l' /\ l = a :: l'.
Proof.
  simpl. split.
  - destruct (item_at t i) as [a|e]; [|discriminate].
    destruct (take t idxs) as [l'|e]; [|discriminate].
    intros H. inversion H. eauto.
  - intros (a & l' & -> & -> & ->). reflexivity.
Qed.

Lemma take_length t idxs l : take t idxs = Ok l -> length l = length idxs.
Proof.
  revert l. induction idxs as [|i idxs IH]; intros l H.
  - inversion H. reflexivity.
  - apply take_cons_Ok in H as (a & l' & _ & H & ->). simpl. f_equal. auto.
Qed.

Lemma take_Forall t idxs l : take t idxs = Ok l -> Forall (fun a => In a t) l.
Proof.
  revert l. induction idxs as [|i idxs IH]; intros l H.
  - inversion H. constructor.
  - apply take_cons_Ok in H as (a & l' & Ha & H & ->).
    constructor; [eapply item_at_In, Ha | auto].
Qed.

Lemma take_Raise t idxs e :
  take t idxs = Raise e ->
  e = IndexError /\ exists i, In i idxs /\ norm_index (length t) i = None.
Proof.
  induction idxs as [|i idxs IH]; simpl; [discriminate|].
  destruct (item_at t i) as [a|e0] eqn:E.
  - destruct (take t idxs) as [l|e1]; [discriminate|].
    intros H. inversion H. subst e1.
    destruct IH as (-> & j & Hj & Hn); [reflexivity|].
    split; [reflexivity|]. exists j. split; [right; exact Hj | exact Hn].
  - intros H. inversion H. subst e0. apply item_at_Raise in E as (-> & E).
    split; [reflexivity|]. exists i. split; [left; reflexivity | exact E].
Qed.

Lemma take_total t idxs :
  Forall (fun i => norm_index (length t) i <> None) idxs ->
  exists l, take t idxs = Ok l.
Proof.
  intros H. destruct (take t idxs) as [l|e] eqn:E; [eauto|].
  apply take_Raise in E as (_ & i & Hi & Hn).
  rewrite Forall_forall in H. exfalso. eapply H; eauto.
Qed.

Lemma take_out_of_range t idxs i :
  In i idxs -> norm_index (length t) i = None -> take t idxs = Raise IndexError.
Proof.
  intros Hin Hn. destruct (take t idxs) as [l|e] eqn:E.
  - exfalso. revert l E. induction idxs as [|j idxs IH]; intros l E; [destruct Hin|].
    apply take_cons_Ok in E as (a & l' & Ha & E & _).
    destruct Hin as [-> | Hin]; [|eauto].
    apply item_at_Ok in Ha as (k & Hk & _). congruence.
  - apply take_Raise in E as (-> & _). reflexivity.
Qed.

Lemma take_In t idxs l i :
  take t idxs = Ok l -> In i idxs -> exists a, item_at t i = Ok a /\ In a l.
Proof.
  revert l. induction idxs as [|j idxs IH]; intros l E Hin; [destruct Hin|].
  apply take_cons_Ok in E as (a & l' & Ha & E & ->).
  destruct Hin as [-> | Hin].
  - exists a. split; [exact Ha | left; reflexivity].
  - destruct (IH _ E Hin) as (x & Hx & Hin'). exists x. split; [exact Hx | right; exact Hin'].
Qed.

Lemma set_nth_length t k v : length (set_nth t k v) = length t.
Proof.
  revert k. induction t as [|a t IH]; intros [|k]; simpl; auto.
Qed.

Lemma index_put_total t idxs v :
  Forall (fun i => norm_index (length t) i <> None) idxs ->
  exists t', index_put t idxs v = Ok t'.
Proof.
  revert t. induction idxs as [|i idxs IH]; intros t H; simpl.
  - eauto.
  - inversion H as [|? ? Hi Hrest]; subst.
    destruct (norm_index (length t) i) as [k|]; [|congruence].
    apply IH. rewrite set_nth_length. exact Hrest.
Qed.

Lemma index_put_length t idxs v t' :
  index_put t idxs v = Ok t' -> length t' = length t.
Proof.
  revert t. induction idxs as [|i idxs IH]; intros t; simpl.
  - intros H. inversion H. reflexivity.
  - destruct (norm_index (length t) i) as [k|]; [|discriminate].
    intros H. apply IH in H. rewrite set_nth_length in H. exact H.
Qed.

End IndexFacts.

(** ** Masks and their translation *)

Section MaskFacts.
Implicit Types (m : list bool) (k p : Z).

Lemma nonzero_from_In k m p :
  In p (nonzero_from k m) <->
  exists j, p = k + Z.of_nat j /\ nth_error m j = Some true.
Proof.
  revert k. induction m as [|b m IH]; intros k; simpl.
  - split; [tauto | intros (j & _ & H); destruct j; discriminate].
  - assert (Hrest : In p (nonzero_from (k + 1) m) <->
                    exists j, p = k + Z.of_nat (S j) /\ nth_error m j = Some true).
    { rewrite IH. split; intros (j & -> & H); exists j; split; auto; lia. }
    destruct b; simpl; rewrite ?Hrest; split.
    + intros [<- | (j & -> & H)]; [exists O | exists (S j)]; split; auto; lia.
    + intros ([|j] & -> & H); [left; lia | right; eauto].
    + intros (j & -> & H). exists (S j). auto.
    + intros ([|j] & -> & H); [discriminate | eauto].
Qed.

Lemma nonzero_In m p :
  In p (nonzero m) <-> 0 <= p /\ nth_error m (Z.to_nat p) = Some true.
Proof.
  unfold nonzero. rewrite nonzero_from_In. split.
  - intros (j & -> & H). rewrite Z.add_0_l, Nat2Z.id. split; [lia | exact H].
  - intros (H0 & H). exists (Z.to_nat p). split; [lia | exact H].
Qed.

Lemma nonzero_range m p : In p (nonzero m) -> 0 <= p < Z.of_nat (length m).
Proof.
  intros H. apply nonzero_In in H as (H0 & H).
  assert (Z.to_nat p < length m)%nat by (apply nth_error_Some; congruence).
  lia.
Qed.

Lemma nonzero_from_sorted k m : StronglySorted Z.lt (nonzero_from k m).
Proof.
  revert k. induction m as [|b m IH]; intros k; simpl.
  - constructor.
  - destruct b; [|apply IH]. constructor; [apply IH|].
    apply Forall_forall. intros p Hp.
    apply nonzero_from_In in Hp as (j & -> & _). lia.
Qed.

Lemma sorted_lt_NoDup (l : list Z) : StronglySorted Z.lt l -> NoDup l.
Proof.
  induction 1 as [|a l _ IH Hall]; constructor; [|exact IH].
  intros Hin. rewrite Forall_forall in Hall. specialize (Hall _ Hin). lia.
Qed.

Lemma nonzero_NoDup m : NoDup (nonzero m).
Proof. apply sorted_lt_NoDup, nonzero_from_sorted. Qed.

Lemma nonzero_from_length k m :
  Z.of_nat (length (nonzero_from k m)) = popcount m.
Proof.
  unfold popcount. revert k. induction m as [|b m IH]; intros k; simpl.
  - reflexivity.
  - destruct b; simpl.
    + destruct (bool_dec true true); [|congruence]. simpl. f_equal. f_equal.
      apply Nat2Z.inj. apply IH.
    + destruct (bool_dec false true); [discriminate|]. apply IH.
Qed.

Lemma nonzero_length m : Z.of_nat (length (nonzero m)) = popcount m.
Proof. apply nonzero_from_length. Qed.

Lemma nonzero_from_ones k n :
  nonzero_from k (repeat true n) = map (fun j => k + Z.of_nat j) (seq 0 n).
Proof.
  revert k. induction n as [|n IH]; intros k; simpl; [reflexivity|].
  f_equal; [lia|]. rewrite IH, <- seq_shift, map_map.
  apply map_ext. intros j. lia.
Qed.

Lemma nonzero_ones n : nonzero (ones n) = arange n.
Proof.
  unfold nonzero, ones, arange. rewrite nonzero_from_ones.
  apply map_ext. intros j. lia.
Qed.

Lemma popcount_ones n : 0 <= n -> popcount (ones n) = n.
Proof.
  intros H. unfold popcount, ones. rewrite count_occ_repeat_eq by reflexivity. lia.
Qed.

Lemma ones_length n : 0 <= n -> Z.of_nat (length (ones n)) = n.
Proof. intros H. unfold ones. rewrite repeat_length. lia. Qed.

Lemma set_nth_other {A} (t : list A) (k j : nat) v :
  j <> k -> nth_error (set_nth t k v) j = nth_error t j.
Proof.
  revert k j. induction t as [|a t IH]; intros [|k] [|j] H; simpl; auto;
    congruence.
Qed.

Lemma popcount_clear m (j : nat) :
  nth_error m j = Some true -> popcount (set_nth m j false) = popcount m - 1.
Proof.
  unfold popcount. revert j. induction m as [|b m IH]; intros [|j] H; simpl in *;
    try discriminate.
  - inversion H. subst b.
    destruct (bool_dec false true); [discriminate|].
    destruct (bool_dec true true); [|congruence]. lia.
  - specialize (IH _ H). destruct (bool_dec b true); lia.
Qed.

(** Clearing pairwise distinct positions that all hold [True] removes
    exactly that many bits. *)
Lemma index_put_popcount pos : forall m m',
  NoDup pos ->
  Forall (fun p => In p (nonzero m)) pos ->
  index_put m pos false = Ok m' ->
  popcount m' = popcount m - Z.of_nat (length pos).
Proof.
  induction pos as [|p pos IH]; intros m m' Hnd Hall Hput.
  - simpl in Hput. inversion Hput. simpl. lia.
  - inversion Hnd as [|? ? Hnotin Hnd']; subst.
    inversion Hall as [|? ? Hp Hall']; subst.
    pose proof (nonzero_range _ _ Hp) as Hr.
    apply nonzero_In in Hp as (Hp0 & Hp).
    simpl in Hput. rewrite norm_index_nonneg in Hput by exact Hr.
    apply IH in Hput; [| exact Hnd' |].
    + rewrite Hput, popcount_clear by exact Hp.
      change (length (p :: pos)) with (S (length pos)). lia.
    + rewrite Forall_forall in *. intros q Hq.
      specialize (Hall' _ Hq). apply nonzero_In in Hall' as (Hq0 & Hq').
      apply nonzero_In. split; [exact Hq0|].
      rewrite set_nth_other; [exact Hq'|].
      intros Heq. apply Hnotin. replace p with q by lia. exact Hq.
Qed.

Lemma take_true_all (m : list bool) pos :
  Forall (fun p => In p (nonzero m)) pos ->
  exists bits, take m pos = Ok bits /\ all bits = true.
Proof.
  induction pos as [|p pos IH]; intros H.
  - exists []. split; reflexivity.
  - inversion H as [|? ? Hp Hall]; subst.
    destruct (IH Hall) as (bits & Hb & Hab).
    pose proof (nonzero_range _ _ Hp) as Hr.
    apply nonzero_In in Hp as (_ & Hp).
    exists (true :: bits). split; [|simpl; exact Hab].
    apply take_cons_Ok. exists true, bits. repeat split; [|exact Hb].
    apply item_at_Ok. exists (Z.to_nat p).
    split; [apply norm_index_nonneg; exact Hr | exact Hp].
Qed.

Lemma item_at_inj (t : list Z) i j a :
  NoDup t ->
  0 <= i < Z.of_nat (length t) -> 0 <= j < Z.of_nat (length t) ->
  item_at t i = Ok a -> item_at t j = Ok a -> i = j.
Proof.
  intros Ht Hi Hj Ha Hb. unfold item_at in Ha, Hb.
  rewrite norm_index_nonneg in Ha by exact Hi.
  rewrite norm_index_nonneg in Hb by exact Hj.
  destruct (nth_error t (Z.to_nat i)) as [x|] eqn:Ei; [|discriminate].
  destruct (nth_error t (Z.to_nat j)) as [y|] eqn:Ej; [|discriminate].
  inversion Ha. inversion Hb. subst x y.
  assert (Z.to_nat i = Z.to_nat j).
  { eapply NoDup_nth_error; [exact Ht | | congruence].
    apply nth_error_Some. congruence. }
  lia.
Qed.

Lemma take_In_index (t : list Z) i a idxs : forall l,
  NoDup t ->
  0 <= i < Z.of_nat (length t) -> item_at t i = Ok a ->
  Forall (fun j => 0 <= j < Z.of_nat (length t)) idxs ->
  take t idxs = Ok l -> In a l -> In i idxs.
Proof.
  induction idxs as [|j idxs IH]; intros l Ht Hi Ha Hr H Hin.
  - inversion H. subst. destruct Hin.
  - apply take_cons_Ok in H as (y & l' & Hy & H & ->).
    inversion Hr as [|? ? Hrj Hr']; subst.
    destruct Hin as [<- | Hin].
    + left. eapply item_at_inj; eauto.
    + right. eapply IH; eauto.
Qed.

(** Indexing a duplicate-free tensor at distinct in-range indices gives
    distinct values. *)
Lemma take_NoDup (t : list Z) idxs : forall l,
  NoDup t -> NoDup idxs ->
  Forall (fun i => 0 <= i < Z.of_nat (length t)) idxs ->
  take t idxs = Ok l -> NoDup l.
Proof.
  induction idxs as [|i idxs IH]; intros l Ht Hnd Hr H.
  - inversion H. constructor.
  - apply take_cons_Ok in H as (a & l' & Ha & H & ->).
    inversion Hnd as [|? ? Hi Hnd']; subst.
    inversion Hr as [|? ? Hri Hr']; subst.
    constructor; [|apply IH; auto].
    intros Hin. apply Hi. apply (take_In_index t i a idxs l'); assumption.
Qed.

End MaskFacts.

(** ** The pool: [UnlabelledDataset] *)

Lemma len_nonneg {item} (d : Dataset item) : 0 <= len d.
Proof. induction d; simpl; lia. Qed.

Section PoolFacts.
Context {item : Type}.
Implicit Types (self : UD.t item) (idxs : list Z).

Lemma label_Ok idxs self d self' :
  UD.label idxs self = (Ok d, self') ->
  exists pos bits mask,
    take (UD._idx_mask self) idxs = Ok pos /\
    take (UD._mask self) pos = Ok bits /\ all bits = true /\
    UD._len self <> 0 /\
    index_put (UD._mask self) pos false = Ok mask /\
    self' = UD.with_pool self mask (nonzero mask)
              (UD._len self - Z.of_nat (length idxs)) /\
    d = UD.labelled_subset self pos.
Proof.
  unfold UD.label, UD.labelled_subset, bind, get, lift, assert_, put, ret.
  destruct (take (UD._idx_mask self) idxs) as [pos|e] eqn:Hpos; [|discriminate].
  destruct (take (UD._mask self) pos) as [bits|e] eqn:Hbits; [|discriminate].
  destruct (all bits) eqn:Hall; [|discriminate].
  destruct (UD._len self =? 0) eqn:Hlen; simpl; [discriminate|].
  destruct (index_put (UD._mask self) pos false) as [mask|e] eqn:Hput;
    [|discriminate].
  intros H. inversion H. subst.
  exists pos, bits, mask. apply Z.eqb_neq in Hlen. repeat split; auto.
Qed.

Lemma label_steps idxs self pos bits mask :
  take (UD._idx_mask self) idxs = Ok pos ->
  take (UD._mask self) pos = Ok bits -> all bits = true ->
  UD._len self <> 0 ->
  index_put (UD._mask self) pos false = Ok mask ->
  UD.label idxs self =
    (Ok (UD.labelled_subset self pos),
     UD.with_pool self mask (nonzero mask) (UD._len self - Z.of_nat (length idxs))).
Proof.
  intros H1 H2 H3 H4 H5.
  unfold UD.label, UD.labelled_subset, bind, get, lift, assert_, put, ret.
  rewrite H1, H2, H3. apply Z.eqb_neq in H4. rewrite H4. simpl. rewrite H5.
  reflexivity.
Qed.

(** Every exception of [label] leaves before the first assignment. *)
Lemma label_Raise idxs self e self' :
  UD.label idxs self = (Raise e, self') -> self' = self.
Proof.
  unfold UD.label, bind, get, lift, assert_, put, ret.
  destruct (take (UD._idx_mask self) idxs) as [pos|e0];
    [|intros H; inversion H; reflexivity].
  destruct (take (UD._mask self) pos) as [bits|e0];
    [|intros H; inversion H; reflexivity].
  destruct (all bits); [|intros H; inversion H; reflexivity].
  destruct (UD._len self =? 0); simpl; [intros H; inversion H; reflexivity|].
  destruct (index_put (UD._mask self) pos false) as [mask|e0];
    intros H; inversion H; reflexivity.
Qed.

Lemma label_masked_out idxs self pos bits :
  take (UD._idx_mask self) idxs = Ok pos ->
  take (UD._mask self) pos = Ok bits -> all bits = false ->
  UD.label idxs self = (Raise (AssertionError Cant_label), self).
Proof.
  intros H1 H2 H3. unfold UD.label, bind, get, lift, assert_.
  rewrite H1, H2, H3. reflexivity.
Qed.

Lemma label_out_of_range idxs self e :
  take (UD._idx_mask self) idxs = Raise e ->
  UD.label idxs self = (Raise IndexError, self).
Proof.
  intros H. pose proof (take_Raise _ _ _ H) as (-> & _).
  unfold UD.label, bind, get, lift. rewrite H. reflexivity.
Qed.

Lemma init_Ok (dataset : Dataset item) label_fn dbg self :
  UD.__init__ dataset label_fn dbg = Ok self ->
  self = {| UD._dataset := dataset; UD._label_fn := label_fn;
            UD._mask := ones (len dataset); UD._len := len dataset;
            UD._idx_mask := arange (len dataset); UD.debug := dbg |}.
Proof.
  unfold UD.__init__. destruct (dbg && UD.is_set label_fn); [discriminate|].
  intros H. inversion H. reflexivity.
Qed.

Lemma init_invariant (dataset : Dataset item) label_fn dbg self :
  UD.__init__ dataset label_fn dbg = Ok self ->
  UD.mask_invariant self /\ UD.sized self.
Proof.
  intros H. apply init_Ok in H. subst self.
  pose proof (len_nonneg dataset) as Hn.
  unfold UD.mask_invariant, UD.sized, UD.__len__. simpl.
  rewrite popcount_ones, nonzero_ones, ones_length by exact Hn. auto.
Qed.

Lemma reset_invariant self :
  exists self', UD.reset self = (Ok tt, self') /\
    UD.mask_invariant self' /\ UD.sized self' /\
    UD._dataset self' = UD._dataset self.
Proof.
  eexists. split; [reflexivity|].
  pose proof (len_nonneg (UD._dataset self)) as Hn.
  unfold UD.mask_invariant, UD.sized, UD.__len__. simpl.
  rewrite popcount_ones, nonzero_ones, ones_length by exact Hn. auto.
Qed.

(** The pools of the examples are what the constructor builds. *)
Example examples_are_fresh :
  UD.__init__ Examples.pool3_data None false = Ok Examples.pool3 /\
  UD.__init__ Examples.pool3_data (Some Examples.oracle) false
    = Ok Examples.pool3_oracle /\
  UD.__init__ (Source []) None false = Ok Examples.pool0 /\
  UD.__init__ Examples.pool3_data (Some Examples.oracle) true
    = Raise (AssertionError Debug_without_label_fn).
Proof. repeat split. Qed.

(** The translation is recomputed by every successful [label]. *)
Lemma label_translation idxs self d self' :
  UD.label idxs self = (Ok d, self') ->
  UD._idx_mask self' = nonzero (UD._mask self') /\
  (UD.sized self -> UD.sized self') /\
  UD._dataset self' = UD._dataset self /\
  UD._label_fn self' = UD._label_fn self /\
  UD.debug self' = UD.debug self /\
  UD._len self' = UD._len self - Z.of_nat (length idxs).
Proof.
  intros H. apply label_Ok in H as (pos & bits & mask & _ & _ & _ & _ & Hput & -> & _).
  simpl. repeat split. unfold UD.sized. simpl.
  apply index_put_length in Hput. rewrite Hput. auto.
Qed.

(** Distinct in-range indices keep the length in step with the mask. *)
Lemma label_invariant idxs self d self' :
  UD.mask_invariant self ->
  NoDup idxs -> Forall (fun i => 0 <= i < UD.__len__ self) idxs ->
  UD.label idxs self = (Ok d, self') ->
  UD.mask_invariant self'.
Proof.
  intros [Hlen Htr] Hnd Hr H.
  apply label_Ok in H as (pos & bits & mask & Hpos & _ & _ & _ & Hput & -> & _).
  unfold UD.mask_invariant, UD.__len__ in *. simpl. split; [|reflexivity].
  rewrite Htr in Hpos.
  assert (Hin : Forall (fun p => In p (nonzero (UD._mask self))) pos)
    by (eapply take_Forall; eauto).
  assert (Hndp : NoDup pos).
  { eapply take_NoDup; [apply nonzero_NoDup | exact Hnd | | exact Hpos].
    rewrite nonzero_length, Hlen. exact Hr. }
  rewrite (index_put_popcount pos _ _ Hndp Hin Hput).
  rewrite (take_length _ _ _ Hpos), Hlen. reflexivity.
Qed.

(** From a state whose translation matches its mask, [label] returns as
    soon as the pool is not empty and every index is within the
    translation. *)
Lemma label_total idxs self :
  UD._idx_mask self = nonzero (UD._mask self) ->
  UD._len self <> 0 ->
  Forall (fun i => norm_index (length (UD._idx_mask self)) i <> None) idxs ->
  exists pos mask,
    take (UD._idx_mask self) idxs = Ok pos /\
    UD.label idxs self =
      (Ok (UD.labelled_subset self pos),
       UD.with_pool self mask (nonzero mask) (UD._len self - Z.of_nat (length idxs))).
Proof.
  intros Htr Hlen Hr.
  destruct (take_total _ _ Hr) as (pos & Hpos).
  assert (Hin : Forall (fun p => In p (nonzero (UD._mask self))) pos).
  { rewrite <- Htr. eapply take_Forall; eauto. }
  destruct (take_true_all _ _ Hin) as (bits & Hbits & Hall).
  destruct (index_put_total (UD._mask self) pos false) as (mask & Hput).
  { rewrite Forall_forall in *. intros p Hp. specialize (Hin _ Hp).
    apply nonzero_range in Hin. rewrite norm_index_nonneg by exact Hin. discriminate. }
  exists pos, mask. split; [exact Hpos|].
  eapply label_steps; eauto.
Qed.

End PoolFacts.

(** ** The manager: [DataManager] *)

Section ManagerFacts.
Context {item A : Type}.
Implicit Types (dm : DM.t item A) (b : Z).

Lemma acquire_Ok b transform dm r dm' :
  DM.acquire b transform dm = (Ok r, dm') ->
  exists n idxs attrs u',
    DM.n_unlabelled dm = Ok n /\ b <= n /\
    DM._a_fn dm (DM.a_fn_attrs dm) (DM.view_of transform dm) b = (Ok idxs, attrs) /\
    Z.of_nat (length idxs) = b /\
    UD.convert_idx idxs (DM._unlabelled dm) = Ok (fst r) /\
    UD.label idxs (DM._unlabelled dm) = (Ok (snd r), u') /\
    dm' = {| DM._old_labelled := DM._old_labelled dm;
             DM._labelled := ConcatDataset (DM._labelled dm) (snd r);
             DM._unlabelled := u';
             DM._a_fn := DM._a_fn dm;
             DM.a_fn_attrs := attrs |}.
Proof.
  unfold DM.acquire, bind, get, lift, assert_, put, ret.
  destruct (DM.n_unlabelled dm) as [n|e] eqn:Hn; [|discriminate].
  destruct (b <=? n) eqn:Hb; [|discriminate].
  assert (Hcall : forall v,
    DM.call_a_fn v b dm =
    (fst (DM._a_fn dm (DM.a_fn_attrs dm) v b),
     DM.with_attrs dm (snd (DM._a_fn dm (DM.a_fn_attrs dm) v b)))).
  { intros v. unfold DM.call_a_fn. destruct (DM._a_fn dm (DM.a_fn_attrs dm) v b).
    reflexivity. }
  replace (match transform with
           | Some transform0 => DM.call_a_fn (transform0 (DM._unlabelled dm)) b
           | None => DM.call_a_fn (DM._unlabelled dm) b
           end dm) with (DM.call_a_fn (DM.view_of transform dm) b dm)
    by (destruct transform; reflexivity).
  rewrite Hcall.
  destruct (DM._a_fn dm (DM.a_fn_attrs dm) (DM.view_of transform dm) b)
    as [[idxs|e] attrs] eqn:Hfn; simpl; [|discriminate].
  destruct (Z.of_nat (length idxs) =? b) eqn:Hshape; [|discriminate].
  destruct (UD.convert_idx idxs (DM._unlabelled dm)) as [true_idxs|e] eqn:Hconv;
    [|discriminate].
  unfold DM.on_unlabelled, DM.append_to_labelled, bind, get, put. simpl.
  destruct (UD.label idxs (DM._unlabelled dm)) as [[labelled|e] u'] eqn:Hlab;
    [|discriminate].
  intros H. inversion H. subst. simpl.
  exists n, idxs, attrs, u'.
  apply Z.leb_le in Hb. apply Z.eqb_eq in Hshape. repeat split; auto.
Qed.

Lemma acquire_run b transform dm n idxs attrs :
  DM.n_unlabelled dm = Ok n -> b <= n ->
  DM._a_fn dm (DM.a_fn_attrs dm) (DM.view_of transform dm) b = (Ok idxs, attrs) ->
  Z.of_nat (length idxs) = b ->
  DM.acquire b transform dm =
    match UD.convert_idx idxs (DM._unlabelled dm) with
    | Raise e => (Raise e, DM.with_attrs dm attrs)
    | Ok true_idxs =>
        match UD.label idxs (DM._unlabelled dm) with
        | (Ok labelled, u') =>
            (Ok (true_idxs, labelled),
             {| DM._old_labelled := DM._old_labelled dm;
                DM._labelled := ConcatDataset (DM._labelled dm) labelled;
                DM._unlabelled := u';
                DM._a_fn := DM._a_fn dm;
                DM.a_fn_attrs := attrs |})
        | (Raise e, u') =>
            (Raise e, DM.with_unlabelled (DM.with_attrs dm attrs) u')
        end
    end.
Proof.
  intros Hn Hb Hfn Hshape.
  unfold DM.acquire, bind, get, lift, assert_, put, ret.
  rewrite Hn. apply Z.leb_le in Hb. rewrite Hb.
  replace (match transform with
           | Some transform0 => DM.call_a_fn (transform0 (DM._unlabelled dm)) b
           | None => DM.call_a_fn (DM._unlabelled dm) b
           end dm) with (DM.call_a_fn (DM.view_of transform dm) b dm)
    by (destruct transform; reflexivity).
  unfold DM.call_a_fn. rewrite Hfn. simpl.
  apply Z.eqb_eq in Hshape. rewrite Hshape.
  destruct (UD.convert_idx idxs (DM._unlabelled dm)) as [true_idxs|e]; [|reflexivity].
  unfold DM.on_unlabelled, DM.append_to_labelled, bind, get, put. simpl.
  destruct (UD.label idxs (DM._unlabelled dm)) as [[labelled|e] u']; reflexivity.
Qed.

Lemma acquire_pool_exhausted b transform dm n :
  DM.n_unlabelled dm = Ok n -> n < b ->
  DM.acquire b transform dm = (Raise (AssertionError Pool_size), dm).
Proof.
  intros Hn Hb. unfold DM.acquire, bind, get, lift, assert_.
  rewrite Hn. apply Z.leb_gt in Hb. rewrite Hb. reflexivity.
Qed.

Lemma acquire_shape_mismatch b transform dm n idxs attrs :
  DM.n_unlabelled dm = Ok n -> b <= n ->
  DM._a_fn dm (DM.a_fn_attrs dm) (DM.view_of transform dm) b = (Ok idxs, attrs) ->
  Z.of_nat (length idxs) <> b ->
  DM.acquire b transform dm = (Raise (AssertionError Shape), DM.with_attrs dm attrs).
Proof.
  intros Hn Hb Hfn Hshape.
  unfold DM.acquire, bind, get, lift, assert_, put, ret.
  rewrite Hn. apply Z.leb_le in Hb. rewrite Hb.
  replace (match transform with
           | Some transform0 => DM.call_a_fn (transform0 (DM._unlabelled dm)) b
           | None => DM.call_a_fn (DM._unlabelled dm) b
           end dm) with (DM.call_a_fn (DM.view_of transform dm) b dm)
    by (destruct transform; reflexivity).
  unfold DM.call_a_fn. rewrite Hfn. simpl.
  apply Z.eqb_neq in Hshape. rewrite Hshape. reflexivity.
Qed.

End ManagerFacts.

(** ** Conservation of the item count *)

Section Conservation.
Context {item A : Type}.
Variables (dataset baseline : Dataset item).
Variable label_fn : option (Dataset item -> Dataset item).
(** A labelling function answers one labelled point per point it is given. *)
Hypothesis label_fn_len : forall f d, label_fn = Some f -> len (f d) = len d.

Local Abbreviation conserved :=
  (DM.conserved (A := A) dataset baseline label_fn) (only parsing).

Lemma labelled_subset_len (self : UD.t item) pos :
  UD._label_fn self = label_fn ->
  len (UD.labelled_subset self pos) = Z.of_nat (length pos).
Proof.
  intros H. unfold UD.labelled_subset. rewrite H.
  destruct label_fn as [f|] eqn:E; [|reflexivity].
  rewrite (label_fn_len f _ eq_refl). reflexivity.
Qed.

Lemma acquire_effect b transform (dm : DM.t item A) r dm' :
  conserved dm ->
  DM.acquire b transform dm = (Ok r, dm') ->
  conserved dm' /\
  len (DM._labelled dm') = len (DM._labelled dm) + b /\
  UD._len (DM._unlabelled dm') = UD._len (DM._unlabelled dm) - b.
Proof.
  intros (Hds & Hfn & Hpos & Hsum) H.
  apply acquire_Ok in H
    as (n & idxs & attrs & u' & Hn & Hb & _ & Hshape & _ & Hlab & ->).
  apply len_builtin_Ok in Hn as (-> & _). unfold UD.__len__ in Hb.
  pose proof (label_translation _ _ _ _ Hlab) as (_ & _ & Hds' & Hfn' & _ & Hlen').
  apply label_Ok in Hlab as (pos & _ & _ & Hpos' & _ & _ & _ & _ & _ & Hd).
  assert (Hl : len (snd r) = b).
  { rewrite Hd, labelled_subset_len by exact Hfn.
    rewrite (take_length _ _ _ Hpos'). exact Hshape. }
  unfold DM.conserved. simpl. rewrite Hds', Hfn', Hlen', Hl, Hshape.
  repeat split; auto; lia.
Qed.

Lemma acquired_conserved (dm0 dm : DM.t item A) :
  conserved dm0 -> DM.acquired dm0 dm -> conserved dm.
Proof.
  intros H0. induction 1 as [|dm b tr r dm' _ IH Hstep]; [exact H0|].
  eapply acquire_effect; eauto.
Qed.

Lemma init_conserved dbg a_fn attrs ud :
  UD.__init__ dataset label_fn dbg = Ok ud ->
  conserved (DM.__init__ baseline ud a_fn attrs).
Proof.
  intros H. apply init_Ok in H. subst ud. unfold DM.conserved. simpl.
  pose proof (len_nonneg dataset). repeat split; auto; lia.
Qed.

(** C1. Conservation law.  Start from a freshly built pool over [dataset]
    and a manager whose baseline labelled set is [baseline].  After any
    sequence of [acquire] calls that returned, [n_labelled] and
    [n_unlabelled] are defined and
    [n_labelled - len baseline + n_unlabelled = len dataset]; and one more
    [acquire(b)] that returns grows [n_labelled] by exactly [b] and
    shrinks [n_unlabelled] by exactly [b]. *)
Theorem acquire_conservation dbg a_fn attrs ud (dm : DM.t item A) :
  UD.__init__ dataset label_fn dbg = Ok ud ->
  DM.acquired (DM.__init__ baseline ud a_fn attrs) dm ->
  exists nl nu,
    DM.n_labelled dm = Ok nl /\ DM.n_unlabelled dm = Ok nu /\
    nl - len baseline + nu = len dataset /\
    forall b transform r dm',
      DM.acquire b transform dm = (Ok r, dm') ->
      DM.n_labelled dm' = Ok (nl + b) /\ DM.n_unlabelled dm' = Ok (nu - b).
Proof.
  intros Hinit Hacq.
  pose proof (acquired_conserved _ _ (init_conserved dbg a_fn attrs ud Hinit) Hacq)
    as Hc.
  exists (len (DM._labelled dm)), (UD._len (DM._unlabelled dm)).
  destruct Hc as (Hds & Hfn & Hpos & Hsum).
  unfold DM.n_labelled, DM.n_unlabelled, UD.__len__.
  rewrite !len_builtin_nonneg by (auto using len_nonneg).
  repeat split; auto.
  - destruct (acquire_effect b transform dm r dm') as (_ & -> & _); auto.
    + unfold DM.conserved; auto.
    + apply len_builtin_nonneg. pose proof (len_nonneg (DM._labelled dm)).
      apply acquire_Ok in H
        as (n & idxs & _ & _ & _ & _ & _ & <- & _). lia.
  - destruct (acquire_effect b transform dm r dm') as ((_ & _ & Hpos' & _) & _ & Hlen);
      [unfold DM.conserved; auto | auto |].
    rewrite <- Hlen. apply len_builtin_nonneg. exact Hpos'.
Qed.

End Conservation.

(** Two acquisitions (of one item, then of two) on a pool of three with a
    length-preserving labelling function. *)
Lemma acquire_conservation_witness :
  let dm0 := Examples.manager Examples.first_b Examples.pool3_oracle in
  let dm2 := snd (DM.acquire 2 None (snd (DM.acquire 1 None dm0))) in
  exists nl nu,
    DM.n_labelled dm2 = Ok nl /\ DM.n_unlabelled dm2 = Ok nu /\
    nl - len Examples.baseline1 + nu = len Examples.pool3_data /\
    forall b transform r dm',
      DM.acquire b transform dm2 = (Ok r, dm') ->
      DM.n_labelled dm' = Ok (nl + b) /\ DM.n_unlabelled dm' = Ok (nu - b).
Proof.
  intros dm0 dm2.
  apply (acquire_conservation Examples.pool3_data Examples.baseline1
           (Some Examples.oracle)
           (fun f d H => match H in _ = o return
                           match o with Some g => len (g d) = len d | None => True end
                         with eq_refl => eq_refl end)
           false Examples.first_b tt Examples.pool3_oracle dm2 eq_refl).
  refine (DM.acquired_step _ (snd (DM.acquire 1 None dm0)) 2 None _ dm2
            (DM.acquired_step _ dm0 1 None _ _ (DM.acquired_nil _) _) _);
    cbv; reflexivity.
Defined.

(** ** [label]: what is rejected, and what a rejection leaves behind *)

Lemma all_false_In (bits : list bool) : In false bits -> all bits = false.
Proof.
  unfold all. induction bits as [|b bits IH]; intros H; [destruct H|].
  simpl. destruct H as [-> | H]; [reflexivity|].
  rewrite IH by exact H. apply andb_false_r.
Qed.

(** C2 (amended).  [label(idxs)] resolves every requested index through
    the current translation.  Whenever one of them resolves to an absolute
    position whose mask bit is already cleared, the call raises: the
    assertion "Can't label points that have been labelled." if every
    requested index and position is in range, [IndexError] otherwise.  And
    whatever the exception, the pool is left exactly as it was: mask,
    translation and reported length are unchanged. *)
Theorem label_all_or_nothing {item} (idxs : list Z) (self : UD.t item) :
  (forall i p,
      In i idxs ->
      item_at (UD._idx_mask self) i = Ok p ->
      item_at (UD._mask self) p = Ok false ->
      exists e,
        UD.label idxs self = (Raise e, self) /\
        (e = AssertionError Cant_label \/ e = IndexError) /\
        (forall pos bits,
            take (UD._idx_mask self) idxs = Ok pos ->
            take (UD._mask self) pos = Ok bits ->
            e = AssertionError Cant_label)) /\
  (forall e self', UD.label idxs self = (Raise e, self') -> self' = self).
Proof.
  split; [|intros e self' H; eapply label_Raise; eauto].
  intros i p Hi Hp Hbit.
  destruct (take (UD._idx_mask self) idxs) as [pos|e0] eqn:Hpos.
  - destruct (take_In _ _ _ _ Hpos Hi) as (p' & Hp' & Hin).
    assert (p' = p) by congruence. subst p'.
    destruct (take (UD._mask self) pos) as [bits|e1] eqn:Hbits.
    + destruct (take_In _ _ _ _ Hbits Hin) as (bit & Hb & Hinb).
      assert (bit = false) by congruence. subst bit.
      exists (AssertionError Cant_label). split; [|split; [left; reflexivity | reflexivity]].
      eapply label_masked_out; eauto using all_false_In.
    + exists IndexError. split; [|split; [right; reflexivity | intros; congruence]].
      apply take_Raise in Hbits as Hb. destruct Hb as (-> & _).
      unfold UD.label, bind, get, lift. rewrite Hpos, Hbits. reflexivity.
  - exists IndexError. split; [|split; [right; reflexivity | intros; congruence]].
    eapply label_out_of_range; eauto.
Qed.

(** A shallow copy of [pool3] taken before [pool3.label([0])]: it shares
    the mask tensor, which was written in place, and keeps the translation
    and the length it was copied with.  Labelling through it is rejected. *)
Lemma label_all_or_nothing_witness :
  let stale := Examples.stale_copy in
  (exists e,
      UD.label [1; 0] stale = (Raise e, stale) /\
      (e = AssertionError Cant_label \/ e = IndexError) /\
      (forall pos bits,
          take (UD._idx_mask stale) [1; 0] = Ok pos ->
          take (UD._mask stale) pos = Ok bits ->
          e = AssertionError Cant_label)) /\
  snd (UD.label [1; 0] stale) = stale.
Proof.
  intros stale. split.
  - apply (proj1 (label_all_or_nothing [1; 0] stale) 0 0).
    + right. left. reflexivity.
    + reflexivity.
    + reflexivity.
  - apply (proj2 (label_all_or_nothing [1; 0] stale) (AssertionError Cant_label)).
    reflexivity.
Defined.

(** C2 as stated does not hold.  On the fresh pool of three items,
    [label([0, 0])] -- one index requested twice in one call -- returns:
    bit 0 of the mask is cleared and the length drops by two.  And after
    [label([0])], requesting the stale index [0] once more returns too: it
    now resolves to absolute position 1. *)
Lemma label_accepts_duplicate_and_stale :
  UD.label [0; 0] Examples.pool3 =
    (Ok (Subset Examples.pool3_data [0; 0]),
     UD.with_pool Examples.pool3 [false; true; true] [1; 2] 1) /\
  UD.label [0] Examples.pool3 =
    (Ok (Subset Examples.pool3_data [0]),
     UD.with_pool Examples.pool3 [false; true; true] [1; 2] 2) /\
  UD.label [0] (UD.with_pool Examples.pool3 [false; true; true] [1; 2] 2) =
    (Ok (Subset Examples.pool3_data [1]),
     UD.with_pool Examples.pool3 [false; false; true] [2] 1).
Proof. repeat split. Qed.

(** ** [acquire]: what it returns and when it raises *)

Section AcquireContract.
Context {item A : Type}.
Implicit Types (dm : DM.t item A) (b n : Z) (idxs : list Z).

Lemma invariant_translation_length (self : UD.t item) :
  UD.mask_invariant self ->
  Z.of_nat (length (UD._idx_mask self)) = UD._len self.
Proof.
  intros [Hlen Htr]. rewrite Htr, nonzero_length. exact Hlen.
Qed.

(** C3 (amended).  Let the pool satisfy the mask invariant, let
    [n = n_unlabelled], and let the acquisition function answer the index
    array [idxs].
    - If [b > n], [acquire(b)] raises (assertion [b <= n_unlabelled]).
    - If [idxs] does not hold exactly [b] indices, it raises (assertion
      on the shape); if it holds [b] indices one of which is outside the
      translation, it raises [IndexError].
    - Otherwise, on a pool that is not empty, [acquire(b)] returns: the
      array returned is the translation of [idxs] through the translation
      as it was before the call; it holds exactly [b] absolute indices,
      each in [[0, N)] for [N] the size of the pool dataset; and when the
      chosen logical indices are pairwise distinct and not negative, so
      are the absolute ones, and the mask invariant still holds.
    Distinctness of [idxs] is not checked. *)
Theorem acquire_contract dm b transform n idxs attrs :
  UD.mask_invariant (DM._unlabelled dm) ->
  UD.sized (DM._unlabelled dm) ->
  DM.n_unlabelled dm = Ok n ->
  DM._a_fn dm (DM.a_fn_attrs dm) (DM.view_of transform dm) b = (Ok idxs, attrs) ->
  (n < b ->
   DM.acquire b transform dm = (Raise (AssertionError Pool_size), dm)) /\
  (b <= n -> Z.of_nat (length idxs) <> b ->
   DM.acquire b transform dm =
     (Raise (AssertionError Shape), DM.with_attrs dm attrs)) /\
  (b <= n -> Z.of_nat (length idxs) = b ->
   (exists i, In i idxs /\ (i < - n \/ n <= i)) ->
   DM.acquire b transform dm = (Raise IndexError, DM.with_attrs dm attrs)) /\
  (b <= n -> Z.of_nat (length idxs) = b -> 0 < n ->
   Forall (fun i => - n <= i < n) idxs ->
   exists true_idxs labelled dm',
     DM.acquire b transform dm = (Ok (true_idxs, labelled), dm') /\
     take (UD._idx_mask (DM._unlabelled dm)) idxs = Ok true_idxs /\
     Z.of_nat (length true_idxs) = b /\
     Forall (fun p => 0 <= p < len (UD._dataset (DM._unlabelled dm))) true_idxs /\
     DM.n_unlabelled dm' = Ok (n - b) /\
     (NoDup idxs -> Forall (fun i => 0 <= i) idxs ->
      NoDup true_idxs /\ UD.mask_invariant (DM._unlabelled dm'))).
Proof.
  intros Hinv Hsized Hn Hfn.
  pose proof (invariant_translation_length _ Hinv) as Hlen.
  pose proof Hn as Hn'. apply len_builtin_Ok in Hn' as (-> & Hn0).
  unfold UD.__len__ in *.
  split; [|split; [|split]].
  - intros Hb. eapply acquire_pool_exhausted; eauto.
  - intros Hb Hshape. eapply acquire_shape_mismatch; eauto.
  - intros Hb Hshape (i & Hi & Hout).
    rewrite (acquire_run b transform dm _ idxs attrs Hn Hb Hfn Hshape).
    unfold UD.convert_idx. erewrite take_out_of_range; [reflexivity | exact Hi |].
    apply norm_index_None. lia.
  - intros Hb Hshape Hpos Hr.
    destruct (label_total idxs (DM._unlabelled dm)) as (pos & mask & Htake & Hlab).
    { apply Hinv. }
    { lia. }
    { rewrite Forall_forall in *. intros i Hi Hnone. specialize (Hr _ Hi).
      apply norm_index_None in Hnone. lia. }
    rewrite (acquire_run b transform dm _ idxs attrs Hn Hb Hfn Hshape).
    unfold UD.convert_idx. rewrite Htake, Hlab.
    do 3 eexists. split; [reflexivity|].
    split; [reflexivity|].
    split; [rewrite (take_length _ _ _ Htake); exact Hshape|].
    split; [|split].
    + destruct Hinv as [_ Htr]. rewrite Htr in Htake.
      apply take_Forall in Htake. rewrite Forall_forall in *.
      intros p Hp. specialize (Htake _ Hp). apply nonzero_range in Htake.
      unfold UD.sized in Hsized. lia.
    + unfold DM.n_unlabelled, UD.__len__. simpl. rewrite Hshape.
      apply len_builtin_nonneg. lia.
    + intros Hnd Hnonneg. simpl. split.
      * destruct Hinv as [_ Htr].
        eapply take_NoDup; [| exact Hnd | | exact Htake].
        -- rewrite Htr. apply nonzero_NoDup.
        -- rewrite Hlen. rewrite Forall_forall in *. intros i Hi.
           specialize (Hr _ Hi). specialize (Hnonneg _ Hi). simpl in Hnonneg. lia.
      * eapply label_invariant; [exact Hinv | exact Hnd | | exact Hlab].
        unfold UD.__len__. rewrite Forall_forall in *. intros i Hi.
        specialize (Hr _ Hi). specialize (Hnonneg _ Hi). simpl in Hnonneg. lia.
Qed.

End AcquireContract.

(** After one item was acquired from the pool of three, two more are
    acquired: the logical indices [0, 1] chosen by the acquisition function
    come back as the absolute indices [1, 2]. *)
Lemma acquire_contract_witness :
  let dm1 := snd (DM.acquire 1 None (Examples.manager Examples.first_b Examples.pool3)) in
  exists true_idxs labelled dm',
    DM.acquire 2 None dm1 = (Ok (true_idxs, labelled), dm') /\
    take (UD._idx_mask (DM._unlabelled dm1)) [0; 1] = Ok true_idxs /\
    Z.of_nat (length true_idxs) = 2 /\
    Forall (fun p => 0 <= p < len (UD._dataset (DM._unlabelled dm1))) true_idxs /\
    DM.n_unlabelled dm' = Ok (2 - 2) /\
    (NoDup [0; 1] -> Forall (fun i => 0 <= i) [0; 1] ->
     NoDup true_idxs /\ UD.mask_invariant (DM._unlabelled dm')).
Proof.
  intros dm1.
  refine (proj2 (proj2 (proj2
            (acquire_contract dm1 2 None 2 [0; 1] tt _ _ eq_refl eq_refl))) _ _ _ _).
  - split; reflexivity.
  - reflexivity.
  - lia.
  - reflexivity.
  - lia.
  - repeat constructor; lia.
Defined.

(** C3 as stated does not hold.  With an acquisition function that
    answers index [0] twice, [acquire(2)] on the pool of three returns the
    absolute indices [0, 0], which are not distinct; and on an empty pool
    [acquire(0)] raises although [0 <= n_unlabelled]. *)
Lemma acquire_returns_duplicates :
  (exists dm',
      DM.acquire 2 None (Examples.manager Examples.always_zero Examples.pool3) =
        (Ok ([0; 0], Subset Examples.pool3_data [0; 0]), dm')) /\
  ~ NoDup [0; 0] /\
  DM.acquire 0 None (Examples.manager Examples.first_b Examples.pool0) =
    (Raise (AssertionError No_remaining),
     Examples.manager Examples.first_b Examples.pool0).
Proof.
  split; [eexists; reflexivity|]. split; [|reflexivity].
  intros H. inversion H as [|? ? Hin _]; subst. apply Hin. left. reflexivity.
Qed.

(** ** The annealing schedule *)

Section AnnealerFacts.
Import Annealer.
Implicit Types (self : Annealer.t).

Lemma ramp_mono (a a' d : Z) :
  a <= a' -> 0 < d -> (inject_Z a / inject_Z d <= inject_Z a' / inject_Z d)%Q.
Proof.
  intros Ha Hd. unfold Qdiv. apply Qmult_le_compat_r.
  - rewrite <- Zle_Qle. exact Ha.
  - apply Qinv_le_0_compat. change 0%Q with (inject_Z 0). rewrite <- Zle_Qle. lia.
Qed.

Lemma ramp_one (d : Z) : 0 < d -> (inject_Z d / inject_Z d == 1)%Q.
Proof.
  intros Hd. unfold Qdiv. apply Qmult_inv_r.
  change 0%Q with (inject_Z 0). rewrite inject_Z_injective. lia.
Qed.

Lemma ramp_zero (d : Z) : (inject_Z 0 / inject_Z d == 0)%Q.
Proof. unfold Qdiv. apply Qmult_0_l. Qed.

Lemma truediv_Ok a d : d <> 0 -> truediv a d = Ok (inject_Z a / inject_Z d)%Q.
Proof. intros H. unfold truediv. apply Z.eqb_neq in H. rewrite H. reflexivity. Qed.

Lemma weight_below self : _step self < _T1 self -> weight self = Ok 0%Q.
Proof. intros H. unfold weight. apply Z.ltb_lt in H. rewrite H. reflexivity. Qed.

Lemma weight_above self :
  _T1 self <= _step self -> _T2 self < _step self -> weight self = Ok (_alpha self).
Proof.
  intros H1 H2. unfold weight. apply Z.ltb_ge in H1. rewrite H1.
  apply Z.gtb_lt in H2. rewrite H2. reflexivity.
Qed.

Lemma weight_ramp self :
  _T1 self <= _step self <= _T2 self -> _T1 self <> _T2 self ->
  weight self =
    Ok (inject_Z (_step self - _T1 self) / inject_Z (_T2 self - _T1 self)
        * _alpha self)%Q.
Proof.
  intros [H1 H2] Hne. unfold weight. apply Z.ltb_ge in H1. rewrite H1.
  destruct (_step self >? _T2 self) eqn:E; [apply Z.gtb_lt in E; lia|].
  rewrite truediv_Ok by lia. reflexivity.
Qed.

Lemma weight_zero_division self :
  _T1 self = _T2 self -> _step self = _T1 self ->
  weight self = Raise ZeroDivisionError.
Proof.
  intros H1 H2. unfold weight, truediv.
  rewrite H2, <- H1, Z.ltb_irrefl.
  destruct (_T1 self >? _T1 self) eqn:E; [apply Z.gtb_lt in E; lia|].
  rewrite Z.sub_diag. reflexivity.
Qed.

(** C4.  [weight] is the piecewise function of the step counter [t]:
    [0] when [t < T1]; [alpha] when [t > T2] (and the first case does not
    apply); [alpha * (t - T1) / (T2 - T1)] otherwise.  For
    [T1 = 0, T2 = 700, alpha = 3.0] it is [0] at [t = 0], [1.5] at
    [t = 350], [3.0] at [t = 700] and [3.0] at [t = 1000]. *)
Theorem weight_piecewise self :
  (_step self < _T1 self -> weight self = Ok 0%Q) /\
  (_T1 self <= _step self -> _T2 self < _step self ->
   weight self = Ok (_alpha self)) /\
  (_T1 self <= _step self <= _T2 self -> _T1 self < _T2 self ->
   exists w, weight self = Ok w /\
     (w == _alpha self * inject_Z (_step self - _T1 self)
           / inject_Z (_T2 self - _T1 self))%Q) /\
  (exists w0 w350 w700 w1000,
      weight (Examples.schedule 0) = Ok w0 /\ (w0 == 0)%Q /\
      weight (Examples.schedule 350) = Ok w350 /\ (w350 == 3 # 2)%Q /\
      weight (Examples.schedule 700) = Ok w700 /\ (w700 == 3 # 1)%Q /\
      weight (Examples.schedule 1000) = Ok w1000 /\ (w1000 == 3 # 1)%Q).
Proof.
  split; [apply weight_below|]. split; [apply weight_above|]. split.
  - intros Hr Hlt. eexists. split; [apply weight_ramp; [exact Hr | lia]|].
    unfold Qdiv. ring.
  - do 4 eexists. repeat split.
Qed.

Lemma weight_piecewise_witness :
  weight (Examples.schedule (-1) ) = Ok 0%Q /\
  weight (Annealer.__init__ (Some 5) None None None) = Ok 0%Q /\
  weight (Examples.schedule 701) = Ok (3 # 1)%Q /\
  exists w, weight (Examples.schedule 140) = Ok w /\
    (w == (3 # 1) * inject_Z (140 - 0) / inject_Z (700 - 0))%Q.
Proof.
  split; [apply (proj1 (weight_piecewise (Examples.schedule (-1)))); simpl; lia|].
  split; [apply (proj1 (weight_piecewise (Annealer.__init__ (Some 5) None None None)));
          simpl; lia|].
  split; [apply (proj1 (proj2 (weight_piecewise (Examples.schedule 701)))); simpl; lia|].
  apply (proj1 (proj2 (proj2 (weight_piecewise (Examples.schedule 140))))); simpl; lia.
Defined.

(** C10.  With [T1 < T2] the weight is defined at every step count: the
    division of the linear ramp is by [T2 - T1 <> 0].  With [T1 = T2] and
    the step counter at that value neither guard fires, the divisor is
    zero and evaluating [weight] raises [ZeroDivisionError]. *)
Theorem weight_division self :
  (_T1 self < _T2 self ->
   _T2 self - _T1 self <> 0 /\ exists w, weight self = Ok w) /\
  (_T1 self = _T2 self -> _step self = _T1 self ->
   (_step self <? _T1 self) = false /\ (_step self >? _T2 self) = false /\
   _T2 self - _T1 self = 0 /\
   weight self = Raise ZeroDivisionError).
Proof.
  split.
  - intros Hlt. split; [lia|].
    destruct (Z_lt_le_dec (_step self) (_T1 self)) as [H1|H1].
    + eexists. apply weight_below. exact H1.
    + destruct (Z_lt_le_dec (_T2 self) (_step self)) as [H2|H2].
      * eexists. apply weight_above; assumption.
      * eexists. apply weight_ramp; lia.
  - intros H1 H2. repeat split.
    + apply Z.ltb_ge. lia.
    + destruct (_step self >? _T2 self) eqn:E; [apply Z.gtb_lt in E; lia | reflexivity].
    + lia.
    + apply weight_zero_division; assumption.
Qed.

Lemma weight_division_witness :
  (700 - 0 <> 0 /\ exists w, weight (Examples.schedule 350) = Ok w) /\
  weight (Annealer.__init__ (Some 7) (Some 7) (Some 7) None) = Raise ZeroDivisionError.
Proof.
  split.
  - apply (proj1 (weight_division (Examples.schedule 350))). simpl. lia.
  - apply (proj2 (weight_division (Annealer.__init__ (Some 7) (Some 7) (Some 7) None)));
      reflexivity.
Defined.

Lemma steps_fields n : forall self,
  _step (steps n self) = _step self + Z.of_nat n /\
  _T1 (steps n self) = _T1 self /\ _T2 (steps n self) = _T2 self /\
  _alpha (steps n self) = _alpha self.
Proof.
  induction n as [|n IH]; intros self.
  - simpl. repeat split. lia.
  - change (steps (S n) self) with (steps n (step self)).
    destruct (IH (step self)) as (H1 & H2 & H3 & H4).
    rewrite H1, H2, H3, H4. simpl. repeat split. lia.
Qed.

(** Two annealers with the same parameters, the second one at a later
    step: where both weights are defined they are in order. *)
Lemma weight_later self later v v' :
  (0 <= _alpha self)%Q ->
  _T1 later = _T1 self -> _T2 later = _T2 self -> _alpha later = _alpha self ->
  _step self <= _step later ->
  weight self = Ok v -> weight later = Ok v' -> (v <= v')%Q.
Proof.
  intros Ha E1 E2 Ea Hle Hv Hv'.
  assert (Hramp0 : forall a d : Z, 0 <= a -> 0 < d ->
            (0 <= inject_Z a / inject_Z d * _alpha self)%Q).
  { intros a d H0 Hd. apply Qmult_le_0_compat; [|exact Ha].
    rewrite <- (ramp_zero d). apply ramp_mono; assumption. }
  destruct (Z_lt_le_dec (_step self) (_T1 self)) as [H1|H1].
  - rewrite weight_below in Hv by exact H1. inversion Hv. subst v.
    destruct (Z_lt_le_dec (_step later) (_T1 later)) as [H1'|H1'].
    + rewrite weight_below in Hv' by exact H1'. inversion Hv'. apply Qle_refl.
    + destruct (Z_lt_le_dec (_T2 later) (_step later)) as [H2'|H2'].
      * rewrite weight_above in Hv' by assumption. inversion Hv'. rewrite Ea. exact Ha.
      * destruct (Z.eq_dec (_T1 later) (_T2 later)) as [He|He].
        -- rewrite weight_zero_division in Hv'; [discriminate | exact He | lia].
        -- rewrite weight_ramp in Hv' by lia. inversion Hv'. rewrite Ea.
           apply Hramp0; lia.
  - destruct (Z_lt_le_dec (_T2 self) (_step self)) as [H2|H2].
    + rewrite weight_above in Hv by assumption.
      rewrite weight_above in Hv' by lia.
      inversion Hv. inversion Hv'. rewrite Ea. apply Qle_refl.
    + destruct (Z.eq_dec (_T1 self) (_T2 self)) as [He|He].
      { rewrite weight_zero_division in Hv; [discriminate | exact He | lia]. }
      rewrite weight_ramp in Hv by lia. inversion Hv. subst v.
      destruct (Z_lt_le_dec (_T2 later) (_step later)) as [H2'|H2'].
      * rewrite weight_above in Hv' by lia. inversion Hv'. rewrite Ea.
        rewrite <- (Qmult_1_l (_alpha self)) at 2.
        apply Qmult_le_compat_r; [|exact Ha].
        rewrite <- (ramp_one (_T2 self - _T1 self)) by lia.
        apply ramp_mono; lia.
      * rewrite weight_ramp in Hv' by lia. inversion Hv'. rewrite E1, E2, Ea.
        apply Qmult_le_compat_r; [|exact Ha]. apply ramp_mono; lia.
Qed.

Lemma weight_defined self : _T1 self <> _T2 self -> exists w, weight self = Ok w.
Proof.
  intros Hne.
  destruct (Z_lt_le_dec (_step self) (_T1 self)) as [H1|H1];
    [eexists; apply weight_below; exact H1|].
  destruct (Z_lt_le_dec (_T2 self) (_step self)) as [H2|H2];
    [eexists; apply weight_above; assumption|].
  eexists. apply weight_ramp; [lia | exact Hne].
Qed.

(** C7 (amended).  For an annealer with [alpha >= 0], calling [step()]
    never decreases the weight: whenever the weight is defined before and
    after one call -- or any number of calls -- the later one is at least
    the earlier one; and with [T1 <> T2] both are defined. *)
Theorem weight_monotone self :
  (0 <= _alpha self)%Q ->
  (forall v v', weight self = Ok v -> weight (step self) = Ok v' -> (v <= v')%Q) /\
  (forall n v v',
      weight self = Ok v -> weight (steps n self) = Ok v' -> (v <= v')%Q) /\
  (_T1 self <> _T2 self ->
   exists v v', weight self = Ok v /\ weight (step self) = Ok v' /\ (v <= v')%Q).
Proof.
  intros Ha.
  assert (Hsteps : forall n v v',
             weight self = Ok v -> weight (steps n self) = Ok v' -> (v <= v')%Q).
  { intros n v v' Hv Hv'. destruct (steps_fields n self) as (H0 & H1 & H2 & H3).
    eapply weight_later; eauto. lia. }
  split; [exact (Hsteps 1%nat)|]. split; [exact Hsteps|].
  intros Hne.
  destruct (weight_defined self Hne) as (v & Hv).
  destruct (weight_defined (step self) Hne) as (v' & Hv').
  exists v, v'. split; [exact Hv|]. split; [exact Hv'|].
  exact (Hsteps 1%nat v v' Hv Hv').
Qed.

Lemma weight_monotone_witness :
  exists v v',
    weight (Examples.schedule 349) = Ok v /\
    weight (step (Examples.schedule 349)) = Ok v' /\ (v <= v')%Q.
Proof.
  apply (proj2 (proj2 (weight_monotone (Examples.schedule 349)
                         ltac:(simpl; discriminate)))).
  simpl. lia.
Defined.

(** C7 as stated does not hold for every [alpha]: with [alpha = -1.0],
    [T1 = 0] and [T2 = 10], the weight is [0] at step 0 and [-1/10] after
    one [step()]. *)
Lemma weight_decreases_for_negative_alpha :
  exists v v',
    weight Examples.falling = Ok v /\
    weight (step Examples.falling) = Ok v' /\ (v' < v)%Q.
Proof. do 2 eexists. repeat split. Qed.

End AnnealerFacts.

(** ** Indexing the pool *)

Section GetItem.
Context {item feature : Type}.
Variable item0 : item -> feature.
Implicit Types (self : UD.t item).

Lemma getitem_unfold self idx :
  UD.__getitem__ item0 idx self =
  rbind (item_at (UD._idx_mask self) idx) (fun k =>
  rbind (getitem (UD._dataset self) k) (fun it =>
    Ok (if UD.is_set (UD._label_fn self) || UD.debug self
        then UD.Whole it else UD.Component0 (item0 it)))).
Proof.
  unfold UD.__getitem__.
  destruct (UD.is_set (UD._label_fn self) || UD.debug self); reflexivity.
Qed.

(** C5 (amended).  For [0 <= i < len(pool)], on a pool that satisfies the
    mask invariant, indexing resolves [i] through the current translation
    to an absolute position [k] of the backing dataset and fetches
    [dataset[k]]; it returns that stored item whole if a labelling
    function was configured or the debug flag is set, and its component
    [0] (the feature alone) otherwise.  Over a plain backing collection
    the fetch always succeeds. *)
Theorem getitem_translated self i :
  UD.mask_invariant self -> UD.sized self ->
  0 <= i < UD.__len__ self ->
  exists k,
    item_at (UD._idx_mask self) i = Ok k /\
    0 <= k < len (UD._dataset self) /\
    UD.__getitem__ item0 i self =
      rbind (getitem (UD._dataset self) k) (fun it =>
        Ok (if UD.is_set (UD._label_fn self) || UD.debug self
            then UD.Whole it else UD.Component0 (item0 it))) /\
    (forall items, UD._dataset self = Source items ->
       exists it, getitem (UD._dataset self) k = Ok it).
Proof.
  intros Hinv Hsized Hi.
  pose proof (invariant_translation_length _ Hinv) as Hlen.
  unfold UD.__len__ in Hi.
  destruct (item_at (UD._idx_mask self) i) as [k|e] eqn:Hk.
  - assert (Hr : 0 <= k < len (UD._dataset self)).
    { apply item_at_In in Hk. destruct Hinv as [_ Htr]. rewrite Htr in Hk.
      apply nonzero_range in Hk. unfold UD.sized in Hsized. lia. }
    exists k. split; [reflexivity|]. split; [exact Hr|]. split.
    + rewrite getitem_unfold, Hk. reflexivity.
    + intros items Hsrc. rewrite Hsrc in *. simpl in *.
      destruct (item_at items k) as [it|e] eqn:E; [eauto|].
      pose proof (item_at_Raise _ _ _ E) as (-> & _).
      exfalso. eapply item_at_nonneg; eauto.
  - pose proof (item_at_Raise _ _ _ Hk) as (-> & _).
    exfalso. eapply item_at_nonneg; [|exact Hk]. lia.
Qed.

End GetItem.

(** After [label([0])] on the pool of three, logical index [1] is the
    item at absolute position [2]. *)
Lemma getitem_translated_witness :
  let self := snd (UD.label [0] Examples.pool3) in
  exists k,
    item_at (UD._idx_mask self) 1 = Ok k /\
    0 <= k < len (UD._dataset self) /\
    UD.__getitem__ fst 1 self =
      rbind (getitem (UD._dataset self) k) (fun it =>
        Ok (if UD.is_set (UD._label_fn self) || UD.debug self
            then UD.Whole it else UD.Component0 (fst it))) /\
    (forall items, UD._dataset self = Source items ->
       exists it, getitem (UD._dataset self) k = Ok it).
Proof.
  intros self.
  apply (getitem_translated fst self 1).
  - split; reflexivity.
  - reflexivity.
  - unfold UD.__len__. simpl. lia.
Defined.

(** C5 as stated does not hold.  On the self-labelled pool of three (no
    labelling function, debug flag off) indexing returns the feature
    alone, not the pair (feature, label); on the same data with a
    labelling function configured it returns the stored item whole. *)
Lemma getitem_without_label_fn_is_feature :
  UD._label_fn Examples.pool3 = None /\
  UD.debug Examples.pool3 = false /\
  UD.__getitem__ fst 0 Examples.pool3 = Ok (UD.Component0 10) /\
  UD.__getitem__ fst 0 Examples.pool3 <> Ok (UD.Whole (10, 0)) /\
  UD.__getitem__ fst 0 Examples.pool3_oracle = Ok (UD.Whole (10, 0)).
Proof. repeat split. discriminate. Qed.

(** ** The scoped debug toggle *)

Section TrueLabels.
Context {item feature : Type}.
Variable item0 : item -> feature.
Implicit Types (self : UD.t item) (s : UD.stmt).

(** Whatever a block does, it hands the flag back as it found it. *)
Lemma exec_restores_debug s : forall self l self',
  UD.exec item0 s self = (Ok l, self') -> UD.debug self' = UD.debug self.
Proof.
  induction s as [| idx | idxs | | s1 IH1 s2 IH2 | body IH]; intros self l self' H;
    simpl in H.
  - inversion H. reflexivity.
  - unfold bind, get, lift, ret in H.
    destruct (UD.__getitem__ item0 idx self); inversion H. reflexivity.
  - unfold bind, ret in H.
    destruct (UD.label idxs self) as [[d|e] u] eqn:E; inversion H. subst.
    apply label_translation in E. apply E.
  - inversion H. reflexivity.
  - unfold bind, ret in H.
    destruct (UD.exec item0 s1 self) as [[l1|e] u1] eqn:E1; [|discriminate].
    destruct (UD.exec item0 s2 u1) as [[l2|e] u2] eqn:E2; inversion H. subst.
    rewrite (IH2 _ _ _ E2). eapply IH1; eauto.
  - unfold UD.true_labels_enter in H. destruct (UD.debug self) eqn:D.
    + destruct (UD.exec item0 body self) as [[l0|e] u] eqn:E; inversion H. subst.
      simpl. rewrite (IH _ _ _ E). exact D.
    + destruct (UD.exec item0 body (UD.with_debug self true)) as [[l0|e] u] eqn:E;
        inversion H. reflexivity.
Qed.

(** With the flag set, every index operation of a block yields the
    stored item whole. *)
Lemma exec_debug_whole s : forall self l self',
  UD.debug self = true ->
  UD.exec item0 s self = (Ok l, self') -> Forall UD.whole l.
Proof.
  induction s as [| idx | idxs | | s1 IH1 s2 IH2 | body IH]; intros self l self' D H;
    simpl in H.
  - inversion H. constructor.
  - unfold bind, get, lift, ret in H. rewrite getitem_unfold, D, orb_true_r in H.
    destruct (item_at (UD._idx_mask self) idx) as [k|e]; [|discriminate]. simpl in H.
    destruct (getitem (UD._dataset self) k) as [it|e]; [|discriminate]. simpl in H.
    inversion H. repeat constructor. exists it. reflexivity.
  - unfold bind, ret in H.
    destruct (UD.label idxs self) as [[d|e] u]; inversion H. constructor.
  - inversion H. constructor.
  - unfold bind, ret in H.
    destruct (UD.exec item0 s1 self) as [[l1|e] u1] eqn:E1; [|discriminate].
    destruct (UD.exec item0 s2 u1) as [[l2|e] u2] eqn:E2; inversion H. subst.
    apply Forall_app. split; [eapply IH1; eauto|].
    eapply IH2; [|exact E2]. rewrite (exec_restores_debug _ _ _ _ E1). exact D.
  - unfold UD.true_labels_enter in H. rewrite D in H.
    destruct (UD.exec item0 body self) as [[l0|e] u] eqn:E; inversion H. subst.
    eapply IH; eauto.
Qed.

(** C8.  Entering [true_labels] sets the debug flag; while the block
    runs, every index operation -- at any depth of nested [true_labels]
    blocks -- yields the stored item whole, that is (feature, label) on a
    self-labelled pool; and when the block completes without raising,
    the flag has the value it had before the block was entered,
    whichever of [True] and [False] it was. *)
Theorem true_labels_restores body self :
  UD.debug (snd (UD.true_labels_enter self)) = true /\
  UD.debug (UD.true_labels_exit (fst (UD.true_labels_enter self))
              (snd (UD.true_labels_enter self))) = UD.debug self /\
  (forall l self',
      UD.exec item0 (UD.With_true_labels body) self = (Ok l, self') ->
      UD.debug self' = UD.debug self /\ Forall UD.whole l).
Proof.
  split; [|split].
  - unfold UD.true_labels_enter. destruct (UD.debug self) eqn:D; [exact D | reflexivity].
  - unfold UD.true_labels_enter. destruct (UD.debug self) eqn:D; [exact D | reflexivity].
  - intros l self' H. split; [eapply exec_restores_debug; eauto|].
    simpl in H. unfold UD.true_labels_enter in H. destruct (UD.debug self) eqn:D.
    + destruct (UD.exec item0 body self) as [[l0|e] u] eqn:E; inversion H. subst.
      eapply exec_debug_whole; eauto.
    + destruct (UD.exec item0 body (UD.with_debug self true)) as [[l0|e] u] eqn:E;
        inversion H. subst.
      eapply exec_debug_whole; [|exact E]. reflexivity.
Qed.

End TrueLabels.

(** Two nested scopes around index operations and a [label] call, entered
    with the flag off. *)
Lemma true_labels_restores_witness :
  let body := UD.Seq (UD.Index 0)
                (UD.Seq (UD.With_true_labels (UD.Seq (UD.Label [0]) (UD.Index 0)))
                        (UD.Index 1)) in
  let run := UD.exec fst (UD.With_true_labels body) Examples.pool3 in
  fst run = Ok [UD.Whole (10, 0); UD.Whole (20, 1); UD.Whole (30, 0)] /\
  UD.debug (snd run) = UD.debug Examples.pool3 /\
  Forall (UD.whole (feature := Z)) [UD.Whole (10, 0); UD.Whole (20, 1); UD.Whole (30, 0)].
Proof.
  intros body run. split; [reflexivity|].
  apply (proj2 (proj2 (true_labels_restores fst body Examples.pool3))).
  reflexivity.
Defined.

(** C8 as stated fails when the scope is left by an exception.  On the
    pool of three, entered with the flag off, the block [pool[3]] raises
    [IndexError]; the generator is not resumed, and the flag stays set. *)
Lemma true_labels_raise_leaves_flag_set :
  let run := UD.exec fst (UD.With_true_labels (UD.Index 3)) Examples.pool3 in
  UD.debug Examples.pool3 = false /\
  fst run = Raise IndexError /\
  UD.debug (snd run) = true /\
  UD.debug (snd run) <> UD.debug Examples.pool3.
Proof.
  simpl. repeat split. discriminate.
Qed.

(** ** The mask invariant under a repeated index *)

(** C6 at the failing input.  The fresh pool of three satisfies the mask
    invariant.  [label([0, 0])] returns; afterwards the mask has two
    [True] bits and the translation lists them, but the reported length
    is one: the invariant is broken. *)
Theorem label_duplicate_breaks_invariant :
  let self' := snd (UD.label [0; 0] Examples.pool3) in
  UD.mask_invariant Examples.pool3 /\
  fst (UD.label [0; 0] Examples.pool3) = Ok (Subset Examples.pool3_data [0; 0]) /\
  UD._mask self' = [false; true; true] /\
  UD._idx_mask self' = nonzero (UD._mask self') /\
  popcount (UD._mask self') = 2 /\
  UD.__len__ self' = 1 /\
  ~ UD.mask_invariant self'.
Proof.
  simpl. repeat split.
  intros [H _]. vm_compute in H. discriminate.
Qed.

(** ** The max-entropy acquisition function *)

Section ListFacts.
Context {B : Type}.

Lemma take_app (t : list B) (l1 l2 : list Z) s :
  take t (l1 ++ l2) = Ok s ->
  exists s1 s2, take t l1 = Ok s1 /\ take t l2 = Ok s2 /\ s = s1 ++ s2.
Proof.
  revert s. induction l1 as [|i l1 IH]; intros s H.
  - exists [], s. auto.
  - rewrite <- app_comm_cons in H.
    apply take_cons_Ok in H as (a & l' & Ha & H & ->).
    destruct (IH _ H) as (s1 & s2 & H1 & H2 & ->).
    exists (a :: s1), s2. repeat split; auto.
    apply take_cons_Ok. eauto.
Qed.

Lemma StronglySorted_app (R : B -> B -> Prop) (l1 l2 : list B) :
  StronglySorted R (l1 ++ l2) ->
  StronglySorted R l1 /\ forall x y, In x l1 -> In y l2 -> R x y.
Proof.
  induction l1 as [|a l1 IH]; simpl; intros H.
  - split; [constructor | intros x y []].
  - inversion H as [|? ? Hs Hall]; subst. destruct (IH Hs) as [Hs1 Hcross].
    rewrite Forall_app in Hall. destruct Hall as [Hall1 Hall2].
    split; [constructor; assumption|].
    intros x y [<- | Hx] Hy; [|auto].
    rewrite Forall_forall in Hall2. auto.
Qed.

End ListFacts.

Lemma arange_In n p : In p (arange n) <-> 0 <= p < n.
Proof.
  unfold arange. rewrite in_map_iff. split.
  - intros (j & <- & Hj). apply in_seq in Hj. lia.
  - intros H. exists (Z.to_nat p). split; [lia|]. apply in_seq. lia.
Qed.

Lemma arange_length n : 0 <= n -> Z.of_nat (length (arange n)) = n.
Proof. intros H. unfold arange. rewrite length_map, length_seq. lia. Qed.

Lemma arange_NoDup n : NoDup (arange n).
Proof.
  unfold arange. apply Injective_map_NoDup; [|apply seq_NoDup].
  intros x y. apply Nat2Z.inj.
Qed.

Lemma NoDup_firstn {B} (k : nat) (l : list B) : NoDup l -> NoDup (firstn k l).
Proof.
  intros H. rewrite <- (firstn_skipn k l) in H. eapply NoDup_app_remove_r, H.
Qed.

Section MaxEntFacts.
Context {item feature F : Type}.
Variable item0 : item -> feature.
Variables (fexp fneg : F -> F) (fmul fadd : F -> F -> F) (fzero : F).
Variable isfinite : F -> bool.
Variable argsort_descending : list F -> list Z.
(** The order [<=] of the scores. *)
Variable fle : F -> F -> bool.

Local Abbreviation call :=
  (MaxEnt.__call__ item0 fexp fneg fmul fadd fzero isfinite argsort_descending)
  (only parsing).
Local Abbreviation entropy_of preds :=
  (map (MaxEnt.row_entropy fexp fneg fmul fadd fzero) (MaxEnt.rows preds))
  (only parsing).

(** C9.  Let the pool view have size [n], let [0 <= b <= n], and let the
    inference stage return [n] rows of predictions (on an empty pool it
    never does).
    - If every entropy is finite and [argsort] answers a descending
      ordering of the entropy vector, the call returns exactly [b] logical
      indices, pairwise distinct, each in [[0, n)], along which the
      entropies never increase; every position left out scores no more
      than any position returned (a top-[b]); and [recent_score] holds
      the entropy of all [n] items.
    - If some entropy is not finite, the call raises (the assertion on
      finiteness) and [recent_score] is not touched. *)
Theorem maxent_top_b (self : MaxEnt.t item feature F) (X_pool : UD.t item)
    (b n : Z) batches preds_N_C :
  len_builtin (UD.__len__ X_pool) = Ok n ->
  0 <= b <= n ->
  MaxEnt.predict item0 self X_pool n = Ok batches ->
  MaxEnt.cat batches = Ok preds_N_C ->
  MaxEnt.shape0 preds_N_C = n ->
  (forallb isfinite (entropy_of preds_N_C) = true ->
   MaxEnt.argsort_contract fle (entropy_of preds_N_C)
     (argsort_descending (entropy_of preds_N_C)) ->
   exists result scores self',
     call X_pool b self = (Ok result, self') /\
     Z.of_nat (length result) = b /\
     NoDup result /\
     Forall (fun i => 0 <= i < n) result /\
     take (entropy_of preds_N_C) result = Ok scores /\
     StronglySorted (fun x y => fle y x = true) scores /\
     (forall i j si sj,
         In i result -> 0 <= j < n -> ~ In j result ->
         item_at (entropy_of preds_N_C) i = Ok si ->
         item_at (entropy_of preds_N_C) j = Ok sj ->
         fle sj si = true) /\
     MaxEnt.recent_score self' = Some (entropy_of preds_N_C) /\
     Z.of_nat (length (entropy_of preds_N_C)) = n) /\
  (forallb isfinite (entropy_of preds_N_C) = false ->
   call X_pool b self = (Raise (AssertionError Finite_entropy), self)).
Proof.
  intros Hn Hb Hpred Hcat Hrows.
  set (entropy := entropy_of preds_N_C) in *.
  set (perm := argsort_descending entropy) in *.
  assert (Hlen : Z.of_nat (length entropy) = n).
  { unfold entropy. rewrite length_map. exact Hrows. }
  split.
  - intros Hfin (Hperm & sorted & Htake & Hsorted).
    rewrite Hlen in Hperm.
    assert (Hcall : call X_pool b self =
                    (Ok (slice_to perm b), MaxEnt.with_recent_score self entropy)).
    { unfold MaxEnt.__call__, bind, get, lift, assert_, put, ret.
      rewrite Hn, Hpred, Hcat.
      apply Z.eqb_eq in Hrows. rewrite Hrows.
      fold entropy. rewrite Hfin.
      apply Z.eqb_eq in Hlen. rewrite Hlen. reflexivity. }
    assert (Hslice : slice_to perm b = firstn (Z.to_nat b) perm).
    { unfold slice_to. destruct (0 <=? b) eqn:E; [reflexivity|].
      apply Z.leb_gt in E. lia. }
    rewrite Hslice in Hcall.
    assert (Hplen : Z.of_nat (length perm) = n).
    { rewrite (Permutation_length Hperm). apply arange_length. lia. }
    pose proof (firstn_skipn (Z.to_nat b) perm) as Hsplit.
    rewrite <- Hsplit in Htake.
    destruct (take_app _ _ _ _ Htake) as (s1 & s2 & Ht1 & Ht2 & ->).
    destruct (StronglySorted_app _ _ _ Hsorted) as [Hs1 Hcross].
    exists (firstn (Z.to_nat b) perm), s1, (MaxEnt.with_recent_score self entropy).
    split; [exact Hcall|].
    split; [rewrite length_firstn; lia|].
    split.
    { apply NoDup_firstn. eapply Permutation_NoDup;
        [apply Permutation_sym; exact Hperm | apply arange_NoDup]. }
    split.
    { apply Forall_forall. intros i Hi. apply arange_In.
      eapply Permutation_in; [exact Hperm|].
      rewrite <- Hsplit. apply in_or_app. left. exact Hi. }
    split; [exact Ht1|]. split; [exact Hs1|].
    split; [|split; [reflexivity | exact Hlen]].
    intros i j si sj Hi Hj Hnj Hsi Hsj.
    assert (Hjs : In j (skipn (Z.to_nat b) perm)).
    { assert (Hjp : In j perm).
      { eapply Permutation_in; [apply Permutation_sym; exact Hperm|].
        apply arange_In. exact Hj. }
      rewrite <- Hsplit in Hjp. apply in_app_or in Hjp. tauto. }
    destruct (take_In _ _ _ _ Ht1 Hi) as (x & Hx & Hx1).
    destruct (take_In _ _ _ _ Ht2 Hjs) as (y & Hy & Hy2).
    assert (x = si) by congruence. assert (y = sj) by congruence. subst.
    apply Hcross; assumption.
  - intros Hfin.
    unfold MaxEnt.__call__, bind, get, lift, assert_, put, ret.
    rewrite Hn, Hpred, Hcat.
    apply Z.eqb_eq in Hrows. rewrite Hrows.
    fold entropy. rewrite Hfin. reflexivity.
Qed.

End MaxEntFacts.

(** *** The reference [argsort] meets the contract *)

Section ArgsortReference.
Context {F : Type}.
Variable fle : F -> F -> bool.
Hypothesis fle_trans : forall x y z, fle x y = true -> fle y z = true -> fle x z = true.

Local Abbreviation above := (fun p q : Z * F => fle (snd q) (snd p) = true) (only parsing).

Lemma insert_desc_perm (p : Z * F) l :
  Permutation (MaxEnt.insert_desc fle p l) (p :: l).
Proof.
  induction l as [|q l IH]; simpl; [apply Permutation_refl|].
  destruct (fle (snd q) (snd p)); [apply Permutation_refl|].
  eapply perm_trans; [apply perm_skip, IH | apply perm_swap].
Qed.

Lemma insertion_perm (ps : list (Z * F)) :
  Permutation (fold_right (MaxEnt.insert_desc fle) [] ps) ps.
Proof.
  induction ps as [|p ps IH]; simpl; [constructor|].
  eapply perm_trans; [apply insert_desc_perm | apply perm_skip, IH].
Qed.

Lemma insert_desc_sorted (p : Z * F) l :
  (forall q, In q l -> fle (snd p) (snd q) = true \/ fle (snd q) (snd p) = true) ->
  StronglySorted above l ->
  StronglySorted above (MaxEnt.insert_desc fle p l).
Proof.
  induction l as [|q l IH]; intros Htot Hs; simpl.
  - repeat constructor.
  - inversion Hs as [|? ? Hs' Hall]; subst.
    destruct (fle (snd q) (snd p)) eqn:E.
    + constructor; [exact Hs|]. constructor; [exact E|].
      rewrite Forall_forall in *. intros x Hx. eapply fle_trans; [apply Hall, Hx | exact E].
    + constructor.
      * apply IH; [|exact Hs']. intros x Hx. apply Htot. right. exact Hx.
      * rewrite Forall_forall in *. intros x Hx.
        apply (Permutation_in _ (insert_desc_perm p l)) in Hx.
        destruct Hx as [<- | Hx]; [|apply Hall, Hx].
        destruct (Htot q (or_introl eq_refl)) as [H|H]; [exact H | congruence].
Qed.

Lemma insertion_sorted (ps : list (Z * F)) :
  (forall p q, In p ps -> In q ps ->
     fle (snd p) (snd q) = true \/ fle (snd q) (snd p) = true) ->
  StronglySorted above (fold_right (MaxEnt.insert_desc fle) [] ps).
Proof.
  induction ps as [|p ps IH]; intros Htot; simpl; [constructor|].
  apply insert_desc_sorted.
  - intros q Hq. apply (Permutation_in _ (insertion_perm ps)) in Hq.
    apply Htot; [left; reflexivity | right; exact Hq].
  - apply IH. intros x y Hx Hy. apply Htot; right; assumption.
Qed.

Lemma combine_arange_In (l : list F) : forall k i s,
  In (i, s) (combine (map Z.of_nat (seq k (length l))) l) ->
  exists j, i = Z.of_nat (k + j) /\ nth_error l j = Some s.
Proof.
  induction l as [|a l IH]; intros k i s H; simpl in H; [destruct H|].
  destruct H as [H | H].
  - inversion H. subst. exists O. split; [f_equal; lia | reflexivity].
  - apply IH in H as (j & -> & Hj). exists (S j). split; [f_equal; lia | exact Hj].
Qed.

Lemma enumerate_lookup (scores : list F) :
  Forall (fun p => item_at scores (fst p) = Ok (snd p)) (MaxEnt.enumerate scores).
Proof.
  apply Forall_forall. intros [i s] H. unfold MaxEnt.enumerate, arange in H.
  rewrite Nat2Z.id in H. apply combine_arange_In in H as (j & -> & Hj). simpl.
  apply item_at_Ok. exists j. split; [|exact Hj].
  rewrite norm_index_nonneg, Nat2Z.id; [reflexivity|].
  assert (j < length scores)%nat by (apply nth_error_Some; congruence). lia.
Qed.

Lemma combine_fst {B C} (l : list B) : forall (l' : list C),
  length l = length l' -> map fst (combine l l') = l.
Proof.
  induction l as [|a l IH]; intros [|b l'] H; simpl in *; try reflexivity;
    try discriminate.
  f_equal. apply IH. lia.
Qed.

Lemma enumerate_fst (scores : list F) :
  map fst (MaxEnt.enumerate scores) = arange (Z.of_nat (length scores)).
Proof.
  unfold MaxEnt.enumerate. apply combine_fst.
  unfold arange. rewrite length_map, length_seq, Nat2Z.id. reflexivity.
Qed.

Lemma enumerate_snd (scores : list F) p :
  In p (MaxEnt.enumerate scores) -> In (snd p) scores.
Proof.
  destruct p as [i s]. unfold MaxEnt.enumerate. intros H.
  eapply in_combine_r, H.
Qed.

Lemma take_pairs (scores : list F) (ps : list (Z * F)) :
  Forall (fun p => item_at scores (fst p) = Ok (snd p)) ps ->
  take scores (map fst ps) = Ok (map snd ps).
Proof.
  induction 1 as [|p ps Hp _ IH]; simpl; [reflexivity|].
  rewrite Hp, IH. reflexivity.
Qed.

Lemma sorted_pairs_scores (ps : list (Z * F)) :
  StronglySorted above ps ->
  StronglySorted (fun x y => fle y x = true) (map snd ps).
Proof.
  induction 1 as [|p ps _ IH Hall]; simpl; constructor; [exact IH|].
  rewrite Forall_forall in *. intros y Hy.
  apply in_map_iff in Hy as (q & <- & Hq). apply Hall, Hq.
Qed.

(** On scores that are pairwise comparable, the reference [argsort]
    answers a descending ordering. *)
Lemma argsort_reference_contract (scores : list F) :
  (forall x y, In x scores -> In y scores -> fle x y = true \/ fle y x = true) ->
  MaxEnt.argsort_contract fle scores (MaxEnt.argsort_reference fle scores).
Proof.
  intros Htot. unfold MaxEnt.argsort_contract, MaxEnt.argsort_reference.
  set (sorted := fold_right (MaxEnt.insert_desc fle) [] (MaxEnt.enumerate scores)).
  pose proof (insertion_perm (MaxEnt.enumerate scores)) as Hperm. fold sorted in Hperm.
  split.
  - rewrite <- enumerate_fst. apply Permutation_map. exact Hperm.
  - exists (map snd sorted). split.
    + apply take_pairs.
      eapply Permutation_Forall; [apply Permutation_sym; exact Hperm|].
      apply enumerate_lookup.
    + apply sorted_pairs_scores. apply insertion_sorted.
      intros p q Hp Hq. apply Htot; apply enumerate_snd; assumption.
Qed.

End ArgsortReference.

Lemma num_le_trans (x y z : Examples.num) :
  Examples.num_le x y = true -> Examples.num_le y z = true ->
  Examples.num_le x z = true.
Proof.
  destruct x as [a|], y as [b|], z as [c|]; simpl; try discriminate.
  rewrite !Qle_bool_iff. apply Qle_trans.
Qed.

Lemma num_le_total (x y : Examples.num) :
  Examples.num_isfinite x = true -> Examples.num_isfinite y = true ->
  Examples.num_le x y = true \/ Examples.num_le y x = true.
Proof.
  destruct x as [a|], y as [b|]; simpl; try discriminate. intros _ _.
  rewrite !Qle_bool_iff. destruct (Qlt_le_dec a b) as [H|H]; [left|right]; auto.
  apply Qlt_le_weak. exact H.
Qed.

Lemma num_argsort_contract (scores : list Examples.num) :
  forallb Examples.num_isfinite scores = true ->
  MaxEnt.argsort_contract Examples.num_le scores
    (MaxEnt.argsort_reference Examples.num_le scores).
Proof.
  intros Hfin. apply argsort_reference_contract; [exact num_le_trans|].
  rewrite forallb_forall in Hfin. intros x y Hx Hy. apply num_le_total; auto.
Qed.

(** [MaxEnt] on the pool of three, two items asked for: the entropies are
    7/4, 2 and 7/4 bits, and the items at logical indices 1 and 0 are
    chosen.  With a classifier that overflows on the third item the call
    is refused. *)
Lemma maxent_top_b_witness :
  let entropy :=
    map (MaxEnt.row_entropy Examples.num_exp Examples.num_neg Examples.num_mul
           Examples.num_add Examples.num_zero)
        (map Examples.classify [UD.Component0 10; UD.Component0 20; UD.Component0 30]) in
  (exists result scores self',
      Examples.maxent_call Examples.pool3 2 (Examples.maxent Examples.classify) =
        (Ok result, self') /\
      Z.of_nat (length result) = 2 /\
      NoDup result /\
      Forall (fun i => 0 <= i < 3) result /\
      take entropy result = Ok scores /\
      StronglySorted (fun x y => Examples.num_le y x = true) scores /\
      (forall i j si sj,
          In i result -> 0 <= j < 3 -> ~ In j result ->
          item_at entropy i = Ok si -> item_at entropy j = Ok sj ->
          Examples.num_le sj si = true) /\
      MaxEnt.recent_score self' = Some entropy /\
      Z.of_nat (length entropy) = 3) /\
  Examples.maxent_call Examples.pool3 2 (Examples.maxent Examples.classify_overflow) =
    (Raise (AssertionError Finite_entropy), Examples.maxent Examples.classify_overflow).
Proof.
  intros entropy. split.
  - refine (proj1 (maxent_top_b fst Examples.num_exp Examples.num_neg Examples.num_mul
                     Examples.num_add Examples.num_zero Examples.num_isfinite
                     (MaxEnt.argsort_reference Examples.num_le) Examples.num_le
                     (Examples.maxent Examples.classify) Examples.pool3 2 3
                     _ _ eq_refl _ eq_refl eq_refl eq_refl) eq_refl _).
    + lia.
    + apply num_argsort_contract. reflexivity.
  - refine (proj2 (maxent_top_b fst Examples.num_exp Examples.num_neg Examples.num_mul
                     Examples.num_add Examples.num_zero Examples.num_isfinite
                     (MaxEnt.argsort_reference Examples.num_le) Examples.num_le
                     (Examples.maxent Examples.classify_overflow) Examples.pool3 2 3
                     _ _ eq_refl _ eq_refl eq_refl eq_refl) eq_refl).
    lia.
Defined.

Example maxent_selects :
  fst (Examples.maxent_call Examples.pool3 2 (Examples.maxent Examples.classify))
  = Ok [1; 0].
Proof. reflexivity. Qed.

(** C9 as stated fails on an empty pool and for a negative [b].  With
    nothing in the pool ([n = 0], [b = 0]) the loader yields no batch,
    [torch.cat] raises, and nothing is returned.  On the pool of three,
    [b = -1] is below [n] and the call returns two indices. *)
Lemma maxent_fails_on_empty_pool :
  UD.__len__ Examples.pool0 = 0 /\
  Examples.maxent_call Examples.pool0 0 (Examples.maxent Examples.classify)
  = (Raise RuntimeError, Examples.maxent Examples.classify) /\
  UD.__len__ Examples.pool3 = 3 /\
  fst (Examples.maxent_call Examples.pool3 (-1) (Examples.maxent Examples.classify))
  = Ok [1; 0].
Proof. repeat split. Qed.

(** *** The inference stage returns one row per pool item *)

Section Inference.
Context {item feature F : Type}.
Variable item0 : item -> feature.

Lemma chunks_fuel_concat {B} (k : nat) : forall fuel (l : list B),
  (0 < k)%nat -> (length l <= fuel)%nat ->
  concat (MaxEnt.chunks_fuel fuel k l) = l.
Proof.
  induction fuel as [|fuel IH]; intros l Hk Hlen.
  - destruct l; [reflexivity | simpl in Hlen; lia].
  - destruct l as [|a l]; [reflexivity|].
    change (MaxEnt.chunks_fuel (S fuel) k (a :: l))
      with (firstn k (a :: l) :: MaxEnt.chunks_fuel fuel k (skipn k (a :: l))).
    simpl concat. rewrite IH; [apply firstn_skipn | exact Hk |].
    rewrite length_skipn. cbn [length] in *. lia.
Qed.

(** The fuel of [chunks] is enough: the batches cover the whole list. *)
Lemma chunks_concat {B} (k : nat) (l : list B) :
  (0 < k)%nat -> concat (MaxEnt.chunks k l) = l.
Proof. intros Hk. apply chunks_fuel_concat; [exact Hk | lia]. Qed.

Lemma mapM_total {B C} (f : B -> result C) (l : list B) :
  (forall x, In x l -> exists y, f x = Ok y) ->
  exists ys, MaxEnt.mapM f l = Ok ys /\ length ys = length l.
Proof.
  induction l as [|x l IH]; intros H; simpl.
  - exists []. auto.
  - destruct (H x (or_introl eq_refl)) as (y & Hy).
    destruct IH as (ys & Hys & Hlen); [intros z Hz; apply H; right; exact Hz|].
    rewrite Hy, Hys. simpl. exists (y :: ys). simpl. auto.
Qed.

Lemma mapM_rows {B C} (g : list B -> result (list C)) (cs : list (list B)) :
  (forall c, In c cs -> exists rows, g c = Ok rows /\ length rows = length c) ->
  exists bs, MaxEnt.mapM g cs = Ok bs /\
    length bs = length cs /\ length (concat bs) = length (concat cs).
Proof.
  induction cs as [|c cs IH]; intros H; simpl.
  - exists []. auto.
  - destruct (H c (or_introl eq_refl)) as (rows & Hrows & Hlen).
    destruct IH as (bs & Hbs & Hl1 & Hl2); [intros z Hz; apply H; right; exact Hz|].
    rewrite Hrows, Hbs. simpl. exists (rows :: bs). simpl.
    rewrite !length_app, Hlen, Hl1, Hl2. auto.
Qed.

Lemma mapM_Ok_cons {B C} (f : B -> result C) x l ys :
  MaxEnt.mapM f (x :: l) = Ok ys ->
  exists y ys', f x = Ok y /\ MaxEnt.mapM f l = Ok ys' /\ ys = y :: ys'.
Proof.
  simpl. destruct (f x) as [y|e]; [|discriminate]. simpl.
  destruct (MaxEnt.mapM f l) as [ys'|e]; [|discriminate]. simpl.
  intros H. inversion H. eauto.
Qed.

Lemma mapM_length {B C} (f : B -> result C) l : forall ys,
  MaxEnt.mapM f l = Ok ys -> length ys = length l.
Proof.
  induction l as [|x l IH]; intros ys H.
  - inversion H. reflexivity.
  - apply mapM_Ok_cons in H as (y & ys' & _ & H & ->). simpl. f_equal. auto.
Qed.

Lemma mapM_firstn_skipn {B C} (f : B -> result C) (k : nat) : forall l ys,
  MaxEnt.mapM f l = Ok ys ->
  MaxEnt.mapM f (firstn k l) = Ok (firstn k ys) /\
  MaxEnt.mapM f (skipn k l) = Ok (skipn k ys).
Proof.
  induction k as [|k IH]; intros l ys H; [split; [reflexivity | exact H]|].
  destruct l as [|x l].
  - inversion H. split; reflexivity.
  - apply mapM_Ok_cons in H as (y & ys' & Hy & H & ->).
    destruct (IH _ _ H) as [H1 H2]. split; [|exact H2].
    simpl. rewrite Hy. simpl. rewrite H1. reflexivity.
Qed.

(** Reading the batches of a list is reading the list and cutting the
    result into batches. *)
Lemma mapM_chunks {B C} (f : B -> result C) (k : nat) : forall fuel l ys,
  MaxEnt.mapM f l = Ok ys ->
  MaxEnt.mapM (MaxEnt.mapM f) (MaxEnt.chunks_fuel fuel k l)
  = Ok (MaxEnt.chunks_fuel fuel k ys).
Proof.
  induction fuel as [|fuel IH]; intros l ys H; [reflexivity|].
  destruct l as [|x l].
  - inversion H. reflexivity.
  - pose proof (mapM_firstn_skipn f k _ _ H) as [H1 H2].
    apply mapM_Ok_cons in H as (y & ys' & _ & _ & ->).
    change (MaxEnt.chunks_fuel (S fuel) k (x :: l))
      with (firstn k (x :: l) :: MaxEnt.chunks_fuel fuel k (skipn k (x :: l))).
    change (MaxEnt.chunks_fuel (S fuel) k (y :: ys'))
      with (firstn k (y :: ys') :: MaxEnt.chunks_fuel fuel k (skipn k (y :: ys'))).
    cbn [MaxEnt.mapM]. rewrite H1. cbn [rbind].
    rewrite (IH _ _ H2). reflexivity.
Qed.

Lemma mapM_rbind {B C D} (f : B -> result C) (h : C -> result D) : forall l ys,
  MaxEnt.mapM f l = Ok ys ->
  MaxEnt.mapM (fun x => rbind (f x) h) l = MaxEnt.mapM h ys.
Proof.
  induction l as [|x l IH]; intros ys H.
  - inversion H. reflexivity.
  - apply mapM_Ok_cons in H as (y & ys' & Hy & H & ->).
    simpl. rewrite Hy. simpl. rewrite (IH _ H). reflexivity.
Qed.

Lemma chunks_fuel_sizes {B} (k : nat) : forall fuel (l : list B),
  (0 < k)%nat ->
  Forall (fun c => (0 < length c <= k)%nat) (MaxEnt.chunks_fuel fuel k l).
Proof.
  induction fuel as [|fuel IH]; intros l Hk; [constructor|].
  destruct l as [|a l]; [constructor|].
  change (MaxEnt.chunks_fuel (S fuel) k (a :: l))
    with (firstn k (a :: l) :: MaxEnt.chunks_fuel fuel k (skipn k (a :: l))).
  constructor; [|apply IH, Hk].
  rewrite length_firstn. cbn [length]. lia.
Qed.

(** Tensors of one width can be joined, and the rows add up. *)
Lemma cat_same_width (C : nat) (l : list (MaxEnt.tensor2 F)) :
  l <> [] ->
  Forall (fun x => MaxEnt.ncols x = C /\ MaxEnt.rectangular x = true) l ->
  MaxEnt.cat l = Ok (MaxEnt.Tensor2 C (concat (map MaxEnt.rows l))).
Proof.
  intros Hne Hall. destruct l as [|x l]; [congruence|].
  unfold MaxEnt.cat.
  assert (Hx : MaxEnt.ncols x = C) by (inversion Hall as [|? ? [H _] _]; exact H).
  rewrite Hx.
  assert (Hb : forallb (fun y => MaxEnt.rectangular y && (MaxEnt.ncols y =? C)%nat)
                 (x :: l) = true).
  { apply forallb_forall. intros y Hy. rewrite Forall_forall in Hall.
    destruct (Hall y Hy) as [H1 H2]. rewrite H2. simpl. apply Nat.eqb_eq. exact H1. }
  rewrite Hb. reflexivity.
Qed.

Lemma mapM_Forall {B C} (f : B -> result C) (P : C -> Prop) (l : list B) : forall ys,
  (forall x y, f x = Ok y -> P y) ->
  MaxEnt.mapM f l = Ok ys -> Forall P ys.
Proof.
  induction l as [|x l IH]; intros ys HP H.
  - inversion H. constructor.
  - apply mapM_Ok_cons in H as (y & ys' & Hy & H & ->).
    constructor; [eapply HP; eauto | apply IH; auto].
Qed.

(** X22.  The inference stage on a plain loader: [batch_size=k] and no
    other batching argument, and a device, if any, that hands back the
    batch moved to it.  On a pool of [n > 0] items that can all be
    indexed, with a prediction function that answers one row of [C]
    columns per item of its batch, the items of the pool are read in pool order,
    cut into consecutive batches of at most [k] items that put together
    give the pool back, the prediction function is applied to each
    batch in turn, and the joined predictions have [n] rows: the
    assertion on the number of rows cannot fail. *)
Lemma inference_returns (self : MaxEnt.t item feature F) (X_pool : UD.t item)
    (n : Z) (C : nat) :
  0 < MaxEnt.batch_size (MaxEnt._dl_params self) ->
  MaxEnt.drop_last (MaxEnt._dl_params self) = false ->
  MaxEnt.sampler (MaxEnt._dl_params self) = None ->
  MaxEnt.batch_sampler (MaxEnt._dl_params self) = None ->
  MaxEnt.collate_fn (MaxEnt._dl_params self) = None ->
  (forall to_device, MaxEnt._device self = Some to_device ->
                     forall x, to_device x = Ok x) ->
  0 < n ->
  (forall i, 0 <= i < n -> exists x, UD.__getitem__ item0 i X_pool = Ok x) ->
  (forall batch, exists preds,
      MaxEnt._pred_fn self batch = Ok preds /\
      MaxEnt.ncols preds = C /\ MaxEnt.rectangular preds = true /\
      length (MaxEnt.rows preds) = length batch) ->
  exists samples batches preds_N_C,
    MaxEnt.mapM (fun i => UD.__getitem__ item0 i X_pool) (arange n) = Ok samples /\
    concat (MaxEnt.chunks (Z.to_nat (MaxEnt.batch_size (MaxEnt._dl_params self)))
              samples) = samples /\
    Forall (fun x => (0 < length x
                      <= Z.to_nat (MaxEnt.batch_size (MaxEnt._dl_params self)))%nat)
      (MaxEnt.chunks (Z.to_nat (MaxEnt.batch_size (MaxEnt._dl_params self))) samples) /\
    MaxEnt.mapM (MaxEnt._pred_fn self)
      (MaxEnt.chunks (Z.to_nat (MaxEnt.batch_size (MaxEnt._dl_params self))) samples)
    = Ok batches /\
    MaxEnt.predict item0 self X_pool n = Ok batches /\
    MaxEnt.cat batches = Ok preds_N_C /\
    MaxEnt.shape0 preds_N_C = n.
Proof.
  intros Hbs Hdrop Hsampler Hbsampler Hcollate Hdev Hn Hget Hpred.
  set (k := Z.to_nat (MaxEnt.batch_size (MaxEnt._dl_params self))).
  assert (Hk : (0 < k)%nat) by (unfold k; lia).
  destruct (mapM_total (fun i => UD.__getitem__ item0 i X_pool) (arange n))
    as (samples & Hsamples & Hslen).
  { intros i Hi. apply Hget. apply arange_In. exact Hi. }
  assert (Hsn : Z.of_nat (length samples) = n)
    by (rewrite Hslen; apply arange_length; lia).
  destruct (mapM_rows (fun x => rbind (MaxEnt._pred_fn self x)
                                      (fun preds => Ok (MaxEnt.rows preds)))
              (MaxEnt.chunks k samples)) as (rws & Hrws & Hl1 & Hl2).
  { intros c _. destruct (Hpred c) as (preds & Hp & _ & _ & Hlen).
    rewrite Hp. simpl. eauto. }
  destruct (mapM_total (MaxEnt._pred_fn self) (MaxEnt.chunks k samples))
    as (batches & Hbatches & Hblen).
  { intros c _. destruct (Hpred c) as (preds & Hp & _). eauto. }
  rewrite (mapM_rbind _ _ _ _ Hbatches) in Hrws.
  assert (Hmap : rws = map MaxEnt.rows batches).
  { clear - Hrws. revert rws Hrws.
    induction batches as [|x l IH]; intros rws H; [inversion H; reflexivity|].
    apply mapM_Ok_cons in H as (y & ys' & Hy & H & ->). inversion Hy. subst y.
    simpl. f_equal. apply IH, H. }
  subst rws.
  exists samples, batches, (MaxEnt.Tensor2 C (concat (map MaxEnt.rows batches))).
  split; [exact Hsamples|].
  split; [apply chunks_concat, Hk|].
  split; [apply chunks_fuel_sizes, Hk|].
  split; [exact Hbatches|].
  split.
  - unfold MaxEnt.predict, MaxEnt.index_batches.
    rewrite Hbsampler, Hsampler, Hdrop, Hcollate.
    destruct (MaxEnt.batch_size (MaxEnt._dl_params self) <=? 0) eqn:E;
      [apply Z.leb_le in E; lia|].
    cbn [rbind]. fold k.
    rewrite (mapM_rbind (MaxEnt.mapM (fun i => UD.__getitem__ item0 i X_pool))
               _ _ (MaxEnt.chunks k samples)).
    + rewrite <- Hbatches.
      pose proof (chunks_fuel_sizes k (length samples) samples Hk) as Hsizes.
      fold (MaxEnt.chunks k samples) in Hsizes. clear - Hdev Hsizes.
      induction Hsizes as [|c cs Hc _ IH]; [reflexivity|].
      cbn [MaxEnt.mapM]. rewrite IH.
      destruct c as [|x c]; [simpl in Hc; lia|]. cbn [MaxEnt.default_collate rbind].
      destruct (MaxEnt._device self) as [to_device|] eqn:D; [|reflexivity].
      rewrite (Hdev _ eq_refl (x :: c)). reflexivity.
    + unfold MaxEnt.chunks. rewrite Hslen. apply mapM_chunks. exact Hsamples.
  - split.
    + apply cat_same_width.
      * intros ->. simpl in Hblen.
        assert (Hc : concat (MaxEnt.chunks k samples) = samples)
          by (apply chunks_concat, Hk).
        destruct (MaxEnt.chunks k samples); [|discriminate].
        simpl in Hc. subst samples. simpl in Hsn. lia.
      * eapply mapM_Forall; [|exact Hbatches].
        intros x y Hy. destruct (Hpred x) as (preds & Hp & HC & Hrect & _).
        assert (y = preds) by congruence. subst y. auto.
    + unfold MaxEnt.shape0. simpl. rewrite Hl2.
      rewrite (chunks_concat k samples Hk). exact Hsn.
Qed.

End Inference.

(** * Further properties of the code *)

(** ** The labelled side of the pool *)

Section LabelledSide.
Context {item : Type}.
Implicit Types (self : UD.t item) (m : list bool).

Lemma nth_error_invert m j b :
  nth_error (invert m) j = Some b <-> nth_error m j = Some (negb b).
Proof.
  unfold invert. rewrite nth_error_map.
  destruct (nth_error m j) as [c|]; simpl; [|split; discriminate].
  split; intros H; inversion H; f_equal; destruct c, b; simpl in *; congruence.
Qed.

Lemma invert_length m : length (invert m) = length m.
Proof. unfold invert. apply length_map. Qed.

Lemma labelled_In m p :
  In p (nonzero (invert m)) <-> 0 <= p /\ nth_error m (Z.to_nat p) = Some false.
Proof. rewrite nonzero_In, nth_error_invert. reflexivity. Qed.

Lemma mask_split m p :
  0 <= p < Z.of_nat (length m) ->
  (In p (nonzero (invert m)) <-> ~ In p (nonzero m)).
Proof.
  intros Hp. rewrite labelled_In, nonzero_In.
  destruct (nth_error m (Z.to_nat p)) as [[|]|] eqn:E.
  - split; [intros [_ H]; discriminate | intros H; exfalso; apply H; split; [lia | reflexivity]].
  - split; [intros _ [_ H]; discriminate | intros _; split; [lia | reflexivity]].
  - apply nth_error_None in E. lia.
Qed.

(** X1.  On a pool whose translation matches its mask, [labelled_indices]
    is strictly ascending, shares no position with the translation, and
    the two together are exactly the positions [0 .. N-1] of the mask,
    each once. *)
Theorem labelled_indices_partition self :
  UD._idx_mask self = nonzero (UD._mask self) ->
  StronglySorted Z.lt (UD.labelled_indices self) /\
  (forall p, In p (UD.labelled_indices self) -> ~ In p (UD._idx_mask self)) /\
  Permutation (UD.labelled_indices self ++ UD._idx_mask self)
              (arange (Z.of_nat (length (UD._mask self)))).
Proof.
  intros Htr. unfold UD.labelled_indices. rewrite Htr.
  set (m := UD._mask self).
  assert (Hdisj : forall p, In p (nonzero (invert m)) -> ~ In p (nonzero m)).
  { intros p Hp. apply mask_split; [|exact Hp].
    apply nonzero_range in Hp. rewrite invert_length in Hp. exact Hp. }
  split; [apply nonzero_from_sorted|]. split; [exact Hdisj|].
  apply NoDup_Permutation.
  - apply NoDup_app; [apply nonzero_NoDup | apply nonzero_NoDup | exact Hdisj].
  - apply arange_NoDup.
  - intros p. rewrite in_app_iff, arange_In. split.
    + intros [H|H]; apply nonzero_range in H; rewrite ?invert_length in H; lia.
    + intros Hp. destruct (in_dec Z.eq_dec p (nonzero m)) as [H|H]; [right; exact H|].
      left. apply mask_split; [lia | exact H].
Qed.

(** What [mask[pos] = False] leaves in the mask, for positions that are
    not negative. *)
Lemma index_put_false_nth pos : forall m m',
  Forall (fun p => 0 <= p) pos ->
  index_put m pos false = Ok m' ->
  forall j : nat,
    (In (Z.of_nat j) pos -> nth_error m' j = Some false) /\
    (~ In (Z.of_nat j) pos -> nth_error m' j = nth_error m j).
Proof.
  induction pos as [|p pos IH]; intros m m' Hnn Hput j.
  - simpl in Hput. inversion Hput. subst. split; [intros [] | reflexivity].
  - inversion Hnn as [|? ? Hp Hnn']; subst. simpl in Hput.
    destruct (norm_index (length m) p) as [k|] eqn:Hk; [|discriminate].
    assert (Hkp : k = Z.to_nat p /\ (k < length m)%nat).
    { pose proof (norm_index_lt _ _ _ Hk) as Hlt. split; [|exact Hlt].
      unfold norm_index in Hk.
      destruct ((0 <=? p) && (p <? Z.of_nat (length m))) eqn:E; [congruence|].
      destruct ((- Z.of_nat (length m) <=? p) && (p <? 0)) eqn:E2; [|discriminate].
      apply andb_prop in E2 as [_ E2]. apply Z.ltb_lt in E2. lia. }
    destruct Hkp as [-> Hlt].
    destruct (IH _ _ Hnn' Hput j) as [Hin Hout].
    split.
    + intros [Heq | Hj]; [|apply Hin, Hj].
      destruct (in_dec Z.eq_dec (Z.of_nat j) pos) as [Hj|Hj]; [apply Hin, Hj|].
      rewrite (Hout Hj). subst p. rewrite Nat2Z.id.
      revert Hlt. rewrite Nat2Z.id. clear. revert j.
      induction m as [|a m IHm]; intros [|j] H; simpl in *; try lia; auto.
      apply IHm. lia.
    + intros Hj. rewrite Hout by (intros H; apply Hj; right; exact H).
      apply set_nth_other. intros ->. apply Hj. left. lia.
Qed.

Lemma label_mask_after idxs self d self' :
  UD._idx_mask self = nonzero (UD._mask self) ->
  UD.label idxs self = (Ok d, self') ->
  exists pos,
    UD.convert_idx idxs self = Ok pos /\
    Forall (fun p => In p (nonzero (UD._mask self))) pos /\
    length (UD._mask self') = length (UD._mask self) /\
    UD._idx_mask self' = nonzero (UD._mask self') /\
    forall j : nat,
      (In (Z.of_nat j) pos -> nth_error (UD._mask self') j = Some false) /\
      (~ In (Z.of_nat j) pos ->
       nth_error (UD._mask self') j = nth_error (UD._mask self) j).
Proof.
  intros Htr H.
  apply label_Ok in H as (pos & bits & mask & Hpos & _ & _ & _ & Hput & -> & _).
  exists pos. split; [exact Hpos|].
  assert (Hin : Forall (fun p => In p (nonzero (UD._mask self))) pos).
  { rewrite <- Htr. eapply take_Forall; eauto. }
  split; [exact Hin|]. simpl.
  split; [eapply index_put_length; eauto|]. split; [reflexivity|].
  apply index_put_false_nth; [|exact Hput].
  rewrite Forall_forall in *. intros p Hp. apply Hin, nonzero_range in Hp. lia.
Qed.

(** X2.  From a pool whose translation matches its mask, a [label(idxs)]
    that returns moves exactly the positions [convert_idx(idxs)] (taken
    before the call) to the labelled side: afterwards [labelled_indices]
    holds what it held plus those positions, and the translation holds
    what it held minus them. *)
Theorem label_moves_converted idxs self d self' :
  UD._idx_mask self = nonzero (UD._mask self) ->
  UD.label idxs self = (Ok d, self') ->
  exists pos,
    UD.convert_idx idxs self = Ok pos /\
    (forall p, In p (UD.labelled_indices self') <->
               In p (UD.labelled_indices self) \/ In p pos) /\
    (forall p, In p (UD._idx_mask self') <->
               In p (UD._idx_mask self) /\ ~ In p pos).
Proof.
  intros Htr H.
  destruct (label_mask_after _ _ _ _ Htr H) as (pos & Hconv & Hin & Hlen & Htr' & Hnth).
  exists pos. split; [exact Hconv|].
  rewrite Forall_forall in Hin.
  assert (Hcase : forall p, 0 <= p ->
            (In p pos -> nth_error (UD._mask self') (Z.to_nat p) = Some false) /\
            (~ In p pos -> nth_error (UD._mask self') (Z.to_nat p)
                           = nth_error (UD._mask self) (Z.to_nat p))).
  { intros p Hp. specialize (Hnth (Z.to_nat p)). rewrite Z2Nat.id in Hnth by exact Hp.
    exact Hnth. }
  split; intros p.
  - unfold UD.labelled_indices. rewrite !labelled_In. split.
    + intros [Hp Hf]. destruct (in_dec Z.eq_dec p pos) as [Hi|Hi]; [right; exact Hi|].
      left. split; [exact Hp|]. rewrite <- (proj2 (Hcase p Hp) Hi). exact Hf.
    + intros [[Hp Hf] | Hi].
      * split; [exact Hp|]. destruct (in_dec Z.eq_dec p pos) as [Hi|Hi].
        -- apply (Hcase p Hp), Hi.
        -- rewrite (proj2 (Hcase p Hp) Hi). exact Hf.
      * assert (Hp : 0 <= p) by (apply Hin, nonzero_range in Hi; lia).
        split; [exact Hp | apply (Hcase p Hp), Hi].
  - rewrite Htr', Htr, !nonzero_In. split.
    + intros [Hp Ht]. destruct (in_dec Z.eq_dec p pos) as [Hi|Hi].
      * rewrite (proj1 (Hcase p Hp) Hi) in Ht. discriminate.
      * rewrite (proj2 (Hcase p Hp) Hi) in Ht. auto.
    + intros [[Hp Ht] Hi]. split; [exact Hp|].
      rewrite (proj2 (Hcase p Hp) Hi). exact Ht.
Qed.

(** X3.  Why [acquire] converts before it labels: once [label(idxs)] has
    returned, no logical index converts to a position that the call
    labelled -- [convert_idx] after the call can never name the points
    just acquired. *)
Theorem convert_after_label_misses idxs self d self' :
  UD._idx_mask self = nonzero (UD._mask self) ->
  UD.label idxs self = (Ok d, self') ->
  exists pos,
    UD.convert_idx idxs self = Ok pos /\
    forall js ps p,
      UD.convert_idx js self' = Ok ps -> In p ps -> ~ In p pos.
Proof.
  intros Htr H.
  destruct (label_mask_after _ _ _ _ Htr H) as (pos & Hconv & Hin & Hlen & Htr' & Hnth).
  exists pos. split; [exact Hconv|].
  intros js ps p Hps Hp Hpos. unfold UD.convert_idx in Hps.
  apply take_Forall in Hps. rewrite Forall_forall in Hps. specialize (Hps _ Hp).
  rewrite Htr' in Hps. apply nonzero_In in Hps as [Hp0 Ht].
  specialize (Hnth (Z.to_nat p)). rewrite Z2Nat.id in Hnth by exact Hp0.
  rewrite (proj1 Hnth Hpos) in Ht. discriminate.
Qed.

End LabelledSide.

(** The pool of three after [label([1])]. *)
Lemma labelled_indices_partition_witness :
  let self := snd (UD.label [1] Examples.pool3) in
  StronglySorted Z.lt (UD.labelled_indices self) /\
  (forall p, In p (UD.labelled_indices self) -> ~ In p (UD._idx_mask self)) /\
  Permutation (UD.labelled_indices self ++ UD._idx_mask self)
              (arange (Z.of_nat (length (UD._mask self)))).
Proof. intros self. apply (labelled_indices_partition self). reflexivity. Defined.


Lemma label_moves_converted_witness :
  exists pos,
    UD.convert_idx [2; 0] Examples.pool3 = Ok pos /\
    (forall p, In p (UD.labelled_indices (snd (UD.label [2; 0] Examples.pool3))) <->
               In p (UD.labelled_indices Examples.pool3) \/ In p pos) /\
    (forall p, In p (UD._idx_mask (snd (UD.label [2; 0] Examples.pool3))) <->
               In p (UD._idx_mask Examples.pool3) /\ ~ In p pos).
Proof.
  apply (label_moves_converted [2; 0] Examples.pool3
           (Subset Examples.pool3_data [2; 0])); reflexivity.
Defined.

Lemma convert_after_label_misses_witness :
  exists pos,
    UD.convert_idx [0] Examples.pool3 = Ok pos /\
    forall js ps p,
      UD.convert_idx js (snd (UD.label [0] Examples.pool3)) = Ok ps ->
      In p ps -> ~ In p pos.
Proof.
  apply (convert_after_label_misses [0] Examples.pool3
           (Subset Examples.pool3_data [0])); reflexivity.
Defined.


(** ** [reset] undoes a session *)

Section ResetFacts.
Context {item feature : Type}.
Variable item0 : item -> feature.
Implicit Types (self : UD.t item) (s : UD.stmt).

(** No statement replaces the backing dataset or the labelling function,
    whether it completes or raises. *)
Lemma exec_keeps_backing s : forall self r self',
  UD.exec item0 s self = (r, self') ->
  UD._dataset self' = UD._dataset self /\ UD._label_fn self' = UD._label_fn self.
Proof.
  induction s as [| idx | idxs | | s1 IH1 s2 IH2 | body IH]; intros self r self' H;
    simpl in H.
  - inversion H. auto.
  - unfold bind, get, lift, ret in H.
    destruct (UD.__getitem__ item0 idx self); inversion H; auto.
  - unfold bind, ret in H.
    destruct (UD.label idxs self) as [[d|e] u] eqn:E; inversion H; subst.
    + apply label_translation in E. tauto.
    + apply label_Raise in E. subst. auto.
  - inversion H. auto.
  - unfold bind, ret in H.
    destruct (UD.exec item0 s1 self) as [[l1|e] u1] eqn:E1.
    + destruct (IH1 _ _ _ E1) as [Ha Hb].
      destruct (UD.exec item0 s2 u1) as [[l2|e] u2] eqn:E2;
        destruct (IH2 _ _ _ E2) as [Hc Hd]; inversion H; subst; split; congruence.
    + inversion H. subst. eapply IH1; eauto.
  - unfold UD.true_labels_enter in H. destruct (UD.debug self) eqn:D.
    + destruct (UD.exec item0 body self) as [[l0|e] u] eqn:E;
        destruct (IH _ _ _ E) as [Ha Hb]; inversion H; subst; simpl; auto.
    + destruct (UD.exec item0 body (UD.with_debug self true)) as [[l0|e] u] eqn:E;
        destruct (IH _ _ _ E) as [Ha Hb]; inversion H; subst; simpl; auto.
Qed.

(** X4.  Build a pool; run any block of pool operations on it -- index
    reads, [label] calls, nested [true_labels] scopes, resets -- to
    completion; then [reset()]: the pool is again the object the
    constructor built, field by field. *)
Theorem reset_restores_fresh_pool dataset label_fn dbg fresh s l self :
  UD.__init__ dataset label_fn dbg = Ok fresh ->
  UD.exec item0 s fresh = (Ok l, self) ->
  UD.reset self = (Ok tt, fresh).
Proof.
  intros Hinit Hexec.
  destruct (exec_keeps_backing _ _ _ _ Hexec) as [Hds Hfn].
  pose proof (exec_restores_debug item0 _ _ _ _ Hexec) as Hdbg.
  apply init_Ok in Hinit. subst fresh. simpl in *.
  unfold UD.reset, bind, get, put, UD.with_pool. rewrite Hds, Hfn, Hdbg. reflexivity.
Qed.

End ResetFacts.

Lemma reset_restores_fresh_pool_witness :
  UD.reset
    (snd (UD.exec fst
            (UD.Seq (UD.Label [0; 2])
               (UD.With_true_labels (UD.Seq (UD.Index 0) (UD.Label [0]))))
            Examples.pool3))
  = (Ok tt, Examples.pool3).
Proof.
  exact (reset_restores_fresh_pool fst Examples.pool3_data None false Examples.pool3
           (UD.Seq (UD.Label [0; 2])
              (UD.With_true_labels (UD.Seq (UD.Index 0) (UD.Label [0]))))
           [UD.Whole (20, 1)] _ eq_refl eq_refl).
Defined.

(** ** [labelled_classes] *)

Section LabelledClasses.
Context {item class : Type}.
Variable item1 : item -> class.
Implicit Types (self : UD.t item).

Lemma mapM_nth {B C} (f : B -> result C) (l : list B) : forall ys,
  MaxEnt.mapM f l = Ok ys ->
  length ys = length l /\
  forall j x, nth_error l j = Some x ->
              exists y, f x = Ok y /\ nth_error ys j = Some y.
Proof.
  induction l as [|a l IH]; intros ys H; simpl in H.
  - inversion H. split; [reflexivity | intros [|j] x Hx; discriminate].
  - destruct (f a) as [y|e] eqn:Ea; [|discriminate]. simpl in H.
    destruct (MaxEnt.mapM f l) as [ys'|e] eqn:El; [|discriminate]. simpl in H.
    inversion H. subst. destruct (IH _ eq_refl) as [Hlen Hnth].
    split; [simpl; congruence|].
    intros [|j] x Hx; simpl in *.
    + inversion Hx. subst. eauto.
    + apply Hnth, Hx.
Qed.

(** X5.  On a pool over a plain collection whose mask has one bit per
    item, [labelled_classes] never raises: it answers one class per
    labelled index, the [j]-th being the class stored at the [j]-th
    labelled absolute position; and it warns exactly when a labelling
    function was configured. *)
Theorem labelled_classes_aligned self items :
  UD._dataset self = Source items ->
  UD.sized self ->
  fst (PoolQueries.labelled_classes item1 self) = UD.is_set (UD._label_fn self) /\
  exists classes,
    snd (PoolQueries.labelled_classes item1 self) = Ok classes /\
    length classes = length (UD.labelled_indices self) /\
    forall j p, nth_error (UD.labelled_indices self) j = Some p ->
      exists it, nth_error items (Z.to_nat p) = Some it /\
                 nth_error classes j = Some (item1 it).
Proof.
  intros Hsrc Hsized. split; [reflexivity|].
  unfold PoolQueries.labelled_classes. simpl snd. rewrite Hsrc.
  unfold UD.sized in Hsized. rewrite Hsrc in Hsized. simpl in Hsized.
  assert (Hget : forall p, In p (UD.labelled_indices self) ->
            exists it, nth_error items (Z.to_nat p) = Some it /\
                       getitem (Source items) p = Ok it).
  { intros p Hp. unfold UD.labelled_indices in Hp. apply nonzero_range in Hp.
    rewrite invert_length in Hp. simpl.
    destruct (nth_error items (Z.to_nat p)) as [it|] eqn:E.
    - exists it. split; [reflexivity|]. apply item_at_Ok. exists (Z.to_nat p).
      split; [apply norm_index_nonneg; lia | exact E].
    - apply nth_error_None in E. lia. }
  destruct (mapM_total
              (fun i => rbind (getitem (Source items) i) (fun it => Ok (item1 it)))
              (UD.labelled_indices self)) as (classes & Hc & Hlen).
  { intros p Hp. destruct (Hget p Hp) as (it & _ & Hit). rewrite Hit. simpl. eauto. }
  exists classes. split; [exact Hc|]. split; [exact Hlen|].
  intros j p Hj. destruct (mapM_nth _ _ _ Hc) as [_ Hnth].
  destruct (Hnth j p Hj) as (y & Hy & Hyj).
  destruct (Hget p (nth_error_In _ _ Hj)) as (it & Hit & Hgi).
  rewrite Hgi in Hy. simpl in Hy. inversion Hy. subst y. eauto.
Qed.

End LabelledClasses.

Lemma labelled_classes_aligned_witness :
  let self := snd (UD.label [1; 0] Examples.pool3) in
  fst (PoolQueries.labelled_classes snd self) = UD.is_set (UD._label_fn self) /\
  exists classes,
    snd (PoolQueries.labelled_classes snd self) = Ok classes /\
    length classes = length (UD.labelled_indices self) /\
    forall j p, nth_error (UD.labelled_indices self) j = Some p ->
      exists it, nth_error [(10, 0); (20, 1); (30, 0)] (Z.to_nat p) = Some it /\
                 nth_error classes j = Some (snd it).
Proof.
  intros self. apply (labelled_classes_aligned snd self); reflexivity.
Defined.

(** ** The manager: resets, failures, and what an acquisition appends *)

Section ManagerMore.
Context {item A : Type}.
Implicit Types (dm : DM.t item A) (b : Z).

Lemma acquired_keeps (dm0 dm : DM.t item A) :
  DM.acquired dm0 dm ->
  DM._old_labelled dm = DM._old_labelled dm0 /\
  DM._a_fn dm = DM._a_fn dm0 /\
  UD._dataset (DM._unlabelled dm) = UD._dataset (DM._unlabelled dm0) /\
  UD._label_fn (DM._unlabelled dm) = UD._label_fn (DM._unlabelled dm0) /\
  UD.debug (DM._unlabelled dm) = UD.debug (DM._unlabelled dm0).
Proof.
  induction 1 as [|dm b tr r dm' _ IH Hstep]; [repeat split|].
  destruct IH as (H1 & H2 & H3 & H4 & H5).
  apply acquire_Ok in Hstep as (n & idxs & attrs & u' & _ & _ & _ & _ & _ & Hlab & ->).
  apply label_translation in Hlab as (_ & _ & Hds & Hfn & Hdbg & _).
  simpl. repeat split; congruence.
Qed.

(** X6.  Whatever was acquired since, [DataManager.reset()] gives back
    the manager as it was constructed over a fresh pool -- the baseline
    labelled set, the pool with nothing labelled -- apart from the
    attributes the acquisition function keeps for itself. *)
Theorem manager_reset_restores dataset label_fn dbg ud baseline a_fn attrs dm :
  UD.__init__ dataset label_fn dbg = Ok ud ->
  DM.acquired (DM.__init__ baseline ud a_fn attrs) dm ->
  DM.reset dm =
    (Ok tt, DM.with_attrs (DM.__init__ baseline ud a_fn attrs) (DM.a_fn_attrs dm)) /\
  DM.n_labelled (snd (DM.reset dm)) = Ok (len baseline) /\
  DM.n_unlabelled (snd (DM.reset dm)) = Ok (len dataset).
Proof.
  intros Hinit Hacq.
  destruct (acquired_keeps _ _ Hacq) as (H1 & H2 & H3 & H4 & H5). simpl in *.
  apply init_Ok in Hinit. subst ud. simpl in *.
  assert (Hreset : DM.reset dm =
    (Ok tt, DM.with_attrs
              (DM.__init__ baseline
                 {| UD._dataset := dataset; UD._label_fn := label_fn;
                    UD._mask := ones (len dataset); UD._len := len dataset;
                    UD._idx_mask := arange (len dataset); UD.debug := dbg |}
                 a_fn attrs) (DM.a_fn_attrs dm))).
  { unfold DM.reset, DM.on_unlabelled, UD.reset, bind, get, put, DM.with_attrs,
      DM.with_labelled, DM.with_unlabelled, DM.__init__, UD.with_pool. simpl.
    rewrite H1, H2, H3, H4, H5. reflexivity. }
  rewrite Hreset. split; [reflexivity|].
  unfold DM.n_labelled, DM.n_unlabelled, UD.__len__. simpl. rewrite ?H1, ?H3.
  split; apply len_builtin_nonneg, len_nonneg.
Qed.

(** X7.  An [acquire] that raises has changed neither the labelled
    collection nor the pool: only the attributes of the acquisition
    function may differ. *)
Theorem acquire_failure_keeps_data b transform dm e dm' :
  DM.acquire b transform dm = (Raise e, dm') ->
  dm' = DM.with_attrs dm (DM.a_fn_attrs dm').
Proof.
  assert (Hid : dm = DM.with_attrs dm (DM.a_fn_attrs dm)) by (destruct dm; reflexivity).
  unfold DM.acquire, bind, get, lift, assert_, put, ret.
  destruct (DM.n_unlabelled dm) as [n|e0]; [|intros H; inversion H; subst; exact Hid].
  destruct (b <=? n); [|intros H; inversion H; subst; exact Hid].
  replace (match transform with
           | Some transform0 => DM.call_a_fn (transform0 (DM._unlabelled dm)) b
           | None => DM.call_a_fn (DM._unlabelled dm) b
           end dm) with (DM.call_a_fn (DM.view_of transform dm) b dm)
    by (destruct transform; reflexivity).
  unfold DM.call_a_fn.
  destruct (DM._a_fn dm (DM.a_fn_attrs dm) (DM.view_of transform dm) b)
    as [[idxs|e0] attrs]; simpl; [|intros H; inversion H; reflexivity].
  destruct (Z.of_nat (length idxs) =? b); [|intros H; inversion H; reflexivity].
  destruct (UD.convert_idx idxs (DM._unlabelled dm)) as [true_idxs|e0];
    [|intros H; inversion H; reflexivity].
  unfold DM.on_unlabelled, DM.append_to_labelled, bind, get, put. simpl.
  destruct (UD.label idxs (DM._unlabelled dm)) as [[labelled|e0] u'] eqn:Hlab;
    [discriminate|].
  apply label_Raise in Hlab. subst u'. intros H. inversion H. reflexivity.
Qed.

(** X8.  With no labelling function, an [acquire] that returns appends
    to the labelled collection, in order, the pool items stored at the
    absolute indices it returns: what was in the collection stays where
    it was, and item [len_before + j] is the backing item at the [j]-th
    returned index. *)
Theorem acquire_appends_pool_items b transform dm true_idxs labelled dm' :
  UD._label_fn (DM._unlabelled dm) = None ->
  DM.acquire b transform dm = (Ok (true_idxs, labelled), dm') ->
  DM._labelled dm' = ConcatDataset (DM._labelled dm) labelled /\
  (forall i, 0 <= i < len (DM._labelled dm) ->
     getitem (DM._labelled dm') i = getitem (DM._labelled dm) i) /\
  (forall (j : nat) p, nth_error true_idxs j = Some p ->
     getitem (DM._labelled dm') (len (DM._labelled dm) + Z.of_nat j)
     = getitem (UD._dataset (DM._unlabelled dm)) p).
Proof.
  intros Hfn H.
  apply acquire_Ok in H as (n & idxs & attrs & u' & _ & _ & _ & _ & Hconv & Hlab & ->).
  simpl in Hconv, Hlab.
  apply label_Ok in Hlab as (pos & _ & _ & Hpos & _ & _ & _ & _ & _ & Hd).
  unfold UD.convert_idx in Hconv. assert (pos = true_idxs) by congruence. subst pos.
  unfold UD.labelled_subset in Hd. rewrite Hfn in Hd. subst labelled.
  pose proof (len_nonneg (DM._labelled dm)) as Hn0.
  split; [reflexivity|]. split.
  - intros i Hi. simpl.
    destruct (i <? 0) eqn:E0; [apply Z.ltb_lt in E0; lia|]. simpl.
    destruct (i <? len (DM._labelled dm)) eqn:E1; [reflexivity|].
    apply Z.ltb_ge in E1. lia.
  - intros j p Hj. simpl.
    assert (Hlt : (j < length true_idxs)%nat) by (apply nth_error_Some; congruence).
    destruct (len (DM._labelled dm) + Z.of_nat j <? 0) eqn:E0;
      [apply Z.ltb_lt in E0; lia|]. simpl.
    destruct (len (DM._labelled dm) + Z.of_nat j <? len (DM._labelled dm)) eqn:E1;
      [apply Z.ltb_lt in E1; lia|].
    destruct (len (DM._labelled dm) + Z.of_nat j
              <? len (DM._labelled dm) + Z.of_nat (length true_idxs)) eqn:E2;
      [|apply Z.ltb_ge in E2; lia].
    replace (len (DM._labelled dm) + Z.of_nat j - len (DM._labelled dm))
      with (Z.of_nat j) by lia.
    assert (Hat : item_at true_idxs (Z.of_nat j) = Ok p).
    { apply item_at_Ok. exists j. split; [|exact Hj].
      rewrite norm_index_nonneg by lia. rewrite Nat2Z.id. reflexivity. }
    rewrite Hat. reflexivity.
Qed.

End ManagerMore.

(** Three items acquired in two rounds, then a reset. *)
Lemma manager_reset_restores_witness :
  let dm0 := Examples.manager Examples.first_b Examples.pool3 in
  let dm2 := snd (DM.acquire 2 None (snd (DM.acquire 1 None dm0))) in
  DM.reset dm2 = (Ok tt, DM.with_attrs dm0 (DM.a_fn_attrs dm2)) /\
  DM.n_labelled (snd (DM.reset dm2)) = Ok (len Examples.baseline1) /\
  DM.n_unlabelled (snd (DM.reset dm2)) = Ok (len Examples.pool3_data).
Proof.
  intros dm0 dm2.
  apply (manager_reset_restores Examples.pool3_data None false Examples.pool3
           Examples.baseline1 Examples.first_b tt dm2 eq_refl).
  refine (DM.acquired_step _ (snd (DM.acquire 1 None dm0)) 2 None _ dm2
            (DM.acquired_step _ dm0 1 None _ _ (DM.acquired_nil _) _) _);
    cbv; reflexivity.
Defined.

(** A request for more items than the pool holds. *)
Lemma acquire_failure_keeps_data_witness :
  let dm0 := Examples.manager Examples.first_b Examples.pool3 in
  snd (DM.acquire 4 None dm0) =
  DM.with_attrs dm0 (DM.a_fn_attrs (snd (DM.acquire 4 None dm0))).
Proof.
  intros dm0.
  apply (acquire_failure_keeps_data 4 None dm0 (AssertionError Pool_size)).
  reflexivity.
Defined.

(** After one acquisition, two more: the labelled collection of one
    baseline item and one acquired item receives the pool items at
    absolute positions 1 and 2. *)
Lemma acquire_appends_pool_items_witness :
  let dm1 := snd (DM.acquire 1 None (Examples.manager Examples.first_b Examples.pool3)) in
  let dm2 := snd (DM.acquire 2 None dm1) in
  DM._labelled dm2
  = ConcatDataset (DM._labelled dm1) (Subset Examples.pool3_data [1; 2]) /\
  (forall i, 0 <= i < len (DM._labelled dm1) ->
     getitem (DM._labelled dm2) i = getitem (DM._labelled dm1) i) /\
  (forall (j : nat) p, nth_error [1; 2] j = Some p ->
     getitem (DM._labelled dm2) (len (DM._labelled dm1) + Z.of_nat j)
     = getitem (UD._dataset (DM._unlabelled dm1)) p).
Proof.
  intros dm1 dm2.
  apply (acquire_appends_pool_items 2 None dm1 [1; 2]
           (Subset Examples.pool3_data [1; 2]) dm2); reflexivity.
Defined.

(** ** [MaxEnt] as the acquisition function of a manager *)

Section MaxEntInManager.
Context {item feature F : Type}.
Variable item0 : item -> feature.
Variables (fexp fneg : F -> F) (fmul fadd : F -> F -> F) (fzero : F).
Variable isfinite : F -> bool.
Variable argsort_descending : list F -> list Z.
Variable fle : F -> F -> bool.

Local Abbreviation maxent_fn :=
  (MaxEnt.as_acquisition_fn item0 fexp fneg fmul fadd fzero isfinite argsort_descending)
  (only parsing).
Local Abbreviation entropies preds :=
  (map (MaxEnt.row_entropy fexp fneg fmul fadd fzero) (MaxEnt.rows preds))
  (only parsing).

(** What the call answers once the inference stage has returned. *)
Lemma maxent_call_value (self : MaxEnt.t item feature F) (X_pool : UD.t item)
    b n batches preds_N_C :
  len_builtin (UD.__len__ X_pool) = Ok n ->
  MaxEnt.predict item0 self X_pool n = Ok batches ->
  MaxEnt.cat batches = Ok preds_N_C ->
  MaxEnt.shape0 preds_N_C = n ->
  forallb isfinite (entropies preds_N_C) = true ->
  maxent_fn self X_pool b =
    (Ok (slice_to (argsort_descending (entropies preds_N_C)) b),
     MaxEnt.with_recent_score self (entropies preds_N_C)).
Proof.
  intros Hn Hpred Hcat Hrows Hfin.
  unfold MaxEnt.as_acquisition_fn, MaxEnt.__call__, bind, get, lift, assert_, put, ret.
  rewrite Hn, Hpred, Hcat.
  pose proof Hrows as Hrows'. unfold MaxEnt.shape0 in Hrows'.
  apply Z.eqb_eq in Hrows'. unfold MaxEnt.shape0. rewrite Hrows'.
  rewrite Hfin, length_map, Hrows'. reflexivity.
Qed.

(** X9.  A manager whose acquisition function is [MaxEnt] keeps the pool
    consistent.  On a pool that satisfies the mask invariant, with
    [0 <= b <= n_unlabelled], once the inference stage has returned one
    finite entropy per pool item (and [argsort] a descending ordering),
    [acquire(b)] returns [b] pairwise distinct absolute indices, the
    mask invariant still holds afterwards, the pool has shrunk by [b],
    and [recent_score] holds the entropies of the pool as it was before
    the call. *)
Theorem acquire_with_maxent (dm : DM.t item (MaxEnt.t item feature F))
    b n batches preds_N_C :
  DM._a_fn dm = maxent_fn ->
  UD.mask_invariant (DM._unlabelled dm) ->
  DM.n_unlabelled dm = Ok n ->
  0 <= b <= n -> 0 < n ->
  MaxEnt.predict item0 (DM.a_fn_attrs dm) (DM._unlabelled dm) n = Ok batches ->
  MaxEnt.cat batches = Ok preds_N_C ->
  MaxEnt.shape0 preds_N_C = n ->
  forallb isfinite (entropies preds_N_C) = true ->
  MaxEnt.argsort_contract fle (entropies preds_N_C)
    (argsort_descending (entropies preds_N_C)) ->
  exists true_idxs labelled dm',
    DM.acquire b None dm = (Ok (true_idxs, labelled), dm') /\
    Z.of_nat (length true_idxs) = b /\
    NoDup true_idxs /\
    UD.mask_invariant (DM._unlabelled dm') /\
    DM.n_unlabelled dm' = Ok (n - b) /\
    MaxEnt.recent_score (DM.a_fn_attrs dm') = Some (entropies preds_N_C) /\
    Z.of_nat (length (entropies preds_N_C)) = n.
Proof.
  intros Hfn Hinv Hn Hb Hpos Hpred Hcat Hrows Hfin (Hperm & _).
  set (entropy := entropies preds_N_C) in *.
  set (perm := argsort_descending entropy) in *.
  assert (Hlen : Z.of_nat (length entropy) = n)
    by (unfold entropy; rewrite length_map; exact Hrows).
  rewrite Hlen in Hperm.
  set (idxs := firstn (Z.to_nat b) perm).
  assert (Hcall : DM._a_fn dm (DM.a_fn_attrs dm) (DM.view_of None dm) b =
                  (Ok idxs, MaxEnt.with_recent_score (DM.a_fn_attrs dm) entropy)).
  { rewrite Hfn. simpl.
    rewrite (maxent_call_value _ _ b n batches preds_N_C); auto.
    fold entropy perm. unfold slice_to.
    destruct (0 <=? b) eqn:E; [reflexivity | apply Z.leb_gt in E; lia]. }
  assert (Hplen : Z.of_nat (length perm) = n).
  { rewrite (Permutation_length Hperm). apply arange_length. lia. }
  assert (Hshape : Z.of_nat (length idxs) = b)
    by (unfold idxs; rewrite length_firstn; lia).
  assert (Hrange : Forall (fun i => 0 <= i < n) idxs).
  { apply Forall_forall. intros i Hi. apply arange_In.
    eapply Permutation_in; [exact Hperm|].
    rewrite <- (firstn_skipn (Z.to_nat b) perm). apply in_or_app. left. exact Hi. }
  assert (Hnd : NoDup idxs).
  { apply NoDup_firstn. eapply Permutation_NoDup;
      [apply Permutation_sym; exact Hperm | apply arange_NoDup]. }
  pose proof (invariant_translation_length _ Hinv) as Htl.
  pose proof Hn as Hn'. apply len_builtin_Ok in Hn' as (-> & _).
  unfold UD.__len__ in *.
  destruct (label_total idxs (DM._unlabelled dm)) as (pos & mask & Htake & Hlab).
  { apply Hinv. }
  { lia. }
  { rewrite Forall_forall in *. intros i Hi Hnone. specialize (Hrange _ Hi).
    apply norm_index_None in Hnone. lia. }
  rewrite (acquire_run b None dm _ idxs _ Hn (proj2 Hb) Hcall Hshape).
  unfold UD.convert_idx. rewrite Htake, Hlab.
  do 3 eexists. split; [reflexivity|]. simpl.
  split; [rewrite (take_length _ _ _ Htake); exact Hshape|].
  split.
  { destruct Hinv as [_ Htr].
    eapply take_NoDup; [| exact Hnd | | exact Htake].
    - rewrite Htr. apply nonzero_NoDup.
    - rewrite Htl. exact Hrange. }
  split.
  { eapply label_invariant; [exact Hinv | exact Hnd | exact Hrange | exact Hlab]. }
  split.
  { unfold DM.n_unlabelled, UD.__len__. simpl. rewrite Hshape.
    apply len_builtin_nonneg. lia. }
  split; [reflexivity | exact Hlen].
Qed.

End MaxEntInManager.

(** The pool of three under [MaxEnt]: the two items of highest entropy,
    at absolute positions 1 and 0, are acquired. *)
Lemma acquire_with_maxent_witness :
  let dm := DM.__init__ Examples.baseline1 Examples.pool3
              (MaxEnt.as_acquisition_fn fst Examples.num_exp Examples.num_neg
                 Examples.num_mul Examples.num_add Examples.num_zero
                 Examples.num_isfinite (MaxEnt.argsort_reference Examples.num_le))
              (Examples.maxent Examples.classify) in
  let entropy :=
    map (MaxEnt.row_entropy Examples.num_exp Examples.num_neg Examples.num_mul
           Examples.num_add Examples.num_zero)
        (map Examples.classify [UD.Component0 10; UD.Component0 20; UD.Component0 30]) in
  exists true_idxs labelled dm',
    DM.acquire 2 None dm = (Ok (true_idxs, labelled), dm') /\
    Z.of_nat (length true_idxs) = 2 /\
    NoDup true_idxs /\
    UD.mask_invariant (DM._unlabelled dm') /\
    DM.n_unlabelled dm' = Ok (3 - 2) /\
    MaxEnt.recent_score (DM.a_fn_attrs dm') = Some entropy /\
    Z.of_nat (length entropy) = 3.
Proof.
  intros dm entropy.
  refine (acquire_with_maxent fst Examples.num_exp Examples.num_neg Examples.num_mul
            Examples.num_add Examples.num_zero Examples.num_isfinite
            (MaxEnt.argsort_reference Examples.num_le) Examples.num_le
            dm 2 3 _ _ eq_refl _ eq_refl _ _ eq_refl eq_refl eq_refl eq_refl _).
  - split; reflexivity.
  - lia.
  - lia.
  - apply num_argsort_contract. reflexivity.
Defined.

(** ** The relabelling wrappers *)

Section Wrappers.

Lemma mapM_seq {B} (l : list B) : forall (k : nat) (get : Z -> result B),
  (forall j x, nth_error l j = Some x -> get (Z.of_nat (k + j)) = Ok x) ->
  MaxEnt.mapM get (map Z.of_nat (seq k (length l))) = Ok l.
Proof.
  induction l as [|a l IH]; intros k get H; [reflexivity|].
  simpl. rewrite <- (Nat.add_0_r k) at 1. rewrite (H O a eq_refl). simpl.
  rewrite (IH (S k) get); [reflexivity|].
  intros j x Hj. replace (S k + j)%nat with (k + S j)%nat by lia. apply H. exact Hj.
Qed.

Lemma read_all_list {B} (l : list B) (get : Z -> result B) :
  (forall j x, nth_error l j = Some x -> get (Z.of_nat j) = Ok x) ->
  read_all (Z.of_nat (length l)) get = Ok l.
Proof.
  intros H. unfold read_all, arange. rewrite Nat2Z.id. apply mapM_seq. exact H.
Qed.

Lemma item_at_nth {B} (l : list B) (j : nat) x :
  nth_error l j = Some x -> item_at l (Z.of_nat j) = Ok x.
Proof.
  intros H. apply item_at_Ok. exists j. split; [|exact H].
  assert (j < length l)%nat by (apply nth_error_Some; congruence).
  rewrite norm_index_nonneg by lia. rewrite Nat2Z.id. reflexivity.
Qed.

Lemma item_at_beyond {B} (l : list B) idx :
  idx < - Z.of_nat (length l) \/ Z.of_nat (length l) <= idx ->
  item_at l idx = Raise IndexError.
Proof.
  intros H. unfold item_at. apply norm_index_None in H. rewrite H. reflexivity.
Qed.

Lemma nth_error_combine {B C} (l : list B) : forall (l' : list C) j p,
  nth_error (combine l l') j = Some p ->
  nth_error l j = Some (fst p) /\ nth_error l' j = Some (snd p).
Proof.
  induction l as [|a l IH]; intros [|b l'] [|j] p H; simpl in *; try discriminate.
  - inversion H. auto.
  - apply IH, H.
Qed.

(** X10.  [PseudoLabelDataset] can only be built over as many labels as
    there are items.  Built over a plain collection, reading it from
    front to back gives the items paired with the labels, position by
    position, and an index outside [[-n, n)] raises [IndexError]. *)
Theorem pseudo_label_dataset_zips {item label} (dataset : Dataset item)
    (items : list item) (labels : list label) :
  (Z.of_nat (length labels) <> len dataset ->
   PseudoLabelDataset.__init__ dataset labels = Raise AssertionError_lengths) /\
  (forall ds,
      PseudoLabelDataset.__init__ (Source items) labels = Ok ds ->
      read_all (PseudoLabelDataset.__len__ ds)
               (fun i => PseudoLabelDataset.__getitem__ i ds)
      = Ok (combine items labels) /\
      forall idx,
        idx < - PseudoLabelDataset.__len__ ds \/ PseudoLabelDataset.__len__ ds <= idx ->
        PseudoLabelDataset.__getitem__ idx ds = Raise IndexError).
Proof.
  split.
  - intros H. unfold PseudoLabelDataset.__init__.
    apply Z.eqb_neq in H. rewrite H. reflexivity.
  - intros ds H. unfold PseudoLabelDataset.__init__ in H.
    destruct (Z.of_nat (length labels) =? len (Source items)) eqn:E; [|discriminate].
    inversion H. subst ds. clear H. apply Z.eqb_eq in E. simpl in E.
    unfold PseudoLabelDataset.__len__, PseudoLabelDataset.__getitem__. simpl. split.
    + replace (length items) with (length (combine items labels))
        by (rewrite length_combine; lia).
      apply read_all_list. intros j [x y] Hj.
      apply nth_error_combine in Hj as [Hx Hy]. simpl in *.
      rewrite (item_at_nth _ _ _ Hx). simpl. rewrite (item_at_nth _ _ _ Hy). reflexivity.
    + intros idx Hidx. rewrite item_at_beyond by exact Hidx. reflexivity.
Qed.

Lemma pseudo_label_dataset_zips_witness :
  PseudoLabelDataset.__init__ (Source [10; 20; 30]) [7; 8]
  = Raise AssertionError_lengths /\
  let ds := {| PseudoLabelDataset._dataset := Source [10; 20; 30];
               PseudoLabelDataset._labels := [7; 8; 9] |} in
  read_all (PseudoLabelDataset.__len__ ds)
           (fun i => PseudoLabelDataset.__getitem__ i ds)
  = Ok (combine [10; 20; 30] [7; 8; 9]) /\
  forall idx,
    idx < - PseudoLabelDataset.__len__ ds \/ PseudoLabelDataset.__len__ ds <= idx ->
    PseudoLabelDataset.__getitem__ idx ds = Raise IndexError.
Proof.
  split.
  - apply (proj1 (pseudo_label_dataset_zips (Source [10; 20; 30]) [] [7; 8])).
    simpl. lia.
  - intros ds.
    apply (proj2 (pseudo_label_dataset_zips (Source [10; 20; 30]) [10; 20; 30] [7; 8; 9])).
    reflexivity.
Defined.

(** X11.  [RelabelDataset] keeps the feature of every item and replaces
    its label: over a plain collection of (feature, label) pairs, reading
    it from front to back gives the features paired with the new labels;
    in particular, relabelling a collection with its own labels gives the
    collection back. *)
Theorem relabel_dataset_replaces_labels {X Y L} (items : list (X * Y))
    (labels : list L) :
  (forall ds,
      RelabelDataset.__init__ (Source items) labels = Ok ds ->
      read_all (RelabelDataset.__len__ ds)
               (fun i => RelabelDataset.__getitem__ fst i ds)
      = Ok (combine (map fst items) labels)) /\
  (exists ds,
      RelabelDataset.__init__ (Source items) (map snd items) = Ok ds /\
      read_all (RelabelDataset.__len__ ds)
               (fun i => RelabelDataset.__getitem__ fst i ds)
      = Ok items).
Proof.
  assert (Hgen : forall (M : Type) (ls : list M) ds,
             RelabelDataset.__init__ (Source items) ls = Ok ds ->
             read_all (RelabelDataset.__len__ ds)
                      (fun i => RelabelDataset.__getitem__ fst i ds)
             = Ok (combine (map fst items) ls)).
  { intros M ls ds H. unfold RelabelDataset.__init__ in H.
    destruct (Z.of_nat (length ls) =? len (Source items)) eqn:E; [|discriminate].
    inversion H. subst ds. clear H. apply Z.eqb_eq in E. simpl in E.
    unfold RelabelDataset.__len__, RelabelDataset.__getitem__. simpl.
    replace (length items) with (length (combine (map fst items) ls))
      by (rewrite length_combine, length_map; lia).
    apply read_all_list. intros j [x y] Hj.
    apply nth_error_combine in Hj as [Hx Hy]. simpl in *.
    rewrite nth_error_map in Hx.
    destruct (nth_error items j) as [it|] eqn:Ei; [|discriminate]. simpl in Hx.
    inversion Hx. subst x.
    rewrite (item_at_nth _ _ _ Ei). simpl. rewrite (item_at_nth _ _ _ Hy). reflexivity. }
  split; [apply Hgen|].
  eexists. split.
  - unfold RelabelDataset.__init__. simpl. rewrite length_map, Z.eqb_refl. reflexivity.
  - rewrite (Hgen Y (map snd items)).
    + f_equal. clear. induction items as [|[x y] l IH]; simpl; [reflexivity|].
      f_equal. exact IH.
    + unfold RelabelDataset.__init__. simpl. rewrite length_map, Z.eqb_refl. reflexivity.
Qed.

Lemma relabel_dataset_replaces_labels_witness :
  let ds := {| RelabelDataset._dataset := Source [(10, 0); (20, 1)];
               RelabelDataset._labels := [5; 6] |} in
  read_all (RelabelDataset.__len__ ds) (fun i => RelabelDataset.__getitem__ fst i ds)
  = Ok (combine (map fst [(10, 0); (20, 1)]) [5; 6]).
Proof.
  intros ds.
  apply (proj1 (relabel_dataset_replaces_labels [(10, 0); (20, 1)] [5; 6])).
  reflexivity.
Defined.

End Wrappers.

(** ** The wraparound loader *)

Section Wraparound.
Context {B : Type}.
Implicit Types (self : WraparoundLoader.t B) (l : list B).

Lemma skipn_cons_nth l : forall k x rest,
  skipn k l = x :: rest -> nth_error l k = Some x /\ skipn (S k) l = rest.
Proof.
  induction l as [|a l IH]; intros [|k] x rest H; simpl in *; try discriminate.
  - inversion H. auto.
  - apply IH, H.
Qed.

Lemma skipn_nil_length l k : skipn k l = [] -> (length l <= k)%nat.
Proof.
  intros H. pose proof (length_skipn k l) as E. rewrite H in E. simpl in E. lia.
Qed.

(** The loader in the middle of a pass over a fixed sequence [l]:
    [k] batches of the current pass are gone. *)
Lemma draw_cycles l (Hne : l <> []) : forall m self k,
  (forall i, WraparoundLoader._ds self i = l) ->
  WraparoundLoader._iter self = skipn k l -> (k <= length l)%nat ->
  exists xs self',
    WraparoundLoader.draw m self = (Ok xs, self') /\
    length xs = m /\
    forall j, (j < m)%nat ->
      nth_error xs j = nth_error l ((k + j) mod length l).
Proof.
  assert (Hn : (0 < length l)%nat) by (destruct l; [congruence | simpl; lia]).
  induction m as [|m IH]; intros self k Hds Hit Hk.
  - exists [], self. repeat split. intros j Hj. lia.
  - simpl. unfold bind at 1. unfold WraparoundLoader.__next__.
    destruct (WraparoundLoader._iter self) as [|x rest] eqn:Ei.
    + (* the pass is over: a new iterator is made *)
      symmetry in Hit. apply skipn_nil_length in Hit.
      assert (k = length l) by lia. subst k.
      rewrite Hds. destruct l as [|x rest] eqn:El; [congruence|]. rewrite <- El in *.
      destruct (IH {| WraparoundLoader._ds := WraparoundLoader._ds self;
                      WraparoundLoader.iters_made := S (WraparoundLoader.iters_made self);
                      WraparoundLoader._iter := rest |} 1%nat)
        as (xs & self' & Hdraw & Hlen & Hnth).
      { exact Hds. }
      { rewrite El. reflexivity. }
      { lia. }
      unfold bind. rewrite Hdraw. unfold ret. exists (x :: xs), self'.
      split; [reflexivity|]. split; [simpl; congruence|].
      intros [|j] Hj.
      * simpl. rewrite Nat.add_0_r, Nat.Div0.mod_same. rewrite El. reflexivity.
      * simpl. rewrite Hnth by lia.
        replace (length l + S j)%nat with (1 + j + 1 * length l)%nat by lia.
        rewrite Nat.Div0.mod_add. reflexivity.
    + symmetry in Hit. apply skipn_cons_nth in Hit as [Hx Hrest].
      assert (Hlt : (k < length l)%nat) by (apply nth_error_Some; congruence).
      destruct (IH {| WraparoundLoader._ds := WraparoundLoader._ds self;
                      WraparoundLoader.iters_made := WraparoundLoader.iters_made self;
                      WraparoundLoader._iter := rest |} (S k))
        as (xs & self' & Hdraw & Hlen & Hnth).
      { exact Hds. }
      { simpl. symmetry. exact Hrest. }
      { lia. }
      unfold bind. rewrite Hdraw. unfold ret. exists (x :: xs), self'.
      split; [reflexivity|]. split; [simpl; congruence|].
      intros [|j] Hj.
      * simpl. rewrite Nat.add_0_r, Nat.mod_small by exact Hlt. symmetry. exact Hx.
      * simpl. rewrite Hnth by lia. f_equal. f_equal. lia.
Qed.

(** X12.  Over a loader that yields the same non-empty sequence of [n]
    batches each time it is iterated, [next] never raises, and the
    [j]-th batch drawn (from 0) is batch [j mod n] of the sequence: the
    loader wraps around. *)
Theorem wraparound_cycles l (m : nat) :
  l <> [] ->
  exists xs self',
    WraparoundLoader.draw m (WraparoundLoader.__init__ (fun _ => l)) = (Ok xs, self') /\
    length xs = m /\
    forall j, (j < m)%nat -> nth_error xs j = nth_error l (j mod length l).
Proof.
  intros Hne.
  apply (draw_cycles l Hne m (WraparoundLoader.__init__ (fun _ => l)) O);
    [reflexivity | reflexivity | lia].
Qed.

(** X13.  Whatever order each pass comes in, as long as no pass is
    empty, [m] calls of [next] return [m] batches; over an empty loader
    the very first call raises [StopIteration]. *)
Theorem wraparound_never_stops (ds : nat -> list B) :
  ((forall i, ds i <> []) ->
   forall m, exists xs self',
     WraparoundLoader.draw m (WraparoundLoader.__init__ ds) = (Ok xs, self') /\
     length xs = m) /\
  (ds O = [] -> ds 1%nat = [] ->
   fst (WraparoundLoader.__next__ (WraparoundLoader.__init__ ds)) = Raise StopIteration).
Proof.
  split.
  - intros Hne m.
    assert (Hgen : forall m self, WraparoundLoader._ds self = ds ->
              exists xs self', WraparoundLoader.draw m self = (Ok xs, self') /\
                               length xs = m).
    { clear m. induction m as [|m IH]; intros self Hds.
      - exists [], self. split; reflexivity.
      - simpl. unfold bind at 1. unfold WraparoundLoader.__next__.
        destruct (WraparoundLoader._iter self) as [|x rest].
        + rewrite Hds. destruct (ds (WraparoundLoader.iters_made self)) as [|x rest] eqn:E;
            [exfalso; eapply Hne; eauto|].
          destruct (IH {| WraparoundLoader._ds := ds;
                          WraparoundLoader.iters_made := S (WraparoundLoader.iters_made self);
                          WraparoundLoader._iter := rest |} eq_refl)
            as (xs & self' & Hdraw & Hlen).
          unfold bind. rewrite Hdraw. unfold ret. exists (x :: xs), self'.
          split; [reflexivity | simpl; congruence].
        + rewrite Hds.
          destruct (IH {| WraparoundLoader._ds := ds;
                          WraparoundLoader.iters_made := WraparoundLoader.iters_made self;
                          WraparoundLoader._iter := rest |} eq_refl)
            as (xs & self' & Hdraw & Hlen).
          unfold bind. rewrite Hdraw. unfold ret. exists (x :: xs), self'.
          split; [reflexivity | simpl; congruence]. }
    apply Hgen. reflexivity.
  - intros H0 H1. unfold WraparoundLoader.__next__, WraparoundLoader.__init__. simpl.
    rewrite H0, H1. reflexivity.
Qed.

End Wraparound.

Lemma wraparound_cycles_witness :
  exists xs self',
    WraparoundLoader.draw 7 (WraparoundLoader.__init__ (fun _ => [1; 2; 3]))
    = (Ok xs, self') /\
    length xs = 7%nat /\
    forall j, (j < 7)%nat -> nth_error xs j = nth_error [1; 2; 3] (j mod 3).
Proof. apply (wraparound_cycles [1; 2; 3] 7). discriminate. Defined.

Lemma wraparound_never_stops_witness :
  (exists xs self',
      WraparoundLoader.draw 5
        (WraparoundLoader.__init__ (fun i => if Nat.even i then [1; 2] else [2; 1]))
      = (Ok xs, self') /\ length xs = 5%nat) /\
  fst (WraparoundLoader.__next__ (WraparoundLoader.__init__ (fun _ => @nil Z)))
  = Raise StopIteration.
Proof.
  split.
  - apply (proj1 (wraparound_never_stops
                    (fun i => if Nat.even i then [1; 2] else [2; 1]))).
    intros i. destruct (Nat.even i); discriminate.
  - apply (proj2 (wraparound_never_stops (fun _ => @nil Z))); reflexivity.
Defined.

(** ** The annealing schedule: range and joints *)

Section AnnealerMore.
Import Annealer.
Implicit Types (self : Annealer.t).

(** X14.  With [alpha >= 0], the weight, wherever it is defined, lies
    between [0] and [alpha]. *)
Theorem weight_bounds self w :
  (0 <= _alpha self)%Q -> weight self = Ok w -> (0 <= w <= _alpha self)%Q.
Proof.
  intros Ha Hw.
  destruct (Z_lt_le_dec (_step self) (_T1 self)) as [H1|H1].
  - rewrite weight_below in Hw by exact H1. inversion Hw. subst w.
    split; [apply Qle_refl | exact Ha].
  - destruct (Z_lt_le_dec (_T2 self) (_step self)) as [H2|H2].
    + rewrite weight_above in Hw by assumption. inversion Hw. subst w.
      split; [exact Ha | apply Qle_refl].
    + destruct (Z.eq_dec (_T1 self) (_T2 self)) as [He|He].
      { rewrite weight_zero_division in Hw; [discriminate | exact He | lia]. }
      rewrite weight_ramp in Hw by lia. inversion Hw. subst w. split.
      * apply Qmult_le_0_compat; [|exact Ha].
        rewrite <- (ramp_zero (_T2 self - _T1 self)). apply ramp_mono; lia.
      * rewrite <- (Qmult_1_l (_alpha self)) at 2.
        apply Qmult_le_compat_r; [|exact Ha].
        rewrite <- (ramp_one (_T2 self - _T1 self)) by lia.
        apply ramp_mono; lia.
Qed.

(** X15.  With [T1 < T2] the schedule has no jump where its pieces
    meet: at step [T1] the weight is [0], as it is just before, and at
    step [T2] it is [alpha], as it is from there on. *)
Theorem weight_joints self :
  _T1 self < _T2 self ->
  (_step self = _T1 self -> exists w, weight self = Ok w /\ (w == 0)%Q) /\
  (_step self = _T2 self -> exists w, weight self = Ok w /\ (w == _alpha self)%Q).
Proof.
  intros Hlt. split; intros Hs.
  - eexists. split; [apply weight_ramp; lia|].
    rewrite Hs, Z.sub_diag. rewrite ramp_zero. apply Qmult_0_l.
  - eexists. split; [apply weight_ramp; lia|].
    rewrite Hs, ramp_one by lia. apply Qmult_1_l.
Qed.

End AnnealerMore.

Lemma weight_bounds_witness :
  exists w, Annealer.weight (Examples.schedule 350) = Ok w /\
            (0 <= w <= Annealer._alpha (Examples.schedule 350))%Q.
Proof.
  eexists. split; [reflexivity|].
  apply (weight_bounds (Examples.schedule 350)).
  - simpl. discriminate.
  - reflexivity.
Defined.

Lemma weight_joints_witness :
  (exists w, Annealer.weight (Annealer.__init__ (Some 100) None None None) = Ok w /\
             (w == 0)%Q) /\
  (exists w, Annealer.weight (Annealer.__init__ (Some 700) None None None) = Ok w /\
             (w == 3 # 1)%Q).
Proof.
  split.
  - apply (proj1 (weight_joints (Annealer.__init__ (Some 100) None None None)
                    ltac:(simpl; lia))). reflexivity.
  - apply (proj2 (weight_joints (Annealer.__init__ (Some 700) None None None)
                    ltac:(simpl; lia))). reflexivity.
Defined.

(** ** Removing pseudo-labels *)

Section RemovePseudoLabels.
Context {item label : Type}.
Implicit Types (removed indices mask : list Z) (labels : list label).

Local Abbreviation kept_pair removed :=
  (fun p : Z * label => negb (contains removed (fst p))) (only parsing).

Lemma contains_In (s : list Z) x : contains s x = true <-> In x s.
Proof.
  unfold contains. rewrite existsb_exists. split.
  - intros (y & Hy & E). apply Z.eqb_eq in E. subst. exact Hy.
  - intros H. exists x. split; [exact H | apply Z.eqb_refl].
Qed.

Lemma not_contains_In (s : list Z) x : negb (contains s x) = true <-> ~ In x s.
Proof.
  rewrite negb_true_iff, <- contains_In. destruct (contains s x); split; congruence.
Qed.

Lemma keep_spec removed indices : forall (i : Z) (before labels : list label),
  Z.of_nat (length before) = i ->
  length labels = length indices ->
  exists new_labels,
    take (before ++ labels) (snd (PseudoLabels.keep removed i indices)) = Ok new_labels /\
    fst (PseudoLabels.keep removed i indices)
      = filter (fun idx => negb (contains removed idx)) indices /\
    combine (fst (PseudoLabels.keep removed i indices)) new_labels
      = filter (kept_pair removed) (combine indices labels) /\
    length new_labels = length (fst (PseudoLabels.keep removed i indices)).
Proof.
  induction indices as [|idx rest IH]; intros i before labels Hi Hlen.
  - exists []. simpl. auto.
  - destruct labels as [|y labels]; [discriminate|]. simpl in Hlen.
    destruct (IH (i + 1) (before ++ [y]) labels) as (nl & Htake & Hfst & Hzip & Hl).
    { rewrite length_app. simpl. lia. }
    { lia. }
    rewrite <- app_assoc in Htake. simpl in Htake.
    simpl PseudoLabels.keep.
    destruct (PseudoLabels.keep removed (i + 1) rest) as [ni mask] eqn:Ek.
    simpl in Htake, Hfst, Hzip, Hl. simpl filter.
    destruct (negb (contains removed idx)) eqn:Ec; simpl.
    + exists (y :: nl). rewrite Htake.
      assert (Hat : item_at (before ++ y :: labels) i = Ok y).
      { apply item_at_Ok. exists (length before). split.
        - rewrite norm_index_nonneg; [f_equal; lia|].
          rewrite length_app. simpl. lia.
        - rewrite nth_error_app2 by lia. rewrite Nat.sub_diag. reflexivity. }
      rewrite Hat. repeat split; simpl; congruence.
    + exists nl. repeat split; assumption.
Qed.

(** X16.  On a wrapper whose dataset is a [Subset] with one label per
    index, [remove_pseudo_labels] returns; the indices left are the old
    ones, in order, without those to remove; and every index left still
    carries the label it carried before.  Given [None] it does nothing;
    given a wrapper whose dataset has no [indices] it raises
    [AttributeError] and changes nothing. *)
Theorem remove_pseudo_labels_keeps_pairs removed
    (obj : PseudoLabelDataset.t item label) :
  PseudoLabels.remove_pseudo_labels removed (@None (PseudoLabelDataset.t item label))
    = (Ok tt, None) /\
  (forall base indices,
      PseudoLabelDataset._dataset obj = Subset base indices ->
      length (PseudoLabelDataset._labels obj) = length indices ->
      exists new_indices new_labels,
        PseudoLabels.remove_pseudo_labels removed (Some obj)
          = (Ok tt, Some {| PseudoLabelDataset._dataset := Subset base new_indices;
                            PseudoLabelDataset._labels := new_labels |}) /\
        new_indices = filter (fun idx => negb (contains removed idx)) indices /\
        (forall idx, In idx new_indices -> ~ In idx removed) /\
        combine new_indices new_labels
          = filter (kept_pair removed)
                   (combine indices (PseudoLabelDataset._labels obj))) /\
  (forall items,
      PseudoLabelDataset._dataset obj = Source items ->
      PseudoLabels.remove_pseudo_labels removed (Some obj)
        = (Raise AttributeError, Some obj)).
Proof.
  split; [reflexivity|]. split.
  - intros base indices Hds Hlen.
    destruct (keep_spec removed indices 0 [] (PseudoLabelDataset._labels obj)
                eq_refl Hlen) as (nl & Htake & Hfst & Hzip & Hl).
    simpl in Htake.
    unfold PseudoLabels.remove_pseudo_labels. rewrite Hds.
    destruct (PseudoLabels.keep removed 0 indices) as [ni mask] eqn:Ek.
    simpl in Htake, Hfst, Hzip, Hl. rewrite Htake.
    unfold PseudoLabelDataset.__len__. simpl.
    rewrite Hl, Z.eqb_refl.
    exists ni, nl. split; [reflexivity|]. split; [exact Hfst|]. split; [|exact Hzip].
    intros idx Hin Hrem. rewrite Hfst in Hin. apply filter_In in Hin as [_ Hc].
    apply contains_In in Hrem. rewrite Hrem in Hc. discriminate.
  - intros items Hds. unfold PseudoLabels.remove_pseudo_labels. rewrite Hds. reflexivity.
Qed.

End RemovePseudoLabels.

Lemma remove_pseudo_labels_keeps_pairs_witness :
  let obj := {| PseudoLabelDataset._dataset := Subset (Source [10; 20; 30; 40]) [3; 0; 2];
                PseudoLabelDataset._labels := [7; 8; 9] |} in
  (exists new_indices new_labels,
      PseudoLabels.remove_pseudo_labels [0; 5] (Some obj)
        = (Ok tt, Some {| PseudoLabelDataset._dataset :=
                            Subset (Source [10; 20; 30; 40]) new_indices;
                          PseudoLabelDataset._labels := new_labels |}) /\
      new_indices = filter (fun idx => negb (contains [0; 5] idx)) [3; 0; 2] /\
      (forall idx, In idx new_indices -> ~ In idx [0; 5]) /\
      combine new_indices new_labels
        = filter (fun p : Z * Z => negb (contains [0; 5] (fst p)))
                 (combine [3; 0; 2] [7; 8; 9])) /\
  PseudoLabels.remove_pseudo_labels [0]
    (Some {| PseudoLabelDataset._dataset := Source [10; 20];
             PseudoLabelDataset._labels := [7; 8] |})
  = (Raise AttributeError,
     Some {| PseudoLabelDataset._dataset := Source [10; 20];
             PseudoLabelDataset._labels := [7; 8] |}).
Proof.
  intros obj. split.
  - apply (proj1 (proj2 (remove_pseudo_labels_keeps_pairs [0; 5] obj))
             (Source [10; 20; 30; 40]) [3; 0; 2]); reflexivity.
  - apply (proj2 (proj2 (remove_pseudo_labels_keeps_pairs [0]
             {| PseudoLabelDataset._dataset := Source [10; 20];
                PseudoLabelDataset._labels := [7; 8] |})) [10; 20]).
    reflexivity.
Defined.

(** ** Imbalanced pools *)

Section DictFacts.

Lemma dict_get_set (d : list (Z * Z)) k v k' :
  dict_get (dict_set d k v) k' = if k =? k' then Some v else dict_get d k'.
Proof.
  induction d as [|[k0 v0] d IH]; simpl.
  - reflexivity.
  - destruct (k0 =? k) eqn:E; simpl.
    + apply Z.eqb_eq in E. subst k0. destruct (k =? k'); reflexivity.
    + destruct (k0 =? k') eqn:E'; [|exact IH].
      apply Z.eqb_eq in E'. subst k0. rewrite Z.eqb_sym, E. reflexivity.
Qed.

Lemma dict_fromkeys_get (classes : list Z) n c :
  dict_get (dict_fromkeys classes n) c = if contains classes c then Some n else None.
Proof.
  unfold dict_fromkeys.
  assert (H : forall d0,
             dict_get (fold_left (fun d k => dict_set d k n) classes d0) c
             = if contains classes c then Some n else dict_get d0 c).
  { induction classes as [|k classes IH]; intros d0; simpl; [reflexivity|].
    rewrite IH, dict_get_set. rewrite (Z.eqb_sym c k).
    destruct (k =? c); simpl; [destruct (contains classes c); reflexivity | reflexivity]. }
  apply H.
Qed.

Lemma subseq_incl {B} (kept l : list B) : subseq kept l -> incl kept l.
Proof.
  induction 1 as [|x kept l _ IH|x kept l _ IH]; intros y Hy.
  - exact Hy.
  - destruct Hy as [<- | Hy]; [left; reflexivity | right; apply IH, Hy].
  - right. apply IH, Hy.
Qed.

Lemma subseq_NoDup {B} (kept l : list B) : subseq kept l -> NoDup l -> NoDup kept.
Proof.
  induction 1 as [|x kept l Hs IH|x kept l _ IH]; intros Hnd.
  - constructor.
  - inversion Hnd as [|? ? Hx Hnd']; subst. constructor; [|apply IH, Hnd'].
    intros Hin. apply Hx. eapply subseq_incl; eauto.
  - inversion Hnd; subst. auto.
Qed.

End DictFacts.

Section ImbalancedFacts.
Context {item : Type}.
Variable item1 : item -> Z.
Variable dataset : Dataset item.
(** The class stored at each index the permutation goes through. *)
Variable cls : Z -> Z.

Local Abbreviation readable := (Imbalanced.readable item1 dataset cls) (only parsing).
Local Abbreviation count_cls := (Imbalanced.count_cls cls) (only parsing).

Lemma count_cls_nonneg c l : 0 <= count_cls c l.
Proof. unfold Imbalanced.count_cls. lia. Qed.

Lemma count_cls_snoc c l i :
  count_cls c (l ++ [i]) = count_cls c l + (if cls i =? c then 1 else 0).
Proof.
  unfold Imbalanced.count_cls. rewrite filter_app, length_app. simpl.
  destruct (cls i =? c); simpl; lia.
Qed.

Lemma count_cls_app c l l' : count_cls c (l ++ l') = count_cls c l + count_cls c l'.
Proof. unfold Imbalanced.count_cls. rewrite filter_app, length_app. lia. Qed.

Lemma readable_cons i perm :
  readable (i :: perm) ->
  (exists it, getitem dataset i = Ok it /\ item1 it = cls i) /\ readable perm.
Proof.
  intros H. split; [apply H; left; reflexivity | intros j Hj; apply H; right; exact Hj].
Qed.

(** Whether the loop keeps index [i], met after the indices [seen]. *)
Local Abbreviation kept_after classes n seen i :=
  (negb (contains classes (cls i)) || (count_cls (cls i) seen <? n))
  (only parsing).

Lemma imbalanced_loop_spec (classes : list Z) (n : Z) (perm : list Z) :
  forall seen idxs count,
    readable perm ->
    (forall c, dict_get count c
               = if contains classes c then Some (n - count_cls c idxs) else None) ->
    (forall c, contains classes c = true ->
               count_cls c idxs = Z.min (count_cls c seen) (Z.max n 0)) ->
    (forall c, contains classes c = false -> count_cls c idxs = count_cls c seen) ->
    exists kept,
      Imbalanced.imbalanced_loop item1 dataset perm idxs count = Ok (idxs ++ kept) /\
      subseq kept perm /\
      (forall c, contains classes c = true ->
         count_cls c (idxs ++ kept) = Z.min (count_cls c (seen ++ perm)) (Z.max n 0)) /\
      (forall c, contains classes c = false ->
         count_cls c (idxs ++ kept) = count_cls c (seen ++ perm)) /\
      (forall pre i post, perm = pre ++ i :: post ->
         exists k1 k2,
           kept = k1 ++ (if kept_after classes n (seen ++ pre) i then [i] else []) ++ k2 /\
           subseq k1 pre /\ subseq k2 post).
Proof.
  induction perm as [|i perm IH]; intros seen idxs count Hread Hcount Hin Hout.
  - exists []. simpl. rewrite !app_nil_r. repeat split; auto; [constructor|].
    intros [|? ?] ? ? H; discriminate H.
  - apply readable_cons in Hread as [(it & Hit & Hcls) Hread].
    simpl. rewrite Hit. simpl. rewrite Hcls, Hcount.
    (* the decision taken for [i], and what it does to the state *)
    assert (Hdec : exists (d : bool) idxs' count',
               d = kept_after classes n seen i /\
               idxs' = (if d then idxs ++ [i] else idxs) /\
               match (if contains classes (cls i)
                      then Some (n - count_cls (cls i) idxs) else None) with
               | Some c =>
                   if c >? 0
                   then Imbalanced.imbalanced_loop item1 dataset perm (idxs ++ [i])
                          (dict_set count (cls i) (c - 1))
                   else Imbalanced.imbalanced_loop item1 dataset perm idxs count
               | None => Imbalanced.imbalanced_loop item1 dataset perm (idxs ++ [i]) count
               end
               = Imbalanced.imbalanced_loop item1 dataset perm idxs' count' /\
               (forall c, dict_get count' c
                          = if contains classes c
                            then Some (n - count_cls c idxs') else None) /\
               (forall c, contains classes c = true ->
                          count_cls c idxs'
                          = Z.min (count_cls c (seen ++ [i])) (Z.max n 0)) /\
               (forall c, contains classes c = false ->
                          count_cls c idxs' = count_cls c (seen ++ [i]))).
    { destruct (contains classes (cls i)) eqn:Ec.
      - pose proof (Hin _ Ec) as Hk.
        pose proof (count_cls_nonneg (cls i) seen) as Hs0.
        destruct (n - count_cls (cls i) idxs >? 0) eqn:Egt.
        + apply Z.gtb_lt in Egt.
          exists true, (idxs ++ [i]),
            (dict_set count (cls i) (n - count_cls (cls i) idxs - 1)).
          split; [symmetry; simpl; apply Z.ltb_lt; lia|].
          split; [reflexivity|]. split; [reflexivity|]. split; [|split].
          * intros c. rewrite dict_get_set, count_cls_snoc, Hcount.
            destruct (cls i =? c) eqn:E.
            -- apply Z.eqb_eq in E. subst c. rewrite Ec. f_equal. lia.
            -- rewrite Z.add_0_r. reflexivity.
          * intros c Hc. rewrite !count_cls_snoc. specialize (Hin c Hc).
            pose proof (count_cls_nonneg c seen).
            destruct (cls i =? c) eqn:E; [apply Z.eqb_eq in E; subst c|]; lia.
          * intros c Hc. rewrite !count_cls_snoc. rewrite (Hout c Hc). reflexivity.
        + assert (Ele : n - count_cls (cls i) idxs <= 0).
          { destruct (Z_lt_le_dec 0 (n - count_cls (cls i) idxs)) as [H|H]; [|exact H].
            apply Z.gtb_lt in H. congruence. }
          exists false, idxs, count.
          split; [symmetry; simpl; apply Z.ltb_ge; lia|].
          split; [reflexivity|]. split; [reflexivity|]. split; [exact Hcount|]. split.
          * intros c Hc. rewrite count_cls_snoc. specialize (Hin c Hc).
            pose proof (count_cls_nonneg c seen).
            destruct (cls i =? c) eqn:E; [apply Z.eqb_eq in E; subst c|]; lia.
          * intros c Hc. rewrite count_cls_snoc. rewrite (Hout c Hc).
            destruct (cls i =? c) eqn:E; [|lia].
            apply Z.eqb_eq in E. subst c. congruence.
      - exists true, (idxs ++ [i]), count.
        split; [reflexivity|]. split; [reflexivity|]. split; [reflexivity|].
        split; [|split].
        + intros c. rewrite count_cls_snoc, Hcount.
          destruct (cls i =? c) eqn:E; [|rewrite Z.add_0_r; reflexivity].
          apply Z.eqb_eq in E. subst c. rewrite Ec. reflexivity.
        + intros c Hc. rewrite !count_cls_snoc. specialize (Hin c Hc).
          destruct (cls i =? c) eqn:E; [|lia].
          apply Z.eqb_eq in E. subst c. congruence.
        + intros c Hc. rewrite !count_cls_snoc. rewrite (Hout c Hc). reflexivity. }
    destruct Hdec as (d & idxs' & count' & Hd & Hidxs & -> & Hcount' & Hin' & Hout').
    destruct (IH (seen ++ [i]) idxs' count' Hread Hcount' Hin' Hout')
      as (kept & Hloop & Hsub & Hc1 & Hc2 & Hpos).
    exists ((if d then [i] else []) ++ kept).
    assert (Hjoin : idxs ++ (if d then [i] else []) ++ kept = idxs' ++ kept).
    { subst idxs'. destruct d; simpl; [rewrite <- app_assoc|]; reflexivity. }
    rewrite Hjoin. rewrite <- !app_assoc in *. simpl in *.
    split; [exact Hloop|].
    split; [destruct d; simpl; constructor; exact Hsub|].
    split; [exact Hc1|]. split; [exact Hc2|].
    intros pre j post Heq. destruct pre as [|p pre]; simpl in Heq; inversion Heq; subst.
    + exists [], kept. rewrite app_nil_r. simpl.
      split; [reflexivity|]. split; [constructor | exact Hsub].
    + destruct (Hpos pre j post eq_refl) as (k1 & k2 & Hk & Hs1 & Hs2).
      exists ((if kept_after classes n seen p then [p] else []) ++ k1), k2.
      rewrite <- app_assoc in Hk. simpl in Hk.
      split; [rewrite Hk, <- app_assoc; reflexivity|].
      split; [|exact Hs2].
      destruct (kept_after classes n seen p); simpl; constructor; exact Hs1.
Qed.

(** X17.  [make_imbalanced_pool(dataset, classes, n)] answers a [Subset]
    of the dataset whose indices are some of the permutation's, in the
    permutation's order.  An index is kept exactly when its class is not
    listed in [classes], or fewer than [n] items of its class come
    before it in the permutation: of a listed class the first [n] items
    met are kept (all of them if there are fewer, none if [n <= 0]), of
    every other class all. *)
Theorem make_imbalanced_pool_counts (classes : list Z) (n : Z) (perm : list Z) :
  readable perm ->
  NoDup perm ->
  exists idxs,
    Imbalanced.make_imbalanced_pool item1 dataset classes n perm
      = Ok (Subset dataset idxs) /\
    subseq idxs perm /\
    (forall pre i post, perm = pre ++ i :: post ->
       (In i idxs <-> ~ In (cls i) classes \/ count_cls (cls i) pre < n)) /\
    (forall c, In c classes ->
       count_cls c idxs = Z.min (count_cls c perm) (Z.max n 0)) /\
    (forall c, ~ In c classes -> count_cls c idxs = count_cls c perm).
Proof.
  intros Hread Hnd.
  destruct (imbalanced_loop_spec classes n perm [] [] (dict_fromkeys classes n))
    as (kept & Hloop & Hsub & Hc1 & Hc2 & Hpos); [exact Hread | | | |].
  - intros c. rewrite dict_fromkeys_get. unfold Imbalanced.count_cls. simpl.
    rewrite Z.sub_0_r. reflexivity.
  - intros c _. unfold Imbalanced.count_cls. simpl. lia.
  - intros c _. reflexivity.
  - simpl in *. exists kept. unfold Imbalanced.make_imbalanced_pool.
    rewrite Hloop. simpl. split; [reflexivity|]. split; [exact Hsub|]. split; [|split].
    + intros pre i post Heq.
      destruct (Hpos pre i post Heq) as (k1 & k2 & Hk & Hs1 & Hs2).
      subst perm. apply NoDup_remove_2 in Hnd.
      assert (Hn1 : ~ In i k1)
        by (intros H; apply Hnd, in_or_app; left; eapply subseq_incl; eauto).
      assert (Hn2 : ~ In i k2)
        by (intros H; apply Hnd, in_or_app; right; eapply subseq_incl; eauto).
      assert (Hb : In i kept <-> kept_after classes n pre i = true).
      { rewrite Hk. destruct (kept_after classes n pre i); simpl.
        - split; [reflexivity|]. intros _. apply in_or_app. right. left. reflexivity.
        - split; [|discriminate]. intros H. apply in_app_or in H as [H|H]; contradiction. }
      rewrite Hb, orb_true_iff, not_contains_In, Z.ltb_lt. reflexivity.
    + intros c Hc. apply Hc1. apply contains_In. exact Hc.
    + intros c Hc. apply Hc2. destruct (contains classes c) eqn:E; [|reflexivity].
      apply contains_In in E. contradiction.
Qed.

End ImbalancedFacts.

(** Six items of classes 0, 1, 0, 0, 1, 2; at most two of class 0 and
    two of class 2 are wanted. *)
Lemma make_imbalanced_pool_counts_witness :
  let data := Source [(10, 0); (11, 1); (12, 0); (13, 0); (14, 1); (15, 2)] in
  let cls := fun i => nth (Z.to_nat i) [0; 1; 0; 0; 1; 2] 9 in
  let perm := [3; 1; 0; 5; 2; 4] in
  exists idxs,
    Imbalanced.make_imbalanced_pool snd data [0; 2] 2 perm = Ok (Subset data idxs) /\
    subseq idxs perm /\
    (forall pre i post, perm = pre ++ i :: post ->
       (In i idxs <-> ~ In (cls i) [0; 2] \/ Imbalanced.count_cls cls (cls i) pre < 2)) /\
    (forall c, In c [0; 2] ->
       Imbalanced.count_cls cls c idxs
       = Z.min (Imbalanced.count_cls cls c perm) (Z.max 2 0)) /\
    (forall c, ~ In c [0; 2] ->
       Imbalanced.count_cls cls c idxs = Imbalanced.count_cls cls c perm).
Proof.
  intros data cls perm.
  apply (make_imbalanced_pool_counts snd data cls [0; 2] 2 perm).
  - intros i Hi. simpl in Hi.
    repeat (destruct Hi as [<- | Hi]; [eexists; split; reflexivity|]).
    destruct Hi.
  - repeat constructor; simpl; intuition lia.
Defined.

Section UnevenSplitFacts.
Context {item : Type}.
Variable item1 : item -> Z.
Variable dataset : Dataset item.
Variable cls : Z -> Z.
Variable set_order : list Z -> list Z.

Local Abbreviation readable := (Imbalanced.readable item1 dataset cls) (only parsing).
Local Abbreviation count_cls := (Imbalanced.count_cls cls) (only parsing).
Local Abbreviation all_zero :=
  (forallb (fun kv : Z * Z => snd kv =? 0)) (only parsing).

Lemma dict_get_In (d : list (Z * Z)) k v : dict_get d k = Some v -> In (k, v) d.
Proof.
  induction d as [|[k0 v0] d IH]; simpl; [discriminate|].
  destruct (k0 =? k) eqn:E.
  - intros H. inversion H. apply Z.eqb_eq in E. subst. left. reflexivity.
  - intros H. right. apply IH, H.
Qed.

Lemma all_zero_get (d : list (Z * Z)) k v :
  all_zero d = true -> dict_get d k = Some v -> v = 0.
Proof.
  intros Hz Hg. apply dict_get_In in Hg. rewrite forallb_forall in Hz.
  specialize (Hz _ Hg). simpl in Hz. apply Z.eqb_eq in Hz. exact Hz.
Qed.

Lemma uneven_loop_spec (mapping : list (Z * Z)) (perm : list Z) :
  forall seen idxs count,
    readable perm ->
    (forall i, In i perm -> dict_get mapping (cls i) <> None) ->
    (forall c m, dict_get mapping c = Some m -> 0 <= m) ->
    (forall c, dict_get count c
               = option_map (fun m => m - count_cls c idxs) (dict_get mapping c)) ->
    (forall c m, dict_get mapping c = Some m ->
                 count_cls c idxs = Z.min (count_cls c seen) m) ->
    exists kept,
      Imbalanced.uneven_loop item1 dataset perm idxs count = Ok (idxs ++ kept) /\
      subseq kept perm /\
      (forall c m, dict_get mapping c = Some m ->
         count_cls c (idxs ++ kept) = Z.min (count_cls c (seen ++ perm)) m).
Proof.
  induction perm as [|i perm IH]; intros seen idxs count Hread Hkeys Hnn Hcount Hmin.
  - exists []. simpl. rewrite !app_nil_r. repeat split; auto. constructor.
  - simpl. destruct (all_zero count) eqn:Ez.
    + (* break *)
      exists []. rewrite app_nil_r. split; [reflexivity|].
      split; [constructor; clear; induction perm; constructor; auto|].
      intros c m Hm. specialize (Hcount c). rewrite Hm in Hcount. simpl in Hcount.
      apply (all_zero_get _ _ _ Ez) in Hcount.
      pose proof (Hmin c m Hm) as Hk. rewrite count_cls_app.
      pose proof (count_cls_nonneg cls c (i :: perm)). lia.
    + apply readable_cons in Hread as [(it & Hit & Hcls) Hread].
      rewrite Hit. simpl. rewrite Hcls.
      destruct (dict_get mapping (cls i)) as [m|] eqn:Em;
        [|exfalso; apply (Hkeys i (or_introl eq_refl)); exact Em].
      pose proof (Hcount (cls i)) as Hc. rewrite Em in Hc. simpl in Hc. rewrite Hc.
      pose proof (Hmin _ _ Em) as Hk. pose proof (Hnn _ _ Em) as Hm0.
      pose proof (count_cls_nonneg cls (cls i) seen) as Hs0.
      assert (Hkeys' : forall j, In j perm -> dict_get mapping (cls j) <> None)
        by (intros j Hj; apply Hkeys; right; exact Hj).
      destruct (m - Imbalanced.count_cls cls (cls i) idxs =? 0) eqn:E0.
      * apply Z.eqb_eq in E0.
        destruct (IH (seen ++ [i]) idxs count) as (kept & Hloop & Hsub & Hc1);
          [exact Hread | exact Hkeys' | exact Hnn | exact Hcount | |].
        { intros c m' Hm'. rewrite count_cls_snoc. specialize (Hmin c m' Hm').
          pose proof (count_cls_nonneg cls c seen).
          destruct (cls i =? c) eqn:E; [|lia].
          apply Z.eqb_eq in E. subst c. assert (m' = m) by congruence. subst m'. lia. }
        exists kept. rewrite <- !app_assoc in *. simpl in *.
        split; [exact Hloop|]. split; [constructor; exact Hsub | exact Hc1].
      * apply Z.eqb_neq in E0.
        destruct (IH (seen ++ [i]) (idxs ++ [i])
                    (dict_set count (cls i)
                       (m - Imbalanced.count_cls cls (cls i) idxs - 1)))
          as (kept & Hloop & Hsub & Hc1);
          [exact Hread | exact Hkeys' | exact Hnn | | |].
        { intros c. rewrite dict_get_set, count_cls_snoc, Hcount.
          destruct (cls i =? c) eqn:E.
          - apply Z.eqb_eq in E. subst c. rewrite Em. simpl. f_equal. lia.
          - destruct (dict_get mapping c); simpl; [f_equal; lia | reflexivity]. }
        { intros c m' Hm'. rewrite !count_cls_snoc. specialize (Hmin c m' Hm').
          destruct (cls i =? c) eqn:E; [|lia].
          apply Z.eqb_eq in E. subst c. assert (m' = m) by congruence. subst m'. lia. }
        exists (i :: kept). rewrite <- !app_assoc in *. simpl in *.
        split; [exact Hloop|]. split; [constructor; exact Hsub | exact Hc1].
Qed.

(** X18.  [uneven_split(dataset, mapping)], for a permutation of all
    the indices, a mapping with a count that is not negative for every
    class the dataset holds, and whatever order sets are listed in:
    the first subset takes as many items of each class as the mapping
    asks for (all there are, if fewer), in the permutation's order, and
    the two subsets together hold every index of the dataset exactly
    once. *)
Theorem uneven_split_partition (mapping : list (Z * Z)) (perm : list Z) :
  readable perm ->
  Permutation perm (arange (len dataset)) ->
  (forall i, In i perm -> dict_get mapping (cls i) <> None) ->
  (forall c m, dict_get mapping c = Some m -> 0 <= m) ->
  (forall s, Permutation (set_order s) s) ->
  exists idxs rest,
    Imbalanced.uneven_split item1 set_order dataset mapping perm
      = Ok (Subset dataset idxs, Subset dataset rest) /\
    subseq idxs perm /\
    (forall c m, dict_get mapping c = Some m ->
       count_cls c idxs = Z.min (count_cls c perm) m) /\
    Permutation (idxs ++ rest) (arange (len dataset)).
Proof.
  intros Hread Hperm Hkeys Hnn Horder.
  destruct (uneven_loop_spec mapping perm [] [] mapping)
    as (idxs & Hloop & Hsub & Hcnt); [exact Hread | exact Hkeys | exact Hnn | | |].
  - intros c. unfold Imbalanced.count_cls. simpl.
    destruct (dict_get mapping c); simpl; [f_equal; lia | reflexivity].
  - intros c m Hm. unfold Imbalanced.count_cls. simpl. specialize (Hnn c m Hm). lia.
  - simpl in *. unfold Imbalanced.uneven_split. rewrite Hloop. simpl.
    do 2 eexists. split; [reflexivity|]. split; [exact Hsub|]. split; [exact Hcnt|].
    set (others := filter (fun i => negb (contains idxs i)) (arange (len dataset))).
    assert (Hnd : NoDup idxs).
    { eapply subseq_NoDup; [exact Hsub|].
      eapply Permutation_NoDup; [apply Permutation_sym; exact Hperm | apply arange_NoDup]. }
    apply NoDup_Permutation.
    + apply NoDup_app; [exact Hnd | |].
      * eapply Permutation_NoDup; [apply Permutation_sym, Horder|].
        apply NoDup_filter, arange_NoDup.
      * intros x Hx Hr. apply (Permutation_in _ (Horder others)) in Hr.
        apply filter_In in Hr as [_ Hr]. apply not_contains_In in Hr. contradiction.
    + apply arange_NoDup.
    + intros x. rewrite in_app_iff. split.
      * intros [Hx | Hx].
        -- eapply Permutation_in; [exact Hperm|]. eapply subseq_incl; eauto.
        -- apply (Permutation_in _ (Horder others)) in Hx.
           apply filter_In in Hx as [Hx _]. exact Hx.
      * intros Hx. destruct (in_dec Z.eq_dec x idxs) as [Hi|Hi]; [left; exact Hi|].
        right. apply (Permutation_in _ (Permutation_sym (Horder others))).
        apply filter_In. split; [exact Hx | apply not_contains_In; exact Hi].
Qed.

Lemma open_count_not_all_zero (count : list (Z * Z)) c v :
  dict_get count c = Some v -> v <> 0 -> all_zero count = false.
Proof.
  intros Hg Hv. destruct (all_zero count) eqn:E; [|reflexivity].
  exfalso. apply Hv. eapply all_zero_get; eauto.
Qed.

(** As long as the count of some class [c0] is open, the loop goes on;
    it raises at the first item whose class is not a key. *)
Lemma uneven_loop_unknown_class (mapping : list (Z * Z)) c0 m0 i it rest :
  dict_get mapping c0 = Some m0 ->
  getitem dataset i = Ok it ->
  dict_get mapping (item1 it) = None ->
  forall pre seen idxs count,
    readable pre ->
    (forall c, dict_get count c
               = option_map (fun m => m - count_cls c idxs) (dict_get mapping c)) ->
    count_cls c0 idxs <= count_cls c0 seen ->
    m0 < 0 \/ count_cls c0 (seen ++ pre) < m0 ->
    Imbalanced.uneven_loop item1 dataset (pre ++ i :: rest) idxs count = Raise KeyError.
Proof.
  intros Hm0 Hit Hnone.
  induction pre as [|j pre IH]; intros seen idxs count Hread Hcount Hle Hopen.
  - rewrite app_nil_r in Hopen. simpl.
    rewrite (open_count_not_all_zero count c0 (m0 - count_cls c0 idxs)).
    + rewrite Hit. simpl. rewrite Hcount, Hnone. reflexivity.
    + rewrite Hcount, Hm0. reflexivity.
    + pose proof (count_cls_nonneg cls c0 idxs). lia.
  - apply readable_cons in Hread as [(itj & Hitj & Hcls) Hread].
    assert (Hmono : count_cls c0 seen <= count_cls c0 (seen ++ j :: pre)).
    { rewrite count_cls_app. pose proof (count_cls_nonneg cls c0 (j :: pre)). lia. }
    simpl.
    rewrite (open_count_not_all_zero count c0 (m0 - count_cls c0 idxs)).
    + rewrite Hitj. simpl. rewrite Hcls, Hcount.
      destruct (dict_get mapping (cls j)) as [m|] eqn:Em; [|reflexivity].
      simpl.
      destruct (m - Imbalanced.count_cls cls (cls j) idxs =? 0) eqn:E0.
      * apply (IH (seen ++ [j]) idxs count Hread Hcount).
        -- rewrite count_cls_snoc. destruct (cls j =? c0); lia.
        -- rewrite <- app_assoc. exact Hopen.
      * apply (IH (seen ++ [j])); [exact Hread | | |].
        -- intros c. rewrite dict_get_set, count_cls_snoc, Hcount.
           destruct (cls j =? c) eqn:E.
           ++ apply Z.eqb_eq in E. subst c. rewrite Em. simpl. f_equal. lia.
           ++ destruct (dict_get mapping c); simpl; [f_equal; lia | reflexivity].
        -- rewrite !count_cls_snoc. lia.
        -- rewrite <- app_assoc. exact Hopen.
    + rewrite Hcount, Hm0. reflexivity.
    + pose proof (count_cls_nonneg cls c0 idxs). lia.
Qed.

(** X19.  The edges of [uneven_split].  With a mapping whose counts are
    all zero -- an empty mapping among them -- nothing is read and the
    first subset is empty.  With a count still open -- some class is
    asked for more often than the permutation has met it so far, or for
    a negative number of times -- meeting an item whose class is not a
    key of the mapping raises [KeyError], wherever in the permutation
    that item comes. *)
Theorem uneven_split_edges (mapping : list (Z * Z)) (perm : list Z) :
  (all_zero mapping = true ->
   Imbalanced.uneven_split item1 set_order dataset mapping perm
   = Ok (Subset dataset [],
         Subset dataset (set_order (arange (len dataset))))) /\
  (forall pre i rest it c0 m0,
      perm = pre ++ i :: rest ->
      readable pre ->
      dict_get mapping c0 = Some m0 ->
      m0 < 0 \/ count_cls c0 pre < m0 ->
      getitem dataset i = Ok it ->
      dict_get mapping (item1 it) = None ->
      Imbalanced.uneven_split item1 set_order dataset mapping perm = Raise KeyError).
Proof.
  split.
  - intros Hz. unfold Imbalanced.uneven_split.
    assert (Hloop : Imbalanced.uneven_loop item1 dataset perm [] mapping = Ok [])
      by (destruct perm; simpl; [reflexivity | rewrite Hz; reflexivity]).
    rewrite Hloop. simpl.
    assert (Hall : forall l : list Z, filter (fun _ => true) l = l)
      by (induction l as [|x l IH]; simpl; [reflexivity | f_equal; exact IH]).
    rewrite Hall. reflexivity.
  - intros pre i rest it c0 m0 -> Hread Hm0 Hopen Hit Hnone.
    unfold Imbalanced.uneven_split.
    rewrite (uneven_loop_unknown_class mapping c0 m0 i it rest Hm0 Hit Hnone
               pre [] [] mapping Hread).
    + reflexivity.
    + intros c. unfold Imbalanced.count_cls. simpl.
      destruct (dict_get mapping c); simpl; [f_equal; lia | reflexivity].
    + lia.
    + exact Hopen.
Qed.

End UnevenSplitFacts.

(** Six items of classes 0, 1, 0, 0, 1, 2; two of class 0, one of class 1
    and none of class 2 are asked for; sets are listed in descending
    order. *)
Lemma uneven_split_partition_witness :
  let data := Source [(10, 0); (11, 1); (12, 0); (13, 0); (14, 1); (15, 2)] in
  let cls := fun i => nth (Z.to_nat i) [0; 1; 0; 0; 1; 2] 9 in
  let mapping := [(0, 2); (1, 1); (2, 0)] in
  let perm := [3; 1; 0; 5; 2; 4] in
  exists idxs rest,
    Imbalanced.uneven_split snd (@rev Z) data mapping perm
      = Ok (Subset data idxs, Subset data rest) /\
    subseq idxs perm /\
    (forall c m, dict_get mapping c = Some m ->
       Imbalanced.count_cls cls c idxs = Z.min (Imbalanced.count_cls cls c perm) m) /\
    Permutation (idxs ++ rest) (arange (len data)).
Proof.
  intros data cls mapping perm.
  apply (uneven_split_partition snd data cls (@rev Z) mapping perm).
  - intros i Hi. simpl in Hi.
    repeat (destruct Hi as [<- | Hi]; [eexists; split; reflexivity|]).
    destruct Hi.
  - change (arange (len data)) with [0; 1; 2; 3; 4; 5]. unfold perm.
    apply NoDup_Permutation.
    + repeat constructor; simpl; intuition lia.
    + repeat constructor; simpl; intuition lia.
    + intros x. simpl. intuition lia.
  - intros i Hi. simpl in Hi.
    repeat (destruct Hi as [<- | Hi]; [discriminate|]). destruct Hi.
  - intros c m H. apply dict_get_In in H. simpl in H.
    repeat (destruct H as [H | H]; [inversion H; lia|]). destruct H.
  - intros s. apply Permutation_sym, Permutation_rev.
Defined.

(** Every count closed from the start; and one item of class 0 still
    asked for when an item of class 1, which is no key, comes second. *)
Lemma uneven_split_edges_witness :
  let data := Source [(10, 0); (11, 1)] in
  let cls := fun i => nth (Z.to_nat i) [0; 1] 9 in
  Imbalanced.uneven_split snd (fun s => s) data [(0, 0); (1, 0)] [1; 0]
  = Ok (Subset data [], Subset data (arange (len data))) /\
  Imbalanced.uneven_split snd (fun s => s) data [(0, 5)] [0; 1] = Raise KeyError.
Proof.
  intros data cls. split.
  - apply (proj1 (uneven_split_edges snd data cls (fun s => s) [(0, 0); (1, 0)] [1; 0])).
    reflexivity.
  - apply (proj2 (uneven_split_edges snd data cls (fun s => s) [(0, 5)] [0; 1])
             [0] 1 [] (11, 1) 0 5).
    + reflexivity.
    + intros i [<- | []]. eexists. split; reflexivity.
    + reflexivity.
    + right. vm_compute. reflexivity.
    + reflexivity.
    + reflexivity.
Defined.

(** ** The mask invariant, where it is kept *)

Section InvariantKept.
Context {item : Type}.
Implicit Types (self : UD.t item).

(** X20.  The constructor and [reset()] establish the mask invariant
    (and a mask of one bit per item), and a [label(idxs)] that returns
    keeps both whenever the indices are pairwise distinct and within
    [[0, len(pool))]. *)
Theorem mask_invariant_maintained self :
  (forall dataset label_fn dbg,
      UD.__init__ dataset label_fn dbg = Ok self ->
      UD.mask_invariant self /\ UD.sized self) /\
  (UD.mask_invariant (snd (UD.reset self)) /\ UD.sized (snd (UD.reset self))) /\
  (forall idxs d self',
      UD.mask_invariant self -> UD.sized self ->
      NoDup idxs -> Forall (fun i => 0 <= i < UD.__len__ self) idxs ->
      UD.label idxs self = (Ok d, self') ->
      UD.mask_invariant self' /\ UD.sized self').
Proof.
  split; [|split].
  - intros dataset label_fn dbg H. eapply init_invariant; eauto.
  - destruct (reset_invariant self) as (self' & Hr & Hinv & Hsz & _).
    rewrite Hr. simpl. auto.
  - intros idxs d self' Hinv Hsz Hnd Hr Hlab. split.
    + eapply label_invariant; eauto.
    + eapply label_translation; eauto.
Qed.

End InvariantKept.

Lemma mask_invariant_maintained_witness :
  (UD.mask_invariant Examples.pool3 /\ UD.sized Examples.pool3) /\
  (UD.mask_invariant (snd (UD.label [2; 0] Examples.pool3)) /\
   UD.sized (snd (UD.label [2; 0] Examples.pool3))).
Proof.
  split.
  - apply (proj1 (mask_invariant_maintained Examples.pool3)
             Examples.pool3_data None false). reflexivity.
  - apply (proj2 (proj2 (mask_invariant_maintained Examples.pool3))
             [2; 0] (Subset Examples.pool3_data [2; 0])).
    + split; reflexivity.
    + reflexivity.
    + repeat constructor; simpl; intuition lia.
    + repeat constructor; unfold UD.__len__; simpl; lia.
    + reflexivity.
Defined.

Section SessionInvariant.
Context {item A : Type}.
Implicit Types (dm : DM.t item A).

(** X21.  A whole session.  With an acquisition function that only
    answers pairwise distinct indices of its view, every manager reached
    from a freshly built one by [acquire(b)] calls that returned has a
    pool that satisfies the mask invariant; its labelled indices are
    pairwise distinct positions of the dataset, and there are exactly
    [N - n_unlabelled] of them. *)
Theorem session_keeps_pool_consistent dataset label_fn dbg ud baseline
    (a_fn : AcquisitionFunction item A) attrs dm :
  answers_distinct_indices a_fn ->
  UD.__init__ dataset label_fn dbg = Ok ud ->
  acquired_plain (DM.__init__ baseline ud a_fn attrs) dm ->
  UD.mask_invariant (DM._unlabelled dm) /\
  NoDup (UD.labelled_indices (DM._unlabelled dm)) /\
  Forall (fun p => 0 <= p < len dataset) (UD.labelled_indices (DM._unlabelled dm)) /\
  exists nu, DM.n_unlabelled dm = Ok nu /\
    Z.of_nat (length (UD.labelled_indices (DM._unlabelled dm))) = len dataset - nu.
Proof.
  intros Hfn Hinit Hacq.
  assert (Hinv : UD.mask_invariant (DM._unlabelled dm) /\
                 UD.sized (DM._unlabelled dm) /\
                 UD._dataset (DM._unlabelled dm) = dataset /\
                 DM._a_fn dm = a_fn).
  { induction Hacq as [|dm b r dm' _ IH Hstep].
    - destruct (init_invariant _ _ _ _ Hinit) as [H1 H2].
      apply init_Ok in Hinit. subst ud. simpl. auto.
    - destruct IH as (Hi & Hs & Hd & Ha).
      apply acquire_Ok in Hstep
        as (n & idxs & attrs' & u' & _ & _ & Hcall & _ & _ & Hlab & ->).
      simpl in Hcall. rewrite Ha in Hcall. apply Hfn in Hcall as [Hnd Hr].
      pose proof (label_translation _ _ _ _ Hlab) as (_ & Hsz & Hds & _).
      simpl. repeat split.
      + eapply label_invariant; eauto.
      + eapply label_invariant; eauto.
      + apply Hsz, Hs.
      + congruence.
      + exact Ha. }
  destruct Hinv as ([Hlen Htr] & Hsz & Hds & _).
  split; [split; assumption|].
  pose proof (nonzero_NoDup (invert (UD._mask (DM._unlabelled dm)))) as Hnd.
  split; [exact Hnd|]. split.
  - apply Forall_forall. intros p Hp. unfold UD.labelled_indices in Hp.
    apply nonzero_range in Hp. rewrite invert_length in Hp.
    unfold UD.sized in Hsz. rewrite Hds in Hsz. lia.
  - exists (UD._len (DM._unlabelled dm)). unfold UD.__len__ in *.
    pose proof (nonzero_length (UD._mask (DM._unlabelled dm))) as Hpc.
    split.
    + unfold DM.n_unlabelled, UD.__len__. apply len_builtin_nonneg. lia.
    + unfold UD.labelled_indices. rewrite nonzero_length.
      unfold UD.sized in Hsz. rewrite Hds in Hsz. rewrite <- Hsz, <- Hlen.
      clear. unfold popcount, invert.
      induction (UD._mask (DM._unlabelled dm)) as [|b m IH]; [reflexivity|].
      cbn [map count_occ length].
      destruct b; simpl negb;
        destruct (bool_dec false true); destruct (bool_dec true true);
        try discriminate; try congruence; lia.
Qed.

End SessionInvariant.

Lemma session_keeps_pool_consistent_witness :
  let dm0 := Examples.manager MoreExamples.first_in_pool Examples.pool3 in
  let dm2 := snd (DM.acquire 1 None (snd (DM.acquire 1 None dm0))) in
  UD.mask_invariant (DM._unlabelled dm2) /\
  NoDup (UD.labelled_indices (DM._unlabelled dm2)) /\
  Forall (fun p => 0 <= p < len Examples.pool3_data)
         (UD.labelled_indices (DM._unlabelled dm2)) /\
  exists nu, DM.n_unlabelled dm2 = Ok nu /\
    Z.of_nat (length (UD.labelled_indices (DM._unlabelled dm2)))
    = len Examples.pool3_data - nu.
Proof.
  intros dm0 dm2.
  apply (session_keeps_pool_consistent Examples.pool3_data None false Examples.pool3
           Examples.baseline1 MoreExamples.first_in_pool tt dm2).
  - intros attrs X b idxs attrs' H. unfold MoreExamples.first_in_pool in H.
    inversion H. subst. split; [apply arange_NoDup|].
    apply Forall_forall. intros i Hi. apply arange_In in Hi. lia.
  - reflexivity.
  - refine (acquired_plain_step _ (snd (DM.acquire 1 None dm0)) 1 _ dm2
              (acquired_plain_step _ dm0 1 _ _ (acquired_plain_nil _) _) _);
      cbv; reflexivity.
Defined.

(** ** [MaxEnt]: the inference stage and the failures *)

Section MaxEntEdges.
Context {item feature F : Type}.
Variable item0 : item -> feature.
Variables (fexp fneg : F -> F) (fmul fadd : F -> F -> F) (fzero : F).
Variable isfinite : F -> bool.
Variable argsort_descending : list F -> list Z.

(** X23.  [recent_score] is only written by a call that returns: a call
    of [MaxEnt] that raises -- in the loader, in the prediction
    function, or on any of its assertions -- leaves the object as it
    was. *)
Theorem maxent_raise_keeps_attributes (X_pool : UD.t item) b
    (self self' : MaxEnt.t item feature F) e :
  MaxEnt.__call__ item0 fexp fneg fmul fadd fzero isfinite argsort_descending
    X_pool b self = (Raise e, self') ->
  self' = self.
Proof.
  unfold MaxEnt.__call__, bind, get, lift, assert_, put, ret.
  destruct (len_builtin (UD.__len__ X_pool)) as [n|e0];
    [|intros H; inversion H; reflexivity].
  destruct (MaxEnt.predict item0 self X_pool n) as [batches|e0];
    [|intros H; inversion H; reflexivity].
  destruct (MaxEnt.cat batches) as [preds|e0]; [|intros H; inversion H; reflexivity].
  destruct (MaxEnt.shape0 preds =? n); [|intros H; inversion H; reflexivity].
  destruct (forallb isfinite
              (map (MaxEnt.row_entropy fexp fneg fmul fadd fzero) (MaxEnt.rows preds)));
    [|intros H; inversion H; reflexivity].
  destruct (Z.of_nat (length (map (MaxEnt.row_entropy fexp fneg fmul fadd fzero)
                                 (MaxEnt.rows preds)))
            =? n); intros H; inversion H; reflexivity.
Qed.

End MaxEntEdges.

(** A classifier that answers a row too many. *)
Lemma maxent_raise_keeps_attributes_witness :
  let self := {| MaxEnt._pred_fn :=
                   fun batch : list (UD.indexed Examples.sample Z) =>
                     Ok (MaxEnt.Tensor2 4
                           (map Examples.logp [-2; -2; -2; -2]
                            :: map Examples.classify batch));
                 MaxEnt._device := None;
                 MaxEnt._dl_params := Examples.batches_of_two;
                 MaxEnt.recent_score := Some [Examples.logp 1] |} in
  snd (Examples.maxent_call Examples.pool3 2 self) = self.
Proof.
  intros self.
  apply (maxent_raise_keeps_attributes fst Examples.num_exp Examples.num_neg
           Examples.num_mul Examples.num_add Examples.num_zero Examples.num_isfinite
           (MaxEnt.argsort_reference Examples.num_le) Examples.pool3 2 self _
           (AssertionError Preds_rows)).
  reflexivity.
Defined.

(** The pool of three in batches of two. *)
Lemma inference_returns_witness :
  exists samples batches preds_N_C,
    MaxEnt.mapM (fun i => UD.__getitem__ fst i Examples.pool3) (arange 3) = Ok samples /\
    concat (MaxEnt.chunks 2 samples) = samples /\
    Forall (fun x => (0 < length x <= 2)%nat) (MaxEnt.chunks 2 samples) /\
    MaxEnt.mapM (MaxEnt._pred_fn (Examples.maxent Examples.classify))
      (MaxEnt.chunks 2 samples) = Ok batches /\
    MaxEnt.predict fst (Examples.maxent Examples.classify) Examples.pool3 3 = Ok batches /\
    MaxEnt.cat batches = Ok preds_N_C /\
    MaxEnt.shape0 preds_N_C = 3.
Proof.
  apply (inference_returns fst (Examples.maxent Examples.classify) Examples.pool3 3 4).
  - simpl. lia.
  - reflexivity.
  - reflexivity.
  - reflexivity.
  - reflexivity.
  - intros to_device H. discriminate H.
  - lia.
  - intros i Hi.
    assert (Hc : i = 0 \/ i = 1 \/ i = 2) by lia.
    destruct Hc as [-> | [-> | ->]]; eexists; reflexivity.
  - intros batch. eexists. split; [reflexivity|]. split; [reflexivity|].
    split; [|apply length_map].
    unfold MaxEnt.rectangular. simpl. apply forallb_forall. intros r Hr.
    apply in_map_iff in Hr as (x & <- & _).
    destruct x as [[f c]|f]; unfold Examples.classify;
      repeat (match goal with |- context [match ?z with _ => _ end] => destruct z end);
      reflexivity.
Defined.
